(** * Hyperion Tetris: the game engine of [TetrisGame.tsx]

    A shallow embedding of the engine part of the React component
    [TetrisGame] (src/tetris-app/src/components/TetrisGame.tsx): the shape
    table, the bag randomizer, [canPlace], [clearLines], [updateForClear],
    [finalizeLock], [spawnPiece] and the input handlers.

    Conventions of the embedding.
    - JavaScript numbers are integers here ([Z]); every quantity of the
      engine is an integer far below 2^53.
    - The component state (the [useState] hooks and the [useRef] cells) is
      one record, [State]; a handler is a function on it.  State setters are
      applied in program order: [setX(v)] writes [v], [setX(f)] applies the
      updater [f] to the value current at that point of the handler.
      React runs a queued updater at the next render; for an updater that
      only computes the new value of its hook this gives the same state.
      Two updaters do more.  The updater of [setQueue] in [spawnPiece] calls
      other setters: it is kept in the state and run by [render] after the
      handler, so that its setter calls come after the handler's own.  The
      updater of [setBoard] in [finalizeLock] assigns the locals
      [linesCleared] and [triggeredGameOver] of the handler.  It is queued
      like every updater (in [hardDrop] the updates of [setStats] and
      [addMessage] are queued before it), so [finalizeLock] reads the two
      locals before the updater has run: they are still [0] and [false].
      The same reading is taken for the callback of the lock timer.  The
      board that the updater returns is the board of the next render.  The
      values a handler closes over ([active], [status], [hold], [hasHeld],
      [board]) are read from the state the handler starts in.
    - An uncaught [TypeError] (reading a property of [undefined]) is the
      result [TypeError]; the [while] loop of [hardDrop] runs on fuel and
      [OutOfFuel] says the fuel did not suffice.
    - [Math.random] is an oracle, a sequence of naturals carried in the state;
      [Math.floor(Math.random() * n)] takes the next one modulo [n].
    - Wall-clock time is not modelled: the gravity tick, the lock-delay
      timeout and the play-time interval are events that [step] handles. *)

From Stdlib Require Import ZArith Lia Bool.
From stdpp Require Import base option list strings.

Local Open Scope Z_scope.

(** ** Results of a handler *)

Inductive Res (A : Type) : Type :=
| Ok (a : A)
| TypeError
| OutOfFuel.
Arguments Ok {A} a.
Arguments TypeError {A}.
Arguments OutOfFuel {A}.

#[global] Instance Res_ret : MRet Res := fun A a => Ok a.
#[global] Instance Res_bind : MBind Res := fun A B f m =>
  match m with
  | Ok a => f a
  | TypeError => TypeError
  | OutOfFuel => OutOfFuel
  end.

(** ** Data model *)

Inductive TetrominoType := PieceI | PieceJ | PieceL | PieceO | PieceS | PieceT | PieceZ.

#[global] Instance TetrominoType_eq_dec : EqDecision TetrominoType.
Proof. solve_decision. Defined.

Inductive GameStatus := ready | playing | paused | gameover.

#[global] Instance GameStatus_eq_dec : EqDecision GameStatus.
Proof. solve_decision. Defined.

Record Position := mkPosition { pos_x : Z; pos_y : Z }.

Record ActivePiece := mkActivePiece {
  ptype : TetrominoType;
  rotation : Z;
  position : Position
}.

(** A locked cell; [ghost] and [fading] are optional in the source and never
    set on a cell of the board. *)
Record Cell := mkCell { ctype : TetrominoType; ghost : option bool; fading : option bool }.

Abbreviation Row := (list (option Cell)).
Abbreviation Board := (list (list (option Cell))).

Record GameStats := mkGameStats {
  score : Z;
  level : Z;
  lines : Z;
  combo : Z;
  maxCombo : Z;
  cleared : list Z;
  tetrisCount : Z;
  hardDrops : Z;
  pieces : Z;
  playTime : Z
}.

Definition BOARD_WIDTH : Z := 10.
Definition BOARD_HEIGHT : Z := 20.
Definition LINES_PER_LEVEL : Z := 10.
Definition COMBO_BONUS : Z := 50.
Definition DROP_SCORE : Z := 2.

Definition lineScores : list Z := [0; 100; 300; 500; 800].

Abbreviation Matrix := (list (list Z)).

Definition TETROMINOES (t : TetrominoType) : list Matrix :=
  match t with
  | PieceI =>
      [ [ [0;0;0;0]; [1;1;1;1]; [0;0;0;0]; [0;0;0;0] ];
        [ [0;0;1;0]; [0;0;1;0]; [0;0;1;0]; [0;0;1;0] ];
        [ [0;0;0;0]; [0;0;0;0]; [1;1;1;1]; [0;0;0;0] ];
        [ [0;1;0;0]; [0;1;0;0]; [0;1;0;0]; [0;1;0;0] ] ]
  | PieceJ =>
      [ [ [1;0;0]; [1;1;1]; [0;0;0] ];
        [ [0;1;1]; [0;1;0]; [0;1;0] ];
        [ [0;0;0]; [1;1;1]; [0;0;1] ];
        [ [0;1;0]; [0;1;0]; [1;1;0] ] ]
  | PieceL =>
      [ [ [0;0;1]; [1;1;1]; [0;0;0] ];
        [ [0;1;0]; [0;1;0]; [0;1;1] ];
        [ [0;0;0]; [1;1;1]; [1;0;0] ];
        [ [1;1;0]; [0;1;0]; [0;1;0] ] ]
  | PieceO =>
      [ [ [0;1;1;0]; [0;1;1;0]; [0;0;0;0]; [0;0;0;0] ] ]
  | PieceS =>
      [ [ [0;1;1]; [1;1;0]; [0;0;0] ];
        [ [0;1;0]; [0;1;1]; [0;0;1] ];
        [ [0;0;0]; [0;1;1]; [1;1;0] ];
        [ [1;0;0]; [1;1;0]; [0;1;0] ] ]
  | PieceT =>
      [ [ [0;1;0]; [1;1;1]; [0;0;0] ];
        [ [0;1;0]; [0;1;1]; [0;1;0] ];
        [ [0;0;0]; [1;1;1]; [0;1;0] ];
        [ [0;1;0]; [1;1;0]; [0;1;0] ] ]
  | PieceZ =>
      [ [ [1;1;0]; [0;1;1]; [0;0;0] ];
        [ [0;0;1]; [0;1;1]; [0;1;0] ];
        [ [0;0;0]; [1;1;0]; [0;1;1] ];
        [ [0;1;0]; [1;1;0]; [1;0;0] ] ]
  end.

Definition ALL_TETROMINOES : list TetrominoType :=
  [PieceI; PieceJ; PieceL; PieceO; PieceS; PieceT; PieceZ].

Definition emptyRow : Row := replicate (Z.to_nat BOARD_WIDTH) None.

Definition createEmptyBoard : Board := replicate (Z.to_nat BOARD_HEIGHT) emptyRow.

Definition createInitialStats : GameStats :=
  {| score := 0; level := 0; lines := 0; combo := 0; maxCombo := 0;
     cleared := [0; 0; 0; 0]; tetrisCount := 0; hardDrops := 0;
     pieces := 0; playTime := 0 |}.

Definition getRotations (t : TetrominoType) : list Matrix := TETROMINOES t.

(** [a[i]] for a number [i]: [undefined] ([None]) outside the array. *)
Definition jsIndex {A : Type} (l : list A) (i : Z) : option A :=
  if i <? 0 then None else l !! Z.to_nat i.

(** Truthiness of a matrix entry and of a board cell. *)
Definition truthy (c : Z) : bool := negb (c =? 0).

Definition cellTruthy (c : option (option Cell)) : bool :=
  match c with
  | Some (Some _) => true
  | _ => false
  end.

(** ** canPlace *)

(** The matrix [rotations[(piece.rotation + rotationShift + rotations.length)
    % rotations.length]]; [%] is the remainder that takes the sign of the
    dividend.  Reading [.length] of [undefined] throws. *)
Definition candidateMatrix (piece : ActivePiece) (rotationShift : Z) : Res Matrix :=
  let rotations := getRotations (ptype piece) in
  let len := Z.of_nat (length rotations) in
  match jsIndex rotations (Z.rem (rotation piece + rotationShift + len) len) with
  | Some m => Ok m
  | None => TypeError
  end.

(** The inner loop over [x], from column [xx] of matrix row [yy]; [Ok true]
    says the loop ran to its end without a [return false]. *)
Fixpoint canPlaceRow (board : Board) (piece : ActivePiece) (offset : Position)
    (yy : Z) (row : list Z) (xx : Z) : Res bool :=
  match row with
  | [] => Ok true
  | c :: row' =>
      if truthy c then
        let boardX := pos_x (position piece) + xx + pos_x offset in
        let boardY := pos_y (position piece) + yy + pos_y offset in
        if (boardX <? 0) || (boardX >=? BOARD_WIDTH) then Ok false
        else if boardY >=? BOARD_HEIGHT then Ok false
        else if boardY >=? 0 then
          match board !! Z.to_nat boardY with
          | None => TypeError
          | Some brow =>
              if cellTruthy (brow !! Z.to_nat boardX) then Ok false
              else canPlaceRow board piece offset yy row' (xx + 1)
          end
        else canPlaceRow board piece offset yy row' (xx + 1)
      else canPlaceRow board piece offset yy row' (xx + 1)
  end.

(** The outer loop over [y], from matrix row [yy]. *)
Fixpoint canPlaceRows (board : Board) (piece : ActivePiece) (offset : Position)
    (rows : Matrix) (yy : Z) : Res bool :=
  match rows with
  | [] => Ok true
  | row :: rows' =>
      r ← canPlaceRow board piece offset yy row 0;
      if r : bool then canPlaceRows board piece offset rows' (yy + 1) else Ok false
  end.

Definition canPlace (board : Board) (piece : ActivePiece) (offset : Position)
    (rotationShift : Z) : Res bool :=
  matrix ← candidateMatrix piece rotationShift;
  canPlaceRows board piece offset matrix 0.

(** The reading of [canPlace] in the specification. *)

(** Entry [(yy, xx)] of a shape matrix is occupied. *)
Definition shapeCell (m : Matrix) (yy xx : nat) : bool :=
  match m !! yy with
  | Some row => match row !! xx with Some c => truthy c | None => false end
  | None => false
  end.

(** Some entry of the matrix is occupied. *)
Definition hasCell (m : Matrix) : bool := existsb (existsb truthy) m.

(** Board cell at row [r], column [c] holds a locked cell. *)
Definition occupiedAt (board : Board) (r c : Z) : bool :=
  match jsIndex board r with
  | Some brow => cellTruthy (jsIndex brow c)
  | None => false
  end.

(** The cell [(yy, xx)] of the shape, anchored at the piece position moved
    by [offset], leaves the columns, reaches the floor, or lands on a locked
    cell of a visible row. *)
Definition cellBlocked (board : Board) (piece : ActivePiece) (offset : Position)
    (yy xx : Z) : Prop :=
  let boardX := pos_x (position piece) + xx + pos_x offset in
  let boardY := pos_y (position piece) + yy + pos_y offset in
  boardX < 0 ∨ BOARD_WIDTH ≤ boardX ∨ BOARD_HEIGHT ≤ boardY ∨
  (0 ≤ boardY ∧ occupiedAt board boardY boardX = true).

Definition blocked (board : Board) (piece : ActivePiece) (offset : Position)
    (m : Matrix) : Prop :=
  ∃ yy xx : nat,
    shapeCell m yy xx = true ∧
    cellBlocked board piece offset (Z.of_nat yy) (Z.of_nat xx).

(** ** clearLines *)

(** [row.some((cell) => !cell)]: the row has an empty cell. *)
Definition hasEmptyCell (row : Row) : bool :=
  existsb (fun cell : option Cell => negb (bool_decide (is_Some cell))) row.

(** [Array.from({ length: n }, ...)]: a length below zero gives no element. *)
Definition clearLines (boardState : Board) : Board * Z :=
  let next := List.filter hasEmptyCell boardState in
  let clearedLines := BOARD_HEIGHT - Z.of_nat (length next) in
  if clearedLines =? 0 then (boardState, 0)
  else
    let newRows := replicate (Z.to_nat clearedLines) emptyRow in
    (newRows ++ next, clearedLines).

(** The reading of a full row in the specification: every cell is occupied. *)
Definition fullRow (row : Row) : bool :=
  forallb (fun cell : option Cell => bool_decide (is_Some cell)) row.

Definition wellFormed (b : Board) : Prop :=
  length b = Z.to_nat BOARD_HEIGHT ∧
  Forall (fun row : Row => length row = Z.to_nat BOARD_WIDTH) b.

(** ** Statistics *)

Definition withScore (v : Z) (s : GameStats) : GameStats :=
  {| score := v; level := level s; lines := lines s; combo := combo s;
     maxCombo := maxCombo s; cleared := cleared s; tetrisCount := tetrisCount s;
     hardDrops := hardDrops s; pieces := pieces s; playTime := playTime s |}.

Definition withCombo (v : Z) (s : GameStats) : GameStats :=
  {| score := score s; level := level s; lines := lines s; combo := v;
     maxCombo := maxCombo s; cleared := cleared s; tetrisCount := tetrisCount s;
     hardDrops := hardDrops s; pieces := pieces s; playTime := playTime s |}.

Definition withHardDrops (v : Z) (s : GameStats) : GameStats :=
  {| score := score s; level := level s; lines := lines s; combo := combo s;
     maxCombo := maxCombo s; cleared := cleared s; tetrisCount := tetrisCount s;
     hardDrops := v; pieces := pieces s; playTime := playTime s |}.

Definition withPieces (v : Z) (s : GameStats) : GameStats :=
  {| score := score s; level := level s; lines := lines s; combo := combo s;
     maxCombo := maxCombo s; cleared := cleared s; tetrisCount := tetrisCount s;
     hardDrops := hardDrops s; pieces := v; playTime := playTime s |}.

Definition withPlayTime (v : Z) (s : GameStats) : GameStats :=
  {| score := score s; level := level s; lines := lines s; combo := combo s;
     maxCombo := maxCombo s; cleared := cleared s; tetrisCount := tetrisCount s;
     hardDrops := hardDrops s; pieces := pieces s; playTime := v |}.

(** The updater [(prev) => ({ ...prev, combo: 0 })]. *)
Definition resetCombo (prev : GameStats) : GameStats := withCombo 0 prev.

(** [lineScores[clearedLines] ?? clearedLines * 200]. *)
Definition linePoints (clearedLines : Z) : Z :=
  match jsIndex lineScores clearedLines with
  | Some p => p
  | None => clearedLines * 200
  end.

(** The updater that [updateForClear] hands to [setStats] when
    [clearedLines] is not zero. *)
Definition clearStats (clearedLines : Z) (prev : GameStats) : GameStats :=
  let points := linePoints clearedLines in
  let newCombo := combo prev + 1 in
  let comboBonus := if newCombo >? 1 then (newCombo - 1) * COMBO_BONUS else 0 in
  let newLines := lines prev + clearedLines in
  let newLevel := newLines / LINES_PER_LEVEL in
  let tetrisCount' :=
    if clearedLines =? 4 then tetrisCount prev + 1 else tetrisCount prev in
  {| score := score prev + points * (level prev + 1) + comboBonus * (level prev + 1);
     level := newLevel;
     lines := newLines;
     combo := newCombo;
     maxCombo := Z.max (maxCombo prev) newCombo;
     cleared := imap (fun idx val => if Z.of_nat idx =? clearedLines - 1 then val + 1 else val)
                     (cleared prev);
     tetrisCount := tetrisCount';
     hardDrops := hardDrops prev;
     pieces := pieces prev;
     playTime := playTime prev |}.

(** The change of [stats] made by [updateForClear(clearedLines)]. *)
Definition updateStatsForClear (clearedLines : Z) (prev : GameStats) : GameStats :=
  if clearedLines =? 0 then resetCombo prev else clearStats clearedLines prev.

(** The tables of the specification. *)
Definition specBase (k : Z) : Z :=
  if k =? 1 then 100 else if k =? 2 then 300 else if k =? 3 then 500
  else if k =? 4 then 800 else k * 200.

Definition specComboBonus (comboStreak : Z) : Z :=
  if 1 <? comboStreak then (comboStreak - 1) * 50 else 0.

(** ** Bag randomizer *)

(** The random oracle: the naturals that the coming calls of [Math.random]
    are built from. *)
Definition Rng := nat → nat.

(** [Math.floor(Math.random() * n)]: an integer of [0, n). *)
Definition randomBelow (n : nat) (r : Rng) : nat * Rng :=
  ((r 0%nat) `mod` n, fun k => r (S k))%nat.

(** [[bag[i], bag[j]] = [bag[j], bag[i]]]; both indices are inside the bag
    wherever the shuffle calls it. *)
Definition swap (bag : list TetrominoType) (i j : nat) : list TetrominoType :=
  match bag !! i, bag !! j with
  | Some a, Some b => <[j := a]> (<[i := b]> bag)
  | _, _ => bag
  end.

(** The loop [for (let i = bag.length - 1; i > 0; i -= 1)], entered at [i]. *)
Fixpoint shuffleFrom (i : nat) (bag : list TetrominoType) (r : Rng)
    : list TetrominoType * Rng :=
  match i with
  | O => (bag, r)
  | S i' =>
      let '(j, r') := randomBelow (i + 1) r in
      shuffleFrom i' (swap bag i j) r'
  end.

Definition generateBag (r : Rng) : list TetrominoType * Rng :=
  shuffleFrom (length ALL_TETROMINOES - 1) ALL_TETROMINOES r.

(** ** The state of the component *)

(** [lockTimeout] is the ref cell (the id of the timer armed last, or
    [null]); [timers] are the lock-delay timeouts that are pending, each with
    the board its callback closed over when it was armed.  [statsRef] is the
    ref that an effect sets to [stats] after every render; [activeRef] and
    [statusRef], kept the same way, are read as [active] and [status].
    [pendingSpawns] are the updaters that [spawnPiece] has handed to
    [setQueue] and that wait for the next render, each with its
    [forcedType]. *)
Record State := mkState {
  board : Board;
  active : option ActivePiece;
  queue : list TetrominoType;
  hold : option TetrominoType;
  hasHeld : bool;
  status : GameStatus;
  stats : GameStats;
  highScore : Z;
  messages : list string;
  lockTimeout : option nat;
  timers : list (nat * Board);
  nextTimer : nat;
  softDropping : bool;
  statsRef : GameStats;
  gameOverRef : bool;
  rng : Rng;
  pendingSpawns : list (option TetrominoType)
}.

Definition setBoard (v : Board) (s : State) : State :=
  mkState v (active s) (queue s) (hold s) (hasHeld s) (status s) (stats s)
    (highScore s) (messages s) (lockTimeout s) (timers s) (nextTimer s)
    (softDropping s) (statsRef s) (gameOverRef s) (rng s) (pendingSpawns s).

Definition setActive (v : option ActivePiece) (s : State) : State :=
  mkState (board s) v (queue s) (hold s) (hasHeld s) (status s) (stats s)
    (highScore s) (messages s) (lockTimeout s) (timers s) (nextTimer s)
    (softDropping s) (statsRef s) (gameOverRef s) (rng s) (pendingSpawns s).

Definition setQueue (v : list TetrominoType) (s : State) : State :=
  mkState (board s) (active s) v (hold s) (hasHeld s) (status s) (stats s)
    (highScore s) (messages s) (lockTimeout s) (timers s) (nextTimer s)
    (softDropping s) (statsRef s) (gameOverRef s) (rng s) (pendingSpawns s).

Definition setHold (v : option TetrominoType) (s : State) : State :=
  mkState (board s) (active s) (queue s) v (hasHeld s) (status s) (stats s)
    (highScore s) (messages s) (lockTimeout s) (timers s) (nextTimer s)
    (softDropping s) (statsRef s) (gameOverRef s) (rng s) (pendingSpawns s).

Definition setHasHeld (v : bool) (s : State) : State :=
  mkState (board s) (active s) (queue s) (hold s) v (status s) (stats s)
    (highScore s) (messages s) (lockTimeout s) (timers s) (nextTimer s)
    (softDropping s) (statsRef s) (gameOverRef s) (rng s) (pendingSpawns s).

Definition setStatus (v : GameStatus) (s : State) : State :=
  mkState (board s) (active s) (queue s) (hold s) (hasHeld s) v (stats s)
    (highScore s) (messages s) (lockTimeout s) (timers s) (nextTimer s)
    (softDropping s) (statsRef s) (gameOverRef s) (rng s) (pendingSpawns s).

(** [setStats] with an updater. *)
Definition setStats (f : GameStats → GameStats) (s : State) : State :=
  mkState (board s) (active s) (queue s) (hold s) (hasHeld s) (status s)
    (f (stats s)) (highScore s) (messages s) (lockTimeout s) (timers s)
    (nextTimer s) (softDropping s) (statsRef s) (gameOverRef s) (rng s)
    (pendingSpawns s).

Definition setHighScore (v : Z) (s : State) : State :=
  mkState (board s) (active s) (queue s) (hold s) (hasHeld s) (status s)
    (stats s) v (messages s) (lockTimeout s) (timers s) (nextTimer s)
    (softDropping s) (statsRef s) (gameOverRef s) (rng s) (pendingSpawns s).

Definition setMessages (v : list string) (s : State) : State :=
  mkState (board s) (active s) (queue s) (hold s) (hasHeld s) (status s)
    (stats s) (highScore s) v (lockTimeout s) (timers s) (nextTimer s)
    (softDropping s) (statsRef s) (gameOverRef s) (rng s) (pendingSpawns s).

Definition setLockTimeout (v : option nat) (s : State) : State :=
  mkState (board s) (active s) (queue s) (hold s) (hasHeld s) (status s)
    (stats s) (highScore s) (messages s) v (timers s) (nextTimer s)
    (softDropping s) (statsRef s) (gameOverRef s) (rng s) (pendingSpawns s).

Definition setTimers (v : list (nat * Board)) (s : State) : State :=
  mkState (board s) (active s) (queue s) (hold s) (hasHeld s) (status s)
    (stats s) (highScore s) (messages s) (lockTimeout s) v (nextTimer s)
    (softDropping s) (statsRef s) (gameOverRef s) (rng s) (pendingSpawns s).

Definition setNextTimer (v : nat) (s : State) : State :=
  mkState (board s) (active s) (queue s) (hold s) (hasHeld s) (status s)
    (stats s) (highScore s) (messages s) (lockTimeout s) (timers s) v
    (softDropping s) (statsRef s) (gameOverRef s) (rng s) (pendingSpawns s).

Definition setSoftDropping (v : bool) (s : State) : State :=
  mkState (board s) (active s) (queue s) (hold s) (hasHeld s) (status s)
    (stats s) (highScore s) (messages s) (lockTimeout s) (timers s)
    (nextTimer s) v (statsRef s) (gameOverRef s) (rng s) (pendingSpawns s).

Definition setStatsRef (v : GameStats) (s : State) : State :=
  mkState (board s) (active s) (queue s) (hold s) (hasHeld s) (status s)
    (stats s) (highScore s) (messages s) (lockTimeout s) (timers s)
    (nextTimer s) (softDropping s) v (gameOverRef s) (rng s) (pendingSpawns s).

Definition setGameOverRef (v : bool) (s : State) : State :=
  mkState (board s) (active s) (queue s) (hold s) (hasHeld s) (status s)
    (stats s) (highScore s) (messages s) (lockTimeout s) (timers s)
    (nextTimer s) (softDropping s) (statsRef s) v (rng s) (pendingSpawns s).

Definition setRng (v : Rng) (s : State) : State :=
  mkState (board s) (active s) (queue s) (hold s) (hasHeld s) (status s)
    (stats s) (highScore s) (messages s) (lockTimeout s) (timers s)
    (nextTimer s) (softDropping s) (statsRef s) (gameOverRef s) v
    (pendingSpawns s).

Definition setPendingSpawns (v : list (option TetrominoType)) (s : State) : State :=
  mkState (board s) (active s) (queue s) (hold s) (hasHeld s) (status s)
    (stats s) (highScore s) (messages s) (lockTimeout s) (timers s)
    (nextTimer s) (softDropping s) (statsRef s) (gameOverRef s) (rng s) v.

(** [generateBag()] in a handler: the bag, and the state with the oracle
    advanced. *)
Definition drawBag (s : State) : list TetrominoType * State :=
  let '(bag, r) := generateBag (rng s) in (bag, setRng r s).

(** [clearTimeout(id)]. *)
Definition clearTimeout (id : nat) (s : State) : State :=
  setTimers (List.filter (fun t : nat * Board => negb (Nat.eqb (fst t) id)) (timers s)) s.

(** [if (lockTimeout.current) { clearTimeout(lockTimeout.current);
    lockTimeout.current = null; }]. *)
Definition cancelLockTimeout (s : State) : State :=
  match lockTimeout s with
  | Some id => setLockTimeout None (clearTimeout id s)
  | None => s
  end.

Definition addMessage (text : string) (s : State) : State :=
  setMessages (take 4 (text :: messages s)) s.

(** ** spawnPiece *)

Definition spawnAt (t : TetrominoType) : Res ActivePiece :=
  match getRotations t with
  | matrix :: _ =>
      match matrix with
      | row0 :: _ =>
          let width := Z.of_nat (length row0) in
          let spawnX := (BOARD_WIDTH - width) / 2 in
          let spawnY := if decide (t = PieceI) then -1 else 0 in
          Ok (mkActivePiece t 0 (mkPosition spawnX spawnY))
      | [] => TypeError
      end
  | [] => TypeError
  end.

(** [let type = forcedType; if (!type) { type = nextQueue.shift() ??
    generateBag()[0]; }]: the type, and what is left of the queue. *)
Definition nextType (forcedType : option TetrominoType)
    (nextQueue : list TetrominoType) (s : State)
    : Res (TetrominoType * list TetrominoType * State) :=
  match forcedType with
  | Some t => Ok (t, nextQueue, s)
  | None =>
      match nextQueue with
      | t :: rest => Ok (t, rest, s)
      | [] =>
          let '(bag, s') := drawBag s in
          match bag with
          | t :: _ => Ok (t, [], s')
          | [] => TypeError
          end
      end
  end.

(** [if (nextQueue.length < 7) { nextQueue.push(...generateBag()); }]. *)
Definition replenish (nextQueue : list TetrominoType) (s : State)
    : list TetrominoType * State :=
  if (length nextQueue <? 7)%nat
  then let '(bag, s') := drawBag s in (nextQueue ++ bag, s')
  else (nextQueue, s).

(** The updater that [spawnPiece(forcedType?)] gives to [setQueue], with
    the setters it calls. *)
Definition spawnUpdater (forcedType : option TetrominoType) (s : State) : Res State :=
  '(type, nextQueue, s) ← nextType forcedType (queue s) s;
  let '(nextQueue, s) := replenish nextQueue s in
  piece ← spawnAt type;
  let s := setActive (Some piece) s in
  let s := setHasHeld false s in
  let s := setStats (fun prev => withPieces (pieces prev + 1) prev) s in
  Ok (setQueue nextQueue s).

(** [spawnPiece(forcedType?)]: [setQueue] with that updater.  The updater
    runs at the next render, so the setters it calls come after those of the
    handler that called [spawnPiece]. *)
Definition spawnPiece (forcedType : option TetrominoType) (s : State) : State :=
  setPendingSpawns (pendingSpawns s ++ [forcedType]) s.

(** The type that the updater of [spawnPiece] spawns. *)
Definition spawnedType (forcedType : option TetrominoType) (s : State)
    : option TetrominoType :=
  match forcedType with
  | Some t => Some t
  | None => match queue s with
            | t :: _ => Some t
            | [] => head (generateBag (rng s)).1
            end
  end.

(** ** resetGame and startGame *)

Definition resetGame (s : State) : Res State :=
  let s := cancelLockTimeout s in
  let s := setBoard createEmptyBoard s in
  let '(bag1, s) := drawBag s in
  let '(bag2, s) := drawBag s in
  let bag := bag1 ++ bag2 in
  let '(firstType, bag) :=
    match bag with
    | t :: rest => (t, rest)
    | [] => (PieceI, [])
    end in
  piece ← spawnAt firstType;
  let s := setStats (fun _ => withPieces 1 createInitialStats) s in
  let s := setQueue bag s in
  let s := setHold None s in
  let s := setHasHeld false s in
  let s := setMessages [] s in
  let s := setGameOverRef false s in
  Ok (setActive (Some piece) s).

Definition startGame (s : State) : Res State :=
  resetGame (setStatus playing s).

(** ** updateForClear *)

Definition clearMessage (clearedLines : Z) : string :=
  if clearedLines =? 4 then "Tetris! +Ultra Bonus"
  else if clearedLines =? 3 then "Triple Sonic!"
  else if clearedLines =? 2 then "Double Dash!"
  else "Line Break!".

Definition updateForClear (clearedLines : Z) (s : State) : State :=
  if clearedLines =? 0 then setStats resetCombo s
  else addMessage (clearMessage clearedLines) (setStats (clearStats clearedLines) s).

(** ** finalizeLock *)

(** [next[boardY][boardX] = cell] on the row [next[boardY]]: an index past
    the end grows the array (the holes read as [undefined]); a negative
    index names a property and changes no element. *)
Definition writeCell (row : Row) (boardX : Z) (c : Cell) : Row :=
  if boardX <? 0 then row
  else
    let i := Z.to_nat boardX in
    if (i <? length row)%nat then <[i := Some c]> row
    else row ++ replicate (i - length row) None ++ [Some c].

(** The inner loop of the [setBoard] updater; [Ok None] is its
    [triggeredGameOver = true; return prev]. *)
Fixpoint lockRow (piece : ActivePiece) (yy : Z) (row : list Z) (xx : Z)
    (next : Board) : Res (option Board) :=
  match row with
  | [] => Ok (Some next)
  | c :: row' =>
      if truthy c then
        let boardX := pos_x (position piece) + xx in
        let boardY := pos_y (position piece) + yy in
        if boardY <? 0 then Ok None
        else
          match next !! Z.to_nat boardY with
          | None => TypeError
          | Some brow =>
              lockRow piece yy row' (xx + 1)
                (<[Z.to_nat boardY := writeCell brow boardX (mkCell (ptype piece) None None)]> next)
          end
      else lockRow piece yy row' (xx + 1) next
  end.

Fixpoint lockRows (piece : ActivePiece) (rows : Matrix) (yy : Z) (next : Board)
    : Res (option Board) :=
  match rows with
  | [] => Ok (Some next)
  | row :: rows' =>
      r ← lockRow piece yy row 0 next;
      match r with
      | None => Ok None
      | Some next' => lockRows piece rows' (yy + 1) next'
      end
  end.

(** The [setBoard] updater of [finalizeLock]: the new board, the lines
    cleared and [triggeredGameOver]. *)
Definition lockBoard (piece : ActivePiece) (prev : Board) : Res (Board * Z * bool) :=
  match jsIndex (getRotations (ptype piece)) (rotation piece) with
  | None => TypeError
  | Some matrix =>
      r ← lockRows piece matrix 0 prev;
      match r with
      | None => Ok (prev, 0, true)
      | Some next =>
          let '(next', clearedLines) := clearLines next in
          Ok (next', clearedLines, false)
      end
  end.

(** [finalizeLock]: the updater is queued, and the handler goes on with
    [linesCleared] and [triggeredGameOver] as it has initialised them; what
    the updater assigns to them later is read by nobody. *)
Definition finalizeLock (piece : ActivePiece) (s : State) : Res State :=
  let linesCleared := 0 in
  let triggeredGameOver := false in
  '(b, _, _) ← lockBoard piece (board s);
  let s := setBoard b s in
  let s := setActive None s in
  if triggeredGameOver : bool then
    let s := setGameOverRef true s in
    let s := setStatus gameover s in
    let s := addMessage "Game Over - Press Space to restart" s in
    let s := setHighScore (if score (statsRef s) >? highScore s
                           then score (statsRef s) else highScore s) s in
    Ok (setStats resetCombo s)
  else
    let s := if linesCleared >? 0 then updateForClear linesCleared s
             else setStats resetCombo s in
    let s := setLockTimeout None s in
    Ok (spawnPiece None s).

(** ** The handlers *)

Inductive Direction := DirMinus | DirPlus.

Definition dirZ (d : Direction) : Z :=
  match d with DirMinus => -1 | DirPlus => 1 end.

Definition translate (dx dy : Z) (p : ActivePiece) : ActivePiece :=
  mkActivePiece (ptype p) (rotation p)
    (mkPosition (pos_x (position p) + dx) (pos_y (position p) + dy)).

(** [setTimeout(callback, LOCK_DELAY)] stored in [lockTimeout.current]; the
    callback keeps the [canPlace] of this render, hence this board. *)
Definition armLockTimeout (s : State) : State :=
  let id := nextTimer s in
  let s := setTimers (timers s ++ [(id, board s)]) s in
  let s := setNextTimer (S id) s in
  setLockTimeout (Some id) s.

Definition dropPiece (soft forceLock : bool) (s : State) : Res State :=
  match active s with
  | None => Ok s
  | Some a =>
      if decide (status s = playing) then
        ok ← (if forceLock then Ok false
              else canPlace (board s) a (mkPosition 0 1) 0);
        if ok : bool then
          let s1 := setActive (translate 0 1 <$> active s) s in
          Ok (if soft then setStats (fun prev => withScore (score prev + DROP_SCORE) prev) s1
              else s1)
        else
          let s1 := match lockTimeout s with
                    | Some id => clearTimeout id s
                    | None => s
                    end in
          if forceLock then finalizeLock a s1
          else Ok (armLockTimeout s1)
      else Ok s
  end.

(** The callback of the lock-delay timeout [id], when it fires. *)
Definition lockTimerFire (id : nat) (s : State) : Res State :=
  match List.find (fun t : nat * Board => Nat.eqb (fst t) id) (timers s) with
  | None => Ok s
  | Some (_, closureBoard) =>
      let s := clearTimeout id s in
      match active s with
      | None => Ok s
      | Some current =>
          if decide (status s = playing) then
            ok ← canPlace closureBoard current (mkPosition 0 1) 0;
            if ok : bool then Ok s else finalizeLock current s
          else Ok s
      end
  end.

(** The loop [while (canPlace(ghost, { x: 0, y: 1 }))] of [hardDrop]. *)
Fixpoint descend (fuel : nat) (b : Board) (ghost : ActivePiece) (distance : Z)
    : Res (ActivePiece * Z) :=
  match fuel with
  | O => OutOfFuel
  | S fuel' =>
      ok ← canPlace b ghost (mkPosition 0 1) 0;
      if ok : bool then descend fuel' b (translate 0 1 ghost) (distance + 1)
      else Ok (ghost, distance)
  end.

Definition hardDropStats (distance : Z) (prev : GameStats) : GameStats :=
  withHardDrops (hardDrops prev + 1) (withScore (score prev + distance * DROP_SCORE * 3) prev).

Definition hardDrop (fuel : nat) (s : State) : Res State :=
  match active s with
  | None => Ok s
  | Some a =>
      if decide (status s = playing) then
        '(ghost, distance) ← descend fuel (board s) a 0;
        let s := setStats (hardDropStats distance) s in
        let s := addMessage "Hyper Drop!" s in
        finalizeLock ghost s
      else Ok s
  end.

Definition movePiece (dir : Direction) (s : State) : Res State :=
  match active s with
  | None => Ok s
  | Some a =>
      if decide (status s = playing) then
        ok ← canPlace (board s) a (mkPosition (dirZ dir) 0) 0;
        if ok : bool then
          Ok (cancelLockTimeout (setActive (translate (dirZ dir) 0 <$> active s) s))
        else Ok s
      else Ok s
  end.

Definition kicks : list Position :=
  [ mkPosition 0 0; mkPosition (-1) 0; mkPosition 1 0; mkPosition 0 (-1); mkPosition 0 1 ].

Definition rotated (nextRotation : Z) (kick : Position) (p : ActivePiece) : ActivePiece :=
  mkActivePiece (ptype p) nextRotation
    (mkPosition (pos_x (position p) + pos_x kick) (pos_y (position p) + pos_y kick)).

(** The loop [for (const kick of kicks)] of [rotatePiece]. *)
Fixpoint tryKicks (a : ActivePiece) (dir : Direction) (nextRotation : Z)
    (ks : list Position) (s : State) : Res State :=
  match ks with
  | [] => Ok s
  | kick :: ks' =>
      ok ← canPlace (board s) a kick (dirZ dir);
      if ok : bool then
        Ok (cancelLockTimeout (setActive (rotated nextRotation kick <$> active s) s))
      else tryKicks a dir nextRotation ks' s
  end.

Definition rotatePiece (dir : Direction) (s : State) : Res State :=
  match active s with
  | None => Ok s
  | Some a =>
      if decide (status s = playing) then
        let rotations := getRotations (ptype a) in
        let len := Z.of_nat (length rotations) in
        let nextRotation := Z.rem (rotation a + dirZ dir + len) len in
        tryKicks a dir nextRotation kicks s
      else Ok s
  end.

Definition holdPiece (s : State) : State :=
  match active s with
  | None => s
  | Some a =>
      if decide (status s = playing) then
        if hasHeld s then s
        else
          let held := hold s in
          let s1 := cancelLockTimeout s in
          let s1 := setHasHeld true s1 in
          let s1 := match held with
                    | Some h =>
                        let nextHold := ptype a in
                        let s2 := spawnPiece (Some h) s1 in
                        setHold (Some nextHold) s2
                    | None =>
                        spawnPiece None (setHold (Some (ptype a)) s1)
                    end in
          let s1 := setActive None s1 in
          addMessage "Hold Swap" s1
      else s
  end.

Definition togglePause (s : State) : State :=
  let s := match status s with
           | playing => setStatus paused s
           | paused => setStatus playing s
           | _ => s
           end in
  addMessage "Pause Toggled" s.

(** ** Events *)

Inductive Event :=
| EvStart
| EvTogglePause
| EvMove (dir : Direction)
| EvRotate (dir : Direction)
| EvSoftDrop
| EvSoftDropKeyDown
| EvSoftDropKeyUp
| EvGravity
| EvHardDrop (fuel : nat)
| EvHold
| EvLockTimer (id : nat)
| EvSecond.

Definition handle (e : Event) (s : State) : Res State :=
  match e with
  | EvStart => startGame s
  | EvTogglePause => Ok (togglePause s)
  | EvMove dir => movePiece dir s
  | EvRotate dir => rotatePiece dir s
  | EvSoftDrop => dropPiece true false s
  | EvSoftDropKeyDown =>
      if decide (status s = playing)
      then dropPiece true false (setSoftDropping true s)
      else Ok s
  | EvSoftDropKeyUp => Ok (setSoftDropping false s)
  | EvGravity =>
      if decide (status s = playing)
      then dropPiece (softDropping s) false s
      else Ok s
  | EvHardDrop fuel => hardDrop fuel s
  | EvHold => Ok (holdPiece s)
  | EvLockTimer id => lockTimerFire id s
  | EvSecond =>
      if decide (status s = playing)
      then Ok (setStats (fun prev => withPlayTime (playTime prev + 1) prev) s)
      else Ok s
  end.

(** The effects after the render that follows an event. *)
Definition commit (s : State) : State := setStatsRef (stats s) s.

(** The updaters of [setQueue] that wait, run in the order of their calls. *)
Fixpoint runSpawns (forced : list (option TetrominoType)) (s : State) : Res State :=
  match forced with
  | [] => Ok s
  | forcedType :: rest => s' ← spawnUpdater forcedType s; runSpawns rest s'
  end.

(** The render that follows an event: the waiting updaters, then the
    effects. *)
Definition render (s : State) : Res State :=
  s' ← runSpawns (pendingSpawns s) (setPendingSpawns [] s);
  Ok (commit s').

Definition step (e : Event) (s : State) : Res State :=
  s' ← handle e s; render s'.

(** The state of the first render: [stored] is the high score read from
    local storage (0 when there is none), [r] the random oracle. *)
Definition initialState (stored : Z) (r : Rng) : State :=
  let '(bag1, r) := generateBag r in
  let '(bag2, r) := generateBag r in
  {| board := createEmptyBoard; active := None; queue := bag1 ++ bag2;
     hold := None; hasHeld := false; status := ready;
     stats := createInitialStats; highScore := stored; messages := [];
     lockTimeout := None; timers := []; nextTimer := 0%nat;
     softDropping := false; statsRef := createInitialStats;
     gameOverRef := false; rng := r; pendingSpawns := [] |}.

Inductive reachable (stored : Z) (r : Rng) : State → Prop :=
| reachable_init : reachable stored r (initialState stored r)
| reachable_step s e s' :
    reachable stored r s → step e s = Ok s' → reachable stored r s'.

(** ** Invariants of the reachable states *)

Definition StatsOk (st : GameStats) : Prop :=
  0 ≤ score st ∧ 0 ≤ level st ∧ 0 ≤ lines st.

(** What holds of a state during a handler. *)
Definition InvH (s : State) : Prop :=
  StatsOk (stats s) ∧ (7 ≤ length (queue s))%nat.

(** The flag [hasHeld] is down, or an updater of [spawnPiece] waits that
    will take it down. *)
Definition FlagOk (s : State) : Prop :=
  hasHeld s = false ∨ pendingSpawns s ≠ [].

(** What holds of a state between two events. *)
Definition Inv (s : State) : Prop :=
  InvH s ∧ hasHeld s = false ∧ pendingSpawns s = [].

(** [s'] keeps [InvH], its score is not below that of [s], and it keeps
    [FlagOk]. *)
Definition Mono (s s' : State) : Prop :=
  (InvH s → InvH s' ∧ score (stats s) ≤ score (stats s')) ∧
  (FlagOk s → FlagOk s').

(** What [nextType] and [replenish] leave of the state: all but the oracle. *)
Definition sameButRng (s s' : State) : Prop := ∃ r, s' = setRng r s.

(** ** Sample inputs *)

(** The oracle whose draws are all 0. *)
Definition zeroRng : Rng := fun _ => 0%nat.

(** The state after the first start of a game under [zeroRng]. *)
Definition startedState : State :=
  match step EvStart (initialState 0 zeroRng) with
  | Ok s => s
  | _ => initialState 0 zeroRng
  end.

(** [startedState] after a hard drop. *)
Definition droppedState : State :=
  match step (EvHardDrop 30) startedState with
  | Ok s => s
  | _ => startedState
  end.

(** The J piece where [spawnPiece] puts it; the active piece of
    [startedState]. *)
Definition spawnedJ : ActivePiece := mkActivePiece PieceJ 0 (mkPosition 3 0).

(** A T piece in rotation state 3 against the right wall, and
    [startedState] with it as the active piece: rotation state 0 does not
    fit there, and fits one column to the left. *)
Definition wallT : ActivePiece := mkActivePiece PieceT 3 (mkPosition 8 5).

Definition wallState : State := setActive (Some wallT) startedState.

(** An upright I piece with its top cell one row above the board. *)
Definition uprightI : ActivePiece := mkActivePiece PieceI 1 (mkPosition 3 (-1)).

(** A board with one locked cell, at row 3 of column 5: the upright I piece
    at the top of that column cannot go down. *)
Definition cappedBoard : Board :=
  <[3%nat := <[5%nat := Some (mkCell PieceO None None)]> emptyRow]> createEmptyBoard.

(** [startedState] on that board with the upright I piece active and a score
    of 500; the high score is 0. *)
Definition cappedState : State :=
  setStats (fun prev => withScore 500 prev)
    (setActive (Some uprightI) (setBoard cappedBoard startedState)).

(** A board whose bottom row is full but for the columns 3 to 6, the flat I
    piece that fills the gap, and [startedState] on that board. *)
Definition gapBoard : Board :=
  replicate 19 emptyRow ++
  [ replicate 3 (Some (mkCell PieceO None None)) ++ replicate 4 None ++
    replicate 3 (Some (mkCell PieceO None None)) ].

Definition flatI : ActivePiece := mkActivePiece PieceI 0 (mkPosition 3 18).

Definition gapState : State := setBoard gapBoard startedState.

(** [gapState] with the flat I piece active at its spawn position, above the
    gap. *)
Definition gapDropState : State :=
  setActive (Some (mkActivePiece PieceI 0 (mkPosition 3 (-1)))) gapState.

(** A board whose bottom row is full. *)
Definition bottomFullBoard : Board :=
  replicate 19 emptyRow ++ [replicate 10 (Some (mkCell PieceO None None))].

(** ** Gravity interval, ghost piece and previews *)

Definition SOFT_DROP_SPEED : Z := 40.

Definition calculateDropInterval (level : Z) : Z := Z.max 90 (900 - level * 70).

(** The interval that [dropLoop] compares the elapsed time with. *)
Definition dropInterval (s : State) : Z :=
  if softDropping s then SOFT_DROP_SPEED
  else calculateDropInterval (level (stats s)).

(** The settings, a state that is never set: [ghostPiece: true],
    [queueSize: 5]. *)
Definition settingsGhostPiece : bool := true.
Definition settingsQueueSize : nat := 5.

(** The loop [while (canPlace(ghost, { x: 0, y: 1 }))] of [ghostPiece]. *)
Fixpoint ghostLoop (fuel : nat) (b : Board) (ghost : ActivePiece) : Res ActivePiece :=
  match fuel with
  | O => OutOfFuel
  | S fuel' =>
      ok ← canPlace b ghost (mkPosition 0 1) 0;
      if ok : bool then ghostLoop fuel' b (translate 0 1 ghost) else Ok ghost
  end.

Definition ghostPiece (fuel : nat) (s : State) : Res (option ActivePiece) :=
  match active s with
  | None => Ok None
  | Some a =>
      if negb settingsGhostPiece || bool_decide (status s = gameover) then Ok None
      else ghost ← ghostLoop fuel (board s) a; Ok (Some ghost)
  end.

(** [queue.slice(0, settings.queueSize)]. *)
Definition queuePreview (s : State) : list TetrominoType :=
  take settingsQueueSize (queue s).

(** ** Well-formed states *)

(** [getRotations(piece.type)[piece.rotation]]. *)
Definition pieceMatrix (a : ActivePiece) : option Matrix :=
  jsIndex (getRotations (ptype a)) (rotation a).

(** The piece has a shape, and every occupied cell of it is inside the
    columns and above the floor. *)
Definition inBounds (a : ActivePiece) : Prop :=
  ∃ m, pieceMatrix a = Some m ∧
       ∀ yy xx : nat, shapeCell m yy xx = true →
         0 ≤ pos_x (position a) + Z.of_nat xx < BOARD_WIDTH ∧
         pos_y (position a) + Z.of_nat yy < BOARD_HEIGHT.

(** The piece has an occupied cell above row 0. *)
Definition aboveBoard (a : ActivePiece) : Prop :=
  ∃ m, pieceMatrix a = Some m ∧
       ∃ yy xx : nat, shapeCell m yy xx = true ∧
                      pos_y (position a) + Z.of_nat yy < 0.

Definition noFullRow (b : Board) : Prop :=
  Forall (fun row : Row => fullRow row = false) b.

(** The board is 20 by 10 with no full row, the active piece is inside it,
    and the boards that the pending lock timers closed over are 20 by 10. *)
Definition Safe (s : State) : Prop :=
  wellFormed (board s) ∧ noFullRow (board s) ∧
  (∀ a, active s = Some a → inBounds a) ∧
  Forall (fun t : nat * Board => wellFormed t.2) (timers s).

(** The cell of the board at row [r], column [c]. *)
Definition boardCellAt (b : Board) (r c : nat) : option (option Cell) :=
  b !! r ≫= (fun row : Row => row !! c).

(** The piece, with shape [m], has an occupied cell at row [r], column [c]
    of the board. *)
Definition coveredBy (a : ActivePiece) (m : Matrix) (r c : nat) : bool :=
  (pos_y (position a) <=? Z.of_nat r) && (pos_x (position a) <=? Z.of_nat c) &&
  shapeCell m (Z.to_nat (Z.of_nat r - pos_y (position a)))
              (Z.to_nat (Z.of_nat c - pos_x (position a))).

(** The same for the loops of the lock, entered at matrix row [y] and at
    column [k] of a matrix row. *)
Definition truthyAt (row : list Z) (i : nat) : bool :=
  match row !! i with Some v => truthy v | None => false end.

Definition rowCovers (a : ActivePiece) (row : list Z) (k c : nat) : bool :=
  (pos_x (position a) + Z.of_nat k <=? Z.of_nat c) &&
  truthyAt row (Z.to_nat (Z.of_nat c - pos_x (position a) - Z.of_nat k)).

Definition rowsCover (a : ActivePiece) (rows : Matrix) (y r c : nat) : bool :=
  (pos_y (position a) + Z.of_nat y <=? Z.of_nat r) &&
  (pos_x (position a) <=? Z.of_nat c) &&
  shapeCell rows (Z.to_nat (Z.of_nat r - pos_y (position a) - Z.of_nat y))
                 (Z.to_nat (Z.of_nat c - pos_x (position a))).

(** The lines cleared are those of the single, double, triple and
    four-line clears counted in [cleared]. *)
Definition LinesSum (st : GameStats) : Prop :=
  ∃ c1 c2 c3 c4 : Z,
    cleared st = [c1; c2; c3; c4] ∧
    0 ≤ c1 ∧ 0 ≤ c2 ∧ 0 ≤ c3 ∧ 0 ≤ c4 ∧
    lines st = c1 + 2 * c2 + 3 * c3 + 4 * c4.

(** The queue is what is left of one bag, followed by whole bags. *)
Definition BagQueue (q : list TetrominoType) : Prop :=
  ∃ (used rest : list TetrominoType) (bags : list (list TetrominoType)),
    q = rest ++ concat bags ∧
    used ++ rest ≡ₚ ALL_TETROMINOES ∧
    Forall (fun bag => bag ≡ₚ ALL_TETROMINOES) bags.

(** What holds of a state between two events, beyond [Inv]. *)
Definition Good (s : State) : Prop :=
  Safe s ∧ LinesSum (stats s) ∧ BagQueue (queue s).

(** What the statistics satisfy throughout a game. *)
Definition StatsInv (st : GameStats) : Prop :=
  0 ≤ score st ∧
  0 ≤ lines st ∧ level st = lines st / LINES_PER_LEVEL ∧
  0 ≤ combo st ≤ maxCombo st ∧
  length (cleared st) = 4%nat ∧
  jsIndex (cleared st) 3 = Some (tetrisCount st) ∧
  0 ≤ hardDrops st ∧ 0 ≤ pieces st ∧ 0 ≤ playTime st.

(** From [s] to [s'] the statistics keep [StatsInv], the messages stay at
    most four, and the high score does not go down. *)
Definition Evolves (s s' : State) : Prop :=
  (StatsInv (stats s) → StatsInv (stats s')) ∧
  ((length (messages s) ≤ 4)%nat → (length (messages s') ≤ 4)%nat) ∧
  highScore s ≤ highScore s'.

(** ** Runs *)

(** The events of a list, one after the other. *)
Fixpoint run (es : list Event) (s : State) : Res State :=
  match es with
  | [] => Ok s
  | e :: es' => s' ← step e s; run es' s'
  end.

Definition isRotate (e : Event) : bool :=
  match e with
  | EvRotate _ => true
  | _ => false
  end.

(** The row [spawnY] at which [spawnPiece] and [resetGame] put a piece. *)
Definition spawnRow (t : TetrominoType) : Z :=
  if decide (t = PieceI) then -1 else 0.

(** The active piece is in its first rotation state, at its spawn row or
    below. *)
Definition Unrotated (s : State) : Prop :=
  ∀ a, active s = Some a →
       rotation a = 0 ∧ spawnRow (ptype a) ≤ pos_y (position a).

(** [startedState] after the soft drops that take its piece to the floor
    and one more, which arms the lock timer. *)
Definition restingState : State :=
  match run (replicate 19 EvSoftDrop) startedState with
  | Ok s => s
  | _ => startedState
  end.

(** ** Oracles that give a chosen bag *)

(** The oracle whose draws are those of the list, and 0 after them. *)
Definition listRng (draws : list nat) : Rng := fun k => nth k draws 0%nat.

(** The first position of [t] in the bag. *)
Fixpoint indexOf (t : TetrominoType) (bag : list TetrominoType) : nat :=
  match bag with
  | [] => 0
  | t' :: bag' => if decide (t = t') then 0 else S (indexOf t bag')
  end.

(** The draws under which the shuffle, entered at [i] with [bag], ends in
    [target]: at each index, the position of the type that [target] has
    there. *)
Fixpoint drawsFor (i : nat) (bag target : list TetrominoType) : list nat :=
  match i with
  | O => []
  | S i' =>
      match target !! i with
      | Some t => indexOf t bag :: drawsFor i' (swap bag i (indexOf t bag)) target
      | None => []
      end
  end.

(** ** renderedBoard *)

(** The inner loop of an overlay of [renderedBoard]:
    [if (boardY >= 0 && boardY < BOARD_HEIGHT) composite[boardY][boardX] =
    cell] for the occupied entries of matrix row [yy], from column [xx]. *)
Fixpoint overlayRow (piece : ActivePiece) (cell : Cell) (yy : Z) (row : list Z)
    (xx : Z) (composite : Board) : Res Board :=
  match row with
  | [] => Ok composite
  | c :: row' =>
      if truthy c then
        let boardX := pos_x (position piece) + xx in
        let boardY := pos_y (position piece) + yy in
        if (boardY >=? 0) && (boardY <? BOARD_HEIGHT) then
          match composite !! Z.to_nat boardY with
          | None => TypeError
          | Some brow =>
              overlayRow piece cell yy row' (xx + 1)
                (<[Z.to_nat boardY := writeCell brow boardX cell]> composite)
          end
        else overlayRow piece cell yy row' (xx + 1) composite
      else overlayRow piece cell yy row' (xx + 1) composite
  end.

Fixpoint overlayRows (piece : ActivePiece) (cell : Cell) (rows : Matrix) (yy : Z)
    (composite : Board) : Res Board :=
  match rows with
  | [] => Ok composite
  | row :: rows' =>
      composite' ← overlayRow piece cell yy row 0 composite;
      overlayRows piece cell rows' (yy + 1) composite'
  end.

(** One overlay: the loops over
    [getRotations(piece.type)[piece.rotation]]. *)
Definition overlay (piece : ActivePiece) (cell : Cell) (composite : Board)
    : Res Board :=
  match jsIndex (getRotations (ptype piece)) (rotation piece) with
  | None => TypeError
  | Some matrix => overlayRows piece cell matrix 0 composite
  end.

(** [renderedBoard]: the copy of the board, the ghost piece drawn on it with
    [{ type, ghost: true }], then the active piece with [{ type }]. *)
Definition renderedBoard (fuel : nat) (s : State) : Res Board :=
  g ← ghostPiece fuel s;
  composite ← match g with
              | Some gp => overlay gp (mkCell (ptype gp) (Some true) None) (board s)
              | None => Ok (board s)
              end;
  match active s with
  | Some a => overlay a (mkCell (ptype a) None None) composite
  | None => Ok composite
  end.

(** What a cell shows once a piece has been drawn over [under]. *)
Definition drawnCell (p : option ActivePiece) (flag : option bool) (r c : nat)
    (under : option (option Cell)) : option (option Cell) :=
  match p with
  | Some a =>
      match pieceMatrix a with
      | Some m => if coveredBy a m r c then Some (Some (mkCell (ptype a) flag None))
                  else under
      | None => under
      end
  | None => under
  end.

(** ** Keys *)

Definition codeIn (code : string) (codes : list string) : bool :=
  bool_decide (code ∈ codes).

(** [handleKeyDown], without [event.preventDefault()]. *)
Definition handleKeyDown (fuel : nat) (code : string) (s : State) : Res State :=
  if bool_decide (status s = ready) && codeIn code ["Space"; "Enter"] then startGame s
  else if bool_decide (status s = gameover) && codeIn code ["Space"] then startGame s
  else if bool_decide (status s = paused) && codeIn code ["Escape"]
       then Ok (togglePause s)
  else if negb (bool_decide (status s = playing)) then Ok s
  else if codeIn code ["ArrowLeft"; "KeyA"] then movePiece DirMinus s
  else if codeIn code ["ArrowRight"; "KeyD"] then movePiece DirPlus s
  else if codeIn code ["ArrowDown"; "KeyS"]
       then dropPiece true false (setSoftDropping true s)
  else if codeIn code ["ArrowUp"; "KeyW"; "KeyX"] then rotatePiece DirPlus s
  else if codeIn code ["KeyZ"; "ShiftLeft"] then rotatePiece DirMinus s
  else if codeIn code ["Space"] then hardDrop fuel s
  else if codeIn code ["KeyC"; "ShiftRight"] then Ok (holdPiece s)
  else if codeIn code ["Escape"] then Ok (togglePause s)
  else Ok s.

(** [handleKeyUp]. *)
Definition handleKeyUp (code : string) (s : State) : State :=
  if codeIn code ["ArrowDown"; "KeyS"] then setSoftDropping false s else s.

(** A key press, then the render. *)
Definition keyStep (fuel : nat) (code : string) (s : State) : Res State :=
  s' ← handleKeyDown fuel code s; render s'.

(** ** Statistics in which no line clear is counted *)

Definition NoClears (st : GameStats) : Prop :=
  lines st = 0 ∧ level st = 0 ∧ combo st = 0 ∧ maxCombo st = 0 ∧
  cleared st = [0; 0; 0; 0] ∧ tetrisCount st = 0.

(** * Properties *)

(** ** Results *)

Lemma bind_Ok {A B : Type} (m : Res A) (f : A → Res B) (b : B) :
  m ≫= f = Ok b → ∃ a, m = Ok a ∧ f a = Ok b.
Proof. destruct m as [a| |]; simpl; [eauto | discriminate | discriminate]. Qed.

Ltac inv_bind H :=
  let a := fresh "a" in
  let Ha := fresh "Ha" in
  apply bind_Ok in H; destruct H as [a [Ha H]].

(** ** canPlace *)

Section CanPlace.
Variable b : Board.
Variable piece : ActivePiece.
Variable offset : Position.
Hypothesis rows_present : (Z.to_nat BOARD_HEIGHT ≤ length b)%nat.

Lemma occupiedAt_lookup (r c : Z) (brow : Row) :
  0 ≤ r → 0 ≤ c → b !! Z.to_nat r = Some brow →
  occupiedAt b r c = cellTruthy (brow !! Z.to_nat c).
Proof.
  intros Hr Hc Hrow. unfold occupiedAt, jsIndex.
  destruct (Z.ltb_spec r 0); [lia|]. rewrite Hrow.
  destruct (Z.ltb_spec c 0); [lia|]. reflexivity.
Qed.

Lemma canPlaceRow_spec (yy : Z) (row : list Z) :
  ∀ k : nat, ∃ res : bool,
    canPlaceRow b piece offset yy row (Z.of_nat k) = Ok res ∧
    (res = false ↔
     ∃ i c, row !! i = Some c ∧ truthy c = true ∧
            cellBlocked b piece offset yy (Z.of_nat (k + i))).
Proof.
  induction row as [|c row IH]; intros k.
  - exists true. split; [reflexivity|]. split; [discriminate|].
    intros (i & c & Hi & _). destruct i; discriminate.
  - destruct (IH (S k)) as (res & Hres & Hiff).
    assert (Hk : Z.of_nat k + 1 = Z.of_nat (S k)) by lia.
    assert (Hshift : (∃ i c0, row !! i = Some c0 ∧ truthy c0 = true ∧
                        cellBlocked b piece offset yy (Z.of_nat (S k + i))) →
                     ∃ i c0, (c :: row) !! i = Some c0 ∧ truthy c0 = true ∧
                        cellBlocked b piece offset yy (Z.of_nat (k + i))).
    { intros (i & c0 & Hi & Hc0 & Hbad). exists (S i), c0.
      repeat split; [exact Hi | exact Hc0 |].
      replace (k + S i)%nat with (S k + i)%nat by lia. exact Hbad. }
    assert (Hhead : ∀ i c0, (c :: row) !! i = Some c0 → truthy c0 = true →
              cellBlocked b piece offset yy (Z.of_nat (k + i)) →
              (i = 0%nat ∧ c0 = c) ∨
              ∃ i' c1, row !! i' = Some c1 ∧ truthy c1 = true ∧
                 cellBlocked b piece offset yy (Z.of_nat (S k + i'))).
    { intros i c0 Hi Hc0 Hbad. destruct i as [|i].
      - left. simpl in Hi. split; congruence.
      - right. exists i, c0. repeat split; [exact Hi | exact Hc0 |].
        replace (S k + i)%nat with (k + S i)%nat by lia. exact Hbad. }
    simpl. rewrite Hk.
    destruct (truthy c) eqn:Htc.
    + set (boardX := pos_x (position piece) + Z.of_nat k + pos_x offset).
      set (boardY := pos_y (position piece) + yy + pos_y offset).
      assert (Hhere : cellBlocked b piece offset yy (Z.of_nat (k + 0)) →
                      ∃ i c0, (c :: row) !! i = Some c0 ∧ truthy c0 = true ∧
                        cellBlocked b piece offset yy (Z.of_nat (k + i))).
      { intros Hbad. exists 0%nat, c. repeat split; [exact Htc | exact Hbad]. }
      assert (Hcell : cellBlocked b piece offset yy (Z.of_nat (k + 0)) ↔
                      (boardX < 0 ∨ BOARD_WIDTH ≤ boardX ∨ BOARD_HEIGHT ≤ boardY ∨
                       (0 ≤ boardY ∧ occupiedAt b boardY boardX = true))).
      { unfold cellBlocked. replace (k + 0)%nat with k by lia. reflexivity. }
      destruct (Z.ltb_spec boardX 0) as [Hx0|Hx0]; simpl.
      { exists false. split; [reflexivity|]. split; [|reflexivity].
        intros _. apply Hhere, Hcell. lia. }
      unfold Z.geb at 1.
      destruct (Z.compare_spec boardX BOARD_WIDTH) as [Hxw|Hxw|Hxw];
        try (exists false; split; [reflexivity|]; split; [|reflexivity];
             intros _; apply Hhere, Hcell; lia).
      unfold Z.geb at 1.
      destruct (Z.compare_spec boardY BOARD_HEIGHT) as [Hyh|Hyh|Hyh];
        try (exists false; split; [reflexivity|]; split; [|reflexivity];
             intros _; apply Hhere, Hcell; lia).
      unfold Z.geb at 1.
      destruct (Z.compare_spec boardY 0) as [Hy0|Hy0|Hy0].
      * (* boardY = 0 *)
        destruct (lookup_lt_is_Some_2 b (Z.to_nat boardY)) as [brow Hbrow];
          [unfold BOARD_HEIGHT in *; lia|].
        rewrite Hbrow.
        assert (Hocc := occupiedAt_lookup boardY boardX brow ltac:(lia) ltac:(lia) Hbrow).
        destruct (cellTruthy (brow !! Z.to_nat boardX)) eqn:Hct.
        { exists false. split; [reflexivity|]. split; [|reflexivity].
          intros _. apply Hhere, Hcell. right; right; right. split; [lia|exact Hocc]. }
        exists res. split; [exact Hres|]. rewrite Hiff. split; [exact Hshift|].
        intros (i & c0 & Hi & Hc0 & Hbad).
        destruct (Hhead i c0 Hi Hc0 Hbad) as [[-> ->]|Hrest]; [|exact Hrest].
        apply Hcell in Hbad. rewrite Hocc in Hbad. exfalso.
        destruct Hbad as [?|[?|[?|[_ ?]]]]; [lia|lia|lia|discriminate].
      * (* boardY < 0 *)
        exists res. split; [exact Hres|]. rewrite Hiff. split; [exact Hshift|].
        intros (i & c0 & Hi & Hc0 & Hbad).
        destruct (Hhead i c0 Hi Hc0 Hbad) as [[-> ->]|Hrest]; [|exact Hrest].
        apply Hcell in Hbad. exfalso.
        destruct Hbad as [?|[?|[?|[? _]]]]; lia.
      * (* 0 < boardY *)
        destruct (lookup_lt_is_Some_2 b (Z.to_nat boardY)) as [brow Hbrow];
          [unfold BOARD_HEIGHT in *; lia|].
        rewrite Hbrow.
        assert (Hocc := occupiedAt_lookup boardY boardX brow ltac:(lia) ltac:(lia) Hbrow).
        destruct (cellTruthy (brow !! Z.to_nat boardX)) eqn:Hct.
        { exists false. split; [reflexivity|]. split; [|reflexivity].
          intros _. apply Hhere, Hcell. right; right; right. split; [lia|exact Hocc]. }
        exists res. split; [exact Hres|]. rewrite Hiff. split; [exact Hshift|].
        intros (i & c0 & Hi & Hc0 & Hbad).
        destruct (Hhead i c0 Hi Hc0 Hbad) as [[-> ->]|Hrest]; [|exact Hrest].
        apply Hcell in Hbad. rewrite Hocc in Hbad. exfalso.
        destruct Hbad as [?|[?|[?|[_ ?]]]]; [lia|lia|lia|discriminate].
    + exists res. split; [exact Hres|]. rewrite Hiff. split; [exact Hshift|].
      intros (i & c0 & Hi & Hc0 & Hbad).
      destruct (Hhead i c0 Hi Hc0 Hbad) as [[-> ->]|Hrest]; [|exact Hrest].
      congruence.
Qed.
End CanPlace.

Lemma canPlaceRows_spec (b : Board) (piece : ActivePiece) (offset : Position)
    (rows : Matrix) :
  (Z.to_nat BOARD_HEIGHT ≤ length b)%nat →
  ∀ k : nat, ∃ res : bool,
    canPlaceRows b piece offset rows (Z.of_nat k) = Ok res ∧
    (res = false ↔
     ∃ yy xx, shapeCell rows yy xx = true ∧
              cellBlocked b piece offset (Z.of_nat (k + yy)) (Z.of_nat xx)).
Proof.
  intros Hb. induction rows as [|row rows IH]; intros k.
  - exists true. split; [reflexivity|]. split; [discriminate|].
    intros (yy & xx & Hs & _). unfold shapeCell in Hs. destruct yy; discriminate.
  - destruct (canPlaceRow_spec b piece offset Hb (Z.of_nat k) row 0%nat)
      as (r0 & Hr0 & Hiff0).
    destruct (IH (S k)) as (res & Hres & Hiff).
    simpl. change 0 with (Z.of_nat 0). rewrite Hr0. simpl.
    replace (Z.of_nat k + 1) with (Z.of_nat (S k)) by lia.
    destruct r0.
    + exists res. split; [exact Hres|]. rewrite Hiff. split.
      * intros (yy & xx & Hs & Hbad). exists (S yy), xx. split; [exact Hs|].
        replace (k + S yy)%nat with (S k + yy)%nat by lia. exact Hbad.
      * intros (yy & xx & Hs & Hbad). destruct yy as [|yy].
        -- exfalso. assert (Hf : true = false); [|discriminate].
           apply Hiff0. unfold shapeCell in Hs. simpl in Hs.
           destruct (row !! xx) as [c|] eqn:Hc; [|discriminate].
           exists xx, c. repeat split; [exact Hc | exact Hs |].
           replace (0 + xx)%nat with xx by lia.
           replace (k + 0)%nat with k in Hbad by lia. exact Hbad.
        -- exists yy, xx. split; [exact Hs|].
           replace (S k + yy)%nat with (k + S yy)%nat by lia. exact Hbad.
    + exists false. split; [reflexivity|]. split; [|reflexivity]. intros _.
      destruct Hiff0 as [Hex _]. destruct (Hex eq_refl) as (i & c & Hi & Hc & Hbad).
      exists 0%nat, i. split.
      * unfold shapeCell. simpl. rewrite Hi. exact Hc.
      * replace (k + 0)%nat with k by lia.
        replace (0 + i)%nat with i in Hbad by lia. exact Hbad.
Qed.

Lemma getRotations_nonempty (t : TetrominoType) :
  (0 < length (getRotations t))%nat.
Proof. destruct t; simpl; lia. Qed.

(** The matrix that [canPlace] tests is the entry of the rotation table at
    the index [(rotation + rotationShift) mod count]. *)
Lemma candidateMatrix_at (piece : ActivePiece) (rotationShift : Z) :
  0 ≤ rotation piece + rotationShift
      + Z.of_nat (length (getRotations (ptype piece))) →
  ∃ m,
    getRotations (ptype piece) !!
      Z.to_nat ((rotation piece + rotationShift)
                `mod` Z.of_nat (length (getRotations (ptype piece)))) = Some m ∧
    candidateMatrix piece rotationShift = Ok m.
Proof.
  intros Hidx. pose proof (getRotations_nonempty (ptype piece)) as Hlen.
  unfold candidateMatrix, jsIndex.
  set (len := Z.of_nat (length (getRotations (ptype piece)))) in *.
  assert (Hrem : Z.rem (rotation piece + rotationShift + len) len
                 = (rotation piece + rotationShift) mod len).
  { rewrite Z.rem_mod_nonneg by lia.
    replace (rotation piece + rotationShift + len)
      with (rotation piece + rotationShift + 1 * len) by lia.
    apply Z_mod_plus_full. }
  rewrite Hrem.
  assert (Hb : 0 ≤ (rotation piece + rotationShift) mod len < len)
    by (apply Z.mod_pos_bound; lia).
  destruct (Z.ltb_spec ((rotation piece + rotationShift) mod len) 0); [lia|].
  destruct (lookup_lt_is_Some_2 (getRotations (ptype piece))
              (Z.to_nat ((rotation piece + rotationShift) mod len)))
    as [m Hm]; [unfold len in *; lia|].
  exists m. rewrite Hm. split; reflexivity.
Qed.

(** C1.  On a board that has its 20 rows, for a rotation shift that does not
    take the index below the table ([rotation + rotationShift + count >= 0],
    as for every shift -1, 0 or 1 of a piece of the game), [canPlace] tests
    the shape matrix [m] of the candidate rotation, the table entry at
    [(rotation + rotationShift) mod count].  It returns, and it returns
    [false] exactly when some occupied cell of [m], at the position moved by
    the offset, lands in a column outside [0, 10), in a row [>= 20], or on a
    locked cell of a row [>= 0].  Cells in negative rows never block: a
    placement all of whose cells are inside the columns and are either above
    the board or on a free cell above the floor is accepted. *)
Theorem canPlace_false_iff_blocked (b : Board) (piece : ActivePiece)
    (offset : Position) (rotationShift : Z) :
  (Z.to_nat BOARD_HEIGHT ≤ length b)%nat →
  0 ≤ rotation piece + rotationShift
      + Z.of_nat (length (getRotations (ptype piece))) →
  ∃ (m : Matrix) (res : bool),
    getRotations (ptype piece) !!
      Z.to_nat ((rotation piece + rotationShift)
                `mod` Z.of_nat (length (getRotations (ptype piece)))) = Some m ∧
    canPlace b piece offset rotationShift = Ok res ∧
    (res = false ↔ blocked b piece offset m) ∧
    ((∀ yy xx : nat, shapeCell m yy xx = true →
        let boardX := pos_x (position piece) + Z.of_nat xx + pos_x offset in
        let boardY := pos_y (position piece) + Z.of_nat yy + pos_y offset in
        0 ≤ boardX < BOARD_WIDTH ∧
        (boardY < 0 ∨ (boardY < BOARD_HEIGHT ∧ occupiedAt b boardY boardX = false))) →
     res = true).
Proof.
  intros Hb Hidx.
  destruct (candidateMatrix_at piece rotationShift Hidx) as (m & Hentry & Hm).
  destruct (canPlaceRows_spec b piece offset m Hb 0%nat) as (res & Hres & Hiff).
  exists m, res. split; [exact Hentry|].
  unfold canPlace. rewrite Hm. simpl. split; [exact Hres|].
  assert (Hblk : res = false ↔ blocked b piece offset m).
  { rewrite Hiff. unfold blocked. split; intros (yy & xx & Hs & Hbad);
      exists yy, xx; (split; [exact Hs | exact Hbad]). }
  split; [exact Hblk|].
  intros Hfree. destruct res; [reflexivity|]. exfalso.
  destruct Hblk as [Hex _]. destruct (Hex eq_refl) as (yy & xx & Hs & Hbad).
  specialize (Hfree yy xx Hs). simpl in Hfree. unfold cellBlocked in Hbad.
  destruct Hfree as [Hcol Hrow].
  destruct Hbad as [?|[?|[?|[Hy Hocc]]]]; [lia|lia| |].
  - destruct Hrow as [?|[? _]]; unfold BOARD_HEIGHT in *; lia.
  - destruct Hrow as [?|[_ Hf]]; [lia|]. rewrite Hf in Hocc. discriminate.
Qed.

(** ** finalizeLock: top-out *)

Lemma lockRow_above (piece : ActivePiece) (yy : Z) (row : list Z) (next : Board) :
  pos_y (position piece) + yy < 0 →
  ∀ xx, lockRow piece yy row xx next =
        Ok (if existsb truthy row then None else Some next).
Proof.
  intros Hy. induction row as [|c row IH]; intros xx; [reflexivity|].
  simpl. destruct (truthy c); simpl.
  - destruct (Z.ltb_spec (pos_y (position piece) + yy) 0); [reflexivity | lia].
  - apply IH.
Qed.

Lemma shapeCell_existsb (row : list Z) (rows : Matrix) (xx : nat) :
  shapeCell (row :: rows) 0 xx = true → existsb truthy row = true.
Proof.
  unfold shapeCell. simpl. destruct (row !! xx) as [c|] eqn:Hc; [|discriminate].
  intros Ht. apply existsb_exists. exists c. split; [|exact Ht].
  apply list_elem_of_In. eapply list_elem_of_lookup_2. exact Hc.
Qed.

Lemma lockRows_above (piece : ActivePiece) (rows : Matrix) (next : Board) :
  ∀ k : nat,
    (∃ yy xx : nat, shapeCell rows yy xx = true ∧
                    pos_y (position piece) + Z.of_nat (k + yy) < 0) →
    lockRows piece rows (Z.of_nat k) next = Ok None.
Proof.
  induction rows as [|row rows IH]; intros k (yy & xx & Hs & Hneg).
  - unfold shapeCell in Hs. destruct yy; discriminate.
  - simpl. rewrite lockRow_above by lia.
    destruct (existsb truthy row) eqn:Hrow; simpl; [reflexivity|].
    replace (Z.of_nat k + 1) with (Z.of_nat (S k)) by lia.
    apply IH. destruct yy as [|yy].
    + apply shapeCell_existsb in Hs. congruence.
    + exists yy, xx. split; [exact Hs|]. lia.
Qed.

(** [finalizeLock] when the updater returns: the board of the updater, no
    active piece, the combo at 0, the timer reference cleared and a spawn
    asked for.  The lines cleared and the top-out that the updater finds
    change nothing else. *)
Lemma finalizeLock_eq (piece : ActivePiece) (s : State) :
  finalizeLock piece s =
  ('(b, _, _) ← lockBoard piece (board s);
   Ok (spawnPiece None
         (setLockTimeout None
            (setStats resetCombo (setActive None (setBoard b s)))))).
Proof.
  unfold finalizeLock.
  destruct (lockBoard piece (board s)) as [[[b k] over]| |]; reflexivity.
Qed.

(** C2.  Whatever the board, for a piece that has an occupied cell in a row
    [< 0] the updater of [finalizeLock] stops at the first occupied cell,
    flags the top-out and returns the board as it was: no cell is written
    and no line is cleared.  But [finalizeLock] has read
    [triggeredGameOver] before: it does not set the status to [gameover].
    The status and the high score stay, the combo is reset, and the next
    piece is asked for as after any lock. *)
Theorem finalizeLock_topout_keeps_status (s : State) (piece : ActivePiece)
    (m : Matrix) :
  jsIndex (getRotations (ptype piece)) (rotation piece) = Some m →
  (∃ yy xx : nat, shapeCell m yy xx = true ∧
                  pos_y (position piece) + Z.of_nat yy < 0) →
  lockBoard piece (board s) = Ok (board s, 0, true) ∧
  ∃ s', finalizeLock piece s = Ok s' ∧
        board s' = board s ∧
        status s' = status s ∧
        gameOverRef s' = gameOverRef s ∧
        highScore s' = highScore s ∧
        messages s' = messages s ∧
        active s' = None ∧
        pendingSpawns s' = pendingSpawns s ++ [None].
Proof.
  intros Hm (yy & xx & Hs & Hneg).
  assert (Hlock : lockRows piece m 0 (board s) = Ok None).
  { apply (lockRows_above piece m (board s) 0%nat).
    exists yy, xx. split; [exact Hs | simpl; lia]. }
  assert (Hboard : lockBoard piece (board s) = Ok (board s, 0, true)).
  { unfold lockBoard. rewrite Hm, Hlock. reflexivity. }
  split; [exact Hboard|].
  rewrite finalizeLock_eq, Hboard. simpl.
  eexists. split; [reflexivity|]. repeat split; reflexivity.
Qed.

(** ** clearLines *)

Lemma hasEmptyCell_fullRow (row : Row) : hasEmptyCell row = negb (fullRow row).
Proof.
  unfold hasEmptyCell, fullRow. induction row as [|c row IH]; [reflexivity|].
  simpl. rewrite IH. destruct (bool_decide (is_Some c)); reflexivity.
Qed.

Lemma filter_hasEmptyCell (b : Board) :
  List.filter hasEmptyCell b = List.filter (fun row => negb (fullRow row)) b.
Proof.
  induction b as [|row b IH]; [reflexivity|].
  simpl. rewrite IH, hasEmptyCell_fullRow. reflexivity.
Qed.

Lemma filter_split_length {A : Type} (f : A → bool) (l : list A) :
  (length (List.filter f l) + length (List.filter (fun a => negb (f a)) l) = length l)%nat.
Proof.
  induction l as [|a l IH]; [reflexivity|].
  simpl. destruct (f a); simpl; lia.
Qed.

Lemma filter_all {A : Type} (f : A → bool) (l : list A) :
  length (List.filter f l) = length l → List.filter f l = l.
Proof.
  induction l as [|a l IH]; [reflexivity|].
  simpl. destruct (f a); simpl; intros Hlen.
  - f_equal. apply IH. lia.
  - pose proof (List.filter_length_le f l). lia.
Qed.

Lemma Forall_filter_keep {A : Type} (P : A → Prop) (f : A → bool) (l : list A) :
  Forall P l → Forall P (List.filter f l).
Proof.
  induction 1 as [|a l Ha Hl IH]; simpl; [constructor|].
  destruct (f a); [constructor; assumption | assumption].
Qed.

(** C3.  On a board of 20 rows of 10 columns [clearLines] counts the rows
    that have no empty cell, returns that many empty rows followed by the
    other rows in their order, and the result is again 20 rows of 10
    columns. *)
Theorem clearLines_compacts (b : Board) :
  wellFormed b →
  let '(next, clearedLines) := clearLines b in
  clearedLines = Z.of_nat (length (List.filter fullRow b)) ∧
  next = replicate (length (List.filter fullRow b)) emptyRow ++
         List.filter (fun row => negb (fullRow row)) b ∧
  wellFormed next.
Proof.
  intros [Hlen Hrows]. unfold clearLines.
  rewrite filter_hasEmptyCell.
  pose proof (filter_split_length fullRow b) as Hsplit.
  set (kept := List.filter (fun row => negb (fullRow row)) b) in *.
  set (full := List.filter fullRow b) in *.
  assert (Hk : BOARD_HEIGHT - Z.of_nat (length kept) = Z.of_nat (length full)).
  { unfold BOARD_HEIGHT in *. lia. }
  rewrite Hk.
  destruct (Z.eqb_spec (Z.of_nat (length full)) 0) as [H0|H0].
  - assert (Hfull : length full = 0%nat) by lia.
    rewrite Hfull. simpl. split; [reflexivity|].
    assert (Hkept : kept = b).
    { apply filter_all. fold kept. lia. }
    rewrite Hkept. split; [reflexivity|]. split; assumption.
  - rewrite Nat2Z.id. split; [reflexivity|]. split; [reflexivity|]. split.
    + rewrite length_app, length_replicate. lia.
    + apply Forall_app. split.
      * apply Forall_replicate. unfold emptyRow. apply length_replicate.
      * apply Forall_filter_keep. exact Hrows.
Qed.

(** ** updateForClear *)

Lemma linePoints_specBase (k : Z) : 1 ≤ k → linePoints k = specBase k.
Proof.
  intros Hk. unfold linePoints, specBase, jsIndex.
  destruct (Z.ltb_spec k 0); [lia|].
  destruct (Z.eqb_spec k 1) as [->|]; [reflexivity|].
  destruct (Z.eqb_spec k 2) as [->|]; [reflexivity|].
  destruct (Z.eqb_spec k 3) as [->|]; [reflexivity|].
  destruct (Z.eqb_spec k 4) as [->|]; [reflexivity|].
  rewrite lookup_ge_None_2; [reflexivity|]. simpl. lia.
Qed.

Lemma stats_updateForClear (k : Z) (s : State) :
  stats (updateForClear k s) = updateStatsForClear k (stats s).
Proof.
  unfold updateForClear, updateStatsForClear. destruct (k =? 0); reflexivity.
Qed.

(** The arithmetic of [updateForClear]: for [k >= 1], [updateForClear(k)]
    adds [base(k) * (level + 1) +
    comboBonus * (level + 1)] to the score, with the level of before the
    clear, [base] the table 100/300/500/800 and [k * 200] from 5 lines on,
    and [comboBonus = (comboStreak - 1) * 50] for the new streak when it is
    above 1 (the streak before was at least 1) and 0 otherwise; at level 0
    with no streak 1/2/3/4 lines give 100/300/500/800.  The level becomes
    the floor of the total of lines by 10, and four lines add one to the
    tetris counter.  [updateForClear(0)] sets the streak to 0 and keeps the
    score. *)
Lemma updateForClear_scoring (s : State) (k : Z) :
  1 ≤ k →
  let before := stats s in
  let after := stats (updateForClear k s) in
  (combo after = combo before + 1 ∧
   score after = score before + specBase k * (level before + 1)
                 + specComboBonus (combo after) * (level before + 1) ∧
   (1 ≤ combo before → specComboBonus (combo after) = combo before * 50) ∧
   (combo before ≤ 0 → specComboBonus (combo after) = 0) ∧
   lines after = lines before + k ∧
   level after = lines after / 10 ∧
   tetrisCount after = (if k =? 4 then tetrisCount before + 1 else tetrisCount before)) ∧
  (level before = 0 → combo before = 0 →
   (k = 1 → score after = score before + 100) ∧
   (k = 2 → score after = score before + 300) ∧
   (k = 3 → score after = score before + 500) ∧
   (k = 4 → score after = score before + 800)) ∧
  (combo (stats (updateForClear 0 s)) = 0 ∧
   score (stats (updateForClear 0 s)) = score before).
Proof.
  intros Hk. cbv zeta. rewrite !stats_updateForClear.
  unfold updateStatsForClear.
  destruct (Z.eqb_spec k 0) as [?|_]; [lia|]. simpl.
  rewrite (linePoints_specBase k Hk).
  unfold specComboBonus, COMBO_BONUS, LINES_PER_LEVEL.
  split; [|split].
  - split; [reflexivity|].
    split.
    { destruct (Z.gtb_spec (combo (stats s) + 1) 1);
        destruct (Z.ltb_spec 1 (combo (stats s) + 1)); (reflexivity || lia). }
    split.
    { intros Hc. destruct (Z.ltb_spec 1 (combo (stats s) + 1)); lia. }
    split.
    { intros Hc. destruct (Z.ltb_spec 1 (combo (stats s) + 1)); lia. }
    repeat split; reflexivity.
  - intros Hl Hc. rewrite Hl, Hc. simpl.
    repeat split; intros ->; unfold specBase; simpl; lia.
  - split; reflexivity.
Qed.

Lemma specBase_pos (k : Z) : 1 ≤ k → 100 ≤ specBase k.
Proof.
  intros Hk. unfold specBase.
  destruct (Z.eqb_spec k 1); [lia|]. destruct (Z.eqb_spec k 2); [lia|].
  destruct (Z.eqb_spec k 3); [lia|]. destruct (Z.eqb_spec k 4); lia.
Qed.

(** C4.  A lock whose updater clears [k >= 1] lines takes the lines off the
    board, but awards nothing for them: [finalizeLock] has read
    [linesCleared] before the updater ran, so it does not call
    [updateForClear] and only resets the combo.  The score, the lines, the
    level, the counters of [cleared] and the tetris counter stay as they
    were, and no message is logged.  The award
    [base(k) * (level + 1) + comboBonus * (level + 1)] that
    [updateForClear(k)] computes is missing from the score. *)
Theorem finalizeLock_clear_awards_nothing (s : State) (piece : ActivePiece)
    (b : Board) (k : Z) :
  lockBoard piece (board s) = Ok (b, k, false) → 1 ≤ k →
  ∃ s', finalizeLock piece s = Ok s' ∧
        board s' = b ∧
        score (stats s') = score (stats s) ∧
        lines (stats s') = lines (stats s) ∧
        level (stats s') = level (stats s) ∧
        cleared (stats s') = cleared (stats s) ∧
        tetrisCount (stats s') = tetrisCount (stats s) ∧
        combo (stats s') = 0 ∧
        messages s' = messages s ∧
        (0 ≤ level (stats s) → 0 ≤ combo (stats s) →
         score (stats (updateForClear k s)) =
           score (stats s) + specBase k * (level (stats s) + 1)
           + specComboBonus (combo (stats s) + 1) * (level (stats s) + 1) ∧
         score (stats s') + 100 ≤ score (stats (updateForClear k s))).
Proof.
  intros Hlock Hk. rewrite finalizeLock_eq, Hlock. simpl.
  eexists. split; [reflexivity|]. simpl.
  do 8 (split; [reflexivity|]).
  intros Hlev Hcombo.
  assert (Hsc : score (stats (updateForClear k s)) =
                score (stats s) + specBase k * (level (stats s) + 1)
                + specComboBonus (combo (stats s) + 1) * (level (stats s) + 1)).
  { rewrite stats_updateForClear. unfold updateStatsForClear.
    destruct (Z.eqb_spec k 0) as [?|_]; [lia|]. simpl.
    rewrite (linePoints_specBase k Hk). unfold specComboBonus, COMBO_BONUS.
    destruct (Z.gtb_spec (combo (stats s) + 1) 1);
      destruct (Z.ltb_spec 1 (combo (stats s) + 1)); (reflexivity || lia). }
  split; [exact Hsc|]. rewrite Hsc.
  pose proof (specBase_pos k Hk) as Hbase.
  assert (Hbonus : 0 ≤ specComboBonus (combo (stats s) + 1)).
  { unfold specComboBonus. destruct (Z.ltb_spec 1 (combo (stats s) + 1)); lia. }
  nia.
Qed.

(** ** rotatePiece *)

Lemma tryKicks_first (a : ActivePiece) (dir : Direction) (nextRotation : Z)
    (s : State) (kick : Position) (post : list Position) :
  ∀ pre : list Position,
    Forall (fun k => canPlace (board s) a k (dirZ dir) = Ok false) pre →
    canPlace (board s) a kick (dirZ dir) = Ok true →
    tryKicks a dir nextRotation (pre ++ kick :: post) s =
    Ok (cancelLockTimeout (setActive (rotated nextRotation kick <$> active s) s)).
Proof.
  induction pre as [|k pre IH]; intros Hpre Hkick; simpl.
  - rewrite Hkick. reflexivity.
  - inversion Hpre as [|? ? Hk Hpre']; subst. rewrite Hk. simpl.
    apply IH; assumption.
Qed.

Lemma tryKicks_none (a : ActivePiece) (dir : Direction) (nextRotation : Z)
    (s : State) (ks : list Position) :
  Forall (fun k => canPlace (board s) a k (dirZ dir) = Ok false) ks →
  tryKicks a dir nextRotation ks s = Ok s.
Proof.
  induction 1 as [|k ks Hk _ IH]; simpl; [reflexivity|].
  rewrite Hk. simpl. exact IH.
Qed.

Lemma nextRotation_mod (r d len : Z) :
  0 ≤ r < len → -1 ≤ d → Z.rem (r + d + len) len = (r + d) mod len.
Proof.
  intros Hr Hd. rewrite Z.rem_mod_nonneg by lia.
  replace (r + d + len) with (r + d + 1 * len) by lia.
  apply Z_mod_plus_full.
Qed.

(** C5.  [rotatePiece(dir)] tries the kicks (0,0), (-1,0), (1,0), (0,-1),
    (0,1) in that order: when [canPlace] fails at the kicks before [kick]
    and holds at [kick], the active piece gets the rotation index
    [(rotation + dir) mod count] and its position moved by [kick]; when
    [canPlace] fails at all five, the state is unchanged. *)
Theorem rotatePiece_first_kick (s : State) (a : ActivePiece) (dir : Direction) :
  status s = playing →
  active s = Some a →
  0 ≤ rotation a < Z.of_nat (length (getRotations (ptype a))) →
  kicks = [ mkPosition 0 0; mkPosition (-1) 0; mkPosition 1 0;
            mkPosition 0 (-1); mkPosition 0 1 ] ∧
  (∀ pre kick post,
     kicks = pre ++ kick :: post →
     Forall (fun k => canPlace (board s) a k (dirZ dir) = Ok false) pre →
     canPlace (board s) a kick (dirZ dir) = Ok true →
     rotatePiece dir s =
     Ok (cancelLockTimeout
           (setActive
              (Some (mkActivePiece (ptype a)
                       ((rotation a + dirZ dir)
                          `mod` Z.of_nat (length (getRotations (ptype a))))
                       (mkPosition (pos_x (position a) + pos_x kick)
                                   (pos_y (position a) + pos_y kick))))
              s))) ∧
  (Forall (fun k => canPlace (board s) a k (dirZ dir) = Ok false) kicks →
   rotatePiece dir s = Ok s).
Proof.
  intros Hst Hact Hrot. split; [reflexivity|].
  unfold rotatePiece. rewrite Hact.
  destruct (decide (status s = playing)) as [_|Hn]; [|contradiction].
  split.
  - intros pre kick post Hk Hpre Hkick. rewrite Hk.
    rewrite (tryKicks_first a dir _ s kick post pre Hpre Hkick).
    rewrite Hact. simpl. unfold rotated.
    rewrite nextRotation_mod by (destruct dir; simpl; lia).
    reflexivity.
  - intros Hall. apply tryKicks_none. exact Hall.
Qed.

(** ** generateBag *)

Lemma insert_head_perm {A : Type} (x y : A) (l : list A) :
  ∀ j : nat, l !! j = Some y → x :: l ≡ₚ y :: <[j := x]> l.
Proof.
  induction l as [|z l IH]; intros j Hj; [destruct j; discriminate|].
  destruct j as [|j]; simpl in *.
  - injection Hj as ->. apply perm_swap.
  - rewrite (perm_swap z x l). rewrite (IH j Hj). apply perm_swap.
Qed.

Lemma swap_insert_perm {A : Type} (l : list A) :
  ∀ (i j : nat) (a c : A),
    l !! i = Some a → l !! j = Some c →
    <[j := a]> (<[i := c]> l) ≡ₚ l.
Proof.
  induction l as [|z l IH]; intros i j a c Hi Hj; [destruct i; discriminate|].
  destruct i as [|i], j as [|j]; simpl in *.
  - injection Hi as ->. injection Hj as ->. reflexivity.
  - injection Hi as ->. symmetry. apply insert_head_perm. exact Hj.
  - injection Hj as ->. symmetry. apply insert_head_perm. exact Hi.
  - f_equiv. apply (IH i j a c Hi Hj).
Qed.

Lemma swap_perm (bag : list TetrominoType) (i j : nat) : swap bag i j ≡ₚ bag.
Proof.
  unfold swap. destruct (bag !! i) as [a|] eqn:Hi; [|reflexivity].
  destruct (bag !! j) as [c|] eqn:Hj; [|reflexivity].
  apply (swap_insert_perm bag i j a c Hi Hj).
Qed.

Lemma shuffleFrom_perm (i : nat) :
  ∀ (bag : list TetrominoType) (r : Rng), (shuffleFrom i bag r).1 ≡ₚ bag.
Proof.
  induction i as [|i IH]; intros bag r; simpl; [reflexivity|].
  rewrite IH. apply swap_perm.
Qed.

Lemma generateBag_perm (r : Rng) : (generateBag r).1 ≡ₚ ALL_TETROMINOES.
Proof. unfold generateBag. apply shuffleFrom_perm. Qed.

Lemma generateBag_length (r : Rng) : length (generateBag r).1 = 7%nat.
Proof. rewrite (Permutation_length (generateBag_perm r)). reflexivity. Qed.

(** C8.  For every outcome of the random choices the bag that
    [generateBag] returns has 7 entries and is a permutation of the seven
    piece types: no type repeats and each type occurs once. *)
Theorem generateBag_is_permutation (r : Rng) :
  let bag := (generateBag r).1 in
  length bag = 7%nat ∧
  bag ≡ₚ [PieceI; PieceJ; PieceL; PieceO; PieceS; PieceT; PieceZ] ∧
  NoDup bag ∧
  ∀ t : TetrominoType, count_occ TetrominoType_eq_dec bag t = 1%nat.
Proof.
  cbv zeta. pose proof (generateBag_perm r) as Hperm.
  split; [apply generateBag_length|].
  split; [exact Hperm|].
  split.
  - rewrite Hperm. unfold ALL_TETROMINOES.
    apply (bool_decide_unpack _). vm_compute. exact I.
  - intros t. rewrite (proj1 (Permutation_count_occ TetrominoType_eq_dec _ _) Hperm t).
    destruct t; reflexivity.
Qed.

(** ** hardDrop *)

Lemma canPlaceRow_ext (b : Board) (p1 p2 : ActivePiece) (o1 o2 : Position)
    (yy : Z) (row : list Z) :
  pos_x (position p1) + pos_x o1 = pos_x (position p2) + pos_x o2 →
  pos_y (position p1) + pos_y o1 = pos_y (position p2) + pos_y o2 →
  ∀ xx, canPlaceRow b p1 o1 yy row xx = canPlaceRow b p2 o2 yy row xx.
Proof.
  intros Hx Hy. induction row as [|c row IH]; intros xx; [reflexivity|].
  simpl. rewrite IH.
  replace (pos_x (position p1) + xx + pos_x o1)
    with (pos_x (position p2) + xx + pos_x o2) by lia.
  replace (pos_y (position p1) + yy + pos_y o1)
    with (pos_y (position p2) + yy + pos_y o2) by lia.
  reflexivity.
Qed.

Lemma canPlaceRows_ext (b : Board) (p1 p2 : ActivePiece) (o1 o2 : Position)
    (rows : Matrix) :
  pos_x (position p1) + pos_x o1 = pos_x (position p2) + pos_x o2 →
  pos_y (position p1) + pos_y o1 = pos_y (position p2) + pos_y o2 →
  ∀ yy, canPlaceRows b p1 o1 rows yy = canPlaceRows b p2 o2 rows yy.
Proof.
  intros Hx Hy. induction rows as [|row rows IH]; intros yy; [reflexivity|].
  simpl. rewrite (canPlaceRow_ext b p1 p2 o1 o2 yy row Hx Hy), IH. reflexivity.
Qed.

(** A descent of one row from the piece moved down [j] rows is a descent of
    [j + 1] rows from the piece. *)
Lemma canPlace_translate (b : Board) (a : ActivePiece) (j : Z) :
  canPlace b (translate 0 j a) (mkPosition 0 1) 0 =
  canPlace b a (mkPosition 0 (j + 1)) 0.
Proof.
  unfold canPlace, candidateMatrix. simpl.
  destruct (jsIndex _ _) as [m|]; simpl; [|reflexivity].
  apply canPlaceRows_ext; simpl; lia.
Qed.

Lemma translate_translate (a : ActivePiece) (j : Z) :
  translate 0 1 (translate 0 j a) = translate 0 (j + 1) a.
Proof. unfold translate. simpl. f_equal. f_equal; lia. Qed.

Lemma translate_zero (a : ActivePiece) : translate 0 0 a = a.
Proof.
  destruct a as [t r [px py]]. unfold translate. simpl.
  f_equal. f_equal; lia.
Qed.

Lemma hasCell_shapeCell (m : Matrix) :
  hasCell m = true → ∃ yy xx : nat, shapeCell m yy xx = true.
Proof.
  unfold hasCell. intros H. apply existsb_exists in H as (row & Hrow & H).
  apply existsb_exists in H as (c & Hc & Ht).
  apply list_elem_of_In, list_elem_of_lookup_1 in Hrow as [yy Hyy].
  apply list_elem_of_In, list_elem_of_lookup_1 in Hc as [xx Hxx].
  exists yy, xx. unfold shapeCell. rewrite Hyy, Hxx. exact Ht.
Qed.

(** Every rotation state of the table exists and has an occupied cell. *)
Lemma table_shape (a : ActivePiece) :
  0 ≤ rotation a < Z.of_nat (length (getRotations (ptype a))) →
  ∃ m, candidateMatrix a 0 = Ok m ∧
       jsIndex (getRotations (ptype a)) (rotation a) = Some m ∧
       hasCell m = true.
Proof.
  destruct a as [t r pos]. simpl. intros Hr.
  unfold candidateMatrix. simpl.
  rewrite Z.add_0_r.
  rewrite Z.rem_mod_nonneg by lia.
  replace (r + Z.of_nat (length (getRotations t)))
    with (r + 1 * Z.of_nat (length (getRotations t))) by lia.
  rewrite Z_mod_plus_full, Z.mod_small by lia.
  destruct t; simpl in Hr;
    (assert (Hcases : r = 0 ∨ r = 1 ∨ r = 2 ∨ r = 3) by lia;
     destruct Hcases as [-> | [-> | [-> | ->]]]; try lia;
     (eexists; split; [reflexivity|]; split; reflexivity)).
Qed.

Section Descend.
Variable b : Board.
Variable a : ActivePiece.
Variable m : Matrix.
Variables yy0 xx0 : nat.
Hypothesis rows_present : (Z.to_nat BOARD_HEIGHT ≤ length b)%nat.
Hypothesis shape : candidateMatrix a 0 = Ok m.
Hypothesis cell : shapeCell m yy0 xx0 = true.

Lemma canPlace_Ok (k : Z) : ∃ res, canPlace b a (mkPosition 0 k) 0 = Ok res.
Proof.
  destruct (canPlaceRows_spec b a (mkPosition 0 k) m rows_present 0%nat)
    as (res & Hres & _).
  exists res. unfold canPlace. rewrite shape. exact Hres.
Qed.

Lemma canPlace_floor (k : Z) :
  BOARD_HEIGHT ≤ pos_y (position a) + Z.of_nat yy0 + k →
  canPlace b a (mkPosition 0 k) 0 = Ok false.
Proof.
  intros Hfloor.
  destruct (canPlaceRows_spec b a (mkPosition 0 k) m rows_present 0%nat)
    as (res & Hres & Hiff).
  unfold canPlace. rewrite shape. simpl.
  change (Z.of_nat 0) with 0 in Hres. rewrite Hres. f_equal. apply Hiff.
  exists yy0, xx0. split; [exact cell|].
  unfold cellBlocked. simpl. right; right; left. exact Hfloor.
Qed.

(** The loop stops within [n] steps once [n] further rows reach the
    floor, and enough fuel gives its result. *)
Lemma descend_total :
  ∀ (n j : nat),
    BOARD_HEIGHT ≤ pos_y (position a) + Z.of_nat yy0 + Z.of_nat j + 1 + Z.of_nat n →
    ∃ d : nat,
      (d ≤ n)%nat ∧
      (∀ k, Z.of_nat j < k ≤ Z.of_nat (j + d) →
            canPlace b a (mkPosition 0 k) 0 = Ok true) ∧
      canPlace b a (mkPosition 0 (Z.of_nat (j + d) + 1)) 0 = Ok false ∧
      ∀ (fuel : nat) (distance : Z),
        (d < fuel)%nat →
        descend fuel b (translate 0 (Z.of_nat j) a) distance =
        Ok (translate 0 (Z.of_nat (j + d)) a, distance + Z.of_nat d).
Proof.
  induction n as [|n IH]; intros j Hn.
  - exists 0%nat. split; [lia|]. split; [intros k Hk; lia|].
    assert (Hstop : canPlace b a (mkPosition 0 (Z.of_nat (j + 0) + 1)) 0 = Ok false).
    { apply canPlace_floor. lia. }
    split; [exact Hstop|].
    intros fuel distance Hfuel. destruct fuel as [|fuel]; [lia|].
    simpl. rewrite canPlace_translate.
    replace (Z.of_nat j + 1) with (Z.of_nat (j + 0) + 1) by lia.
    rewrite Hstop. simpl. do 2 f_equal; [f_equal|]; lia.
  - destruct (canPlace_Ok (Z.of_nat j + 1)) as ([|] & Hres).
    + destruct (IH (S j)) as (d & Hd & Hbefore & Hstop & Hrun); [lia|].
      exists (S d). split; [lia|]. split; [|split].
      * intros k Hk. destruct (Z.eq_dec k (Z.of_nat j + 1)) as [->|Hne];
          [exact Hres|]. apply Hbefore. lia.
      * replace (j + S d)%nat with (S j + d)%nat by lia. exact Hstop.
      * intros fuel distance Hfuel. destruct fuel as [|fuel]; [lia|].
        simpl. rewrite canPlace_translate, Hres. simpl.
        rewrite translate_translate.
        replace (Z.of_nat j + 1) with (Z.of_nat (S j)) by lia.
        rewrite Hrun by lia. do 2 f_equal; [f_equal|]; lia.
    + exists 0%nat. split; [lia|]. split; [intros k Hk; lia|].
      replace (Z.of_nat (j + 0) + 1) with (Z.of_nat j + 1) by lia.
      split; [exact Hres|].
      intros fuel distance Hfuel. destruct fuel as [|fuel]; [lia|].
      simpl. rewrite canPlace_translate, Hres. simpl.
      do 2 f_equal; [f_equal|]; lia.
Qed.
End Descend.

(** ** spawnPiece *)

Lemma drawBag_spec (s : State) :
  ∃ bag r, drawBag s = (bag, setRng r s) ∧ length bag = 7%nat.
Proof.
  unfold drawBag. pose proof (generateBag_length (rng s)) as Hlen.
  destruct (generateBag (rng s)) as [bag r]. exists bag, r.
  split; [reflexivity | exact Hlen].
Qed.

Lemma spawnAt_spec (t : TetrominoType) :
  ∃ p, spawnAt t = Ok p ∧ ptype p = t ∧ rotation p = 0.
Proof. destruct t; eexists; (split; [reflexivity|]); split; reflexivity. Qed.

Lemma sameButRng_refl (s : State) : sameButRng s s.
Proof. exists (rng s). destruct s; reflexivity. Qed.

Lemma nextType_spec (forcedType : option TetrominoType) (s : State) :
  ∃ t q s1,
    nextType forcedType (queue s) s = Ok (t, q, s1) ∧
    spawnedType forcedType s = Some t ∧
    sameButRng s s1 ∧
    (length (queue s) ≤ S (length q))%nat.
Proof.
  unfold nextType, spawnedType.
  destruct forcedType as [t|]; [|destruct (queue s) as [|t rest] eqn:Hq].
  - exists t, (queue s), s. repeat split; [apply sameButRng_refl | lia].
  - unfold drawBag. pose proof (generateBag_length (rng s)) as Hlen.
    destruct (generateBag (rng s)) as [bag r]. simpl in *.
    destruct bag as [|t bag]; [discriminate|].
    exists t, [], (setRng r s). repeat split; [eexists; reflexivity | simpl; lia].
  - exists t, rest, s. repeat split; [apply sameButRng_refl | simpl; lia].
Qed.

Lemma replenish_spec (q : list TetrominoType) (s : State) :
  ∃ q' s1,
    replenish q s = (q', s1) ∧ sameButRng s s1 ∧
    (7 ≤ length q')%nat ∧ (length q ≤ length q')%nat.
Proof.
  unfold replenish. destruct (Nat.ltb_spec (length q) 7).
  - destruct (drawBag_spec s) as (bag & r & Hbag & Hlen). rewrite Hbag.
    exists (q ++ bag), (setRng r s).
    rewrite length_app. repeat split; [eexists; reflexivity | lia | lia].
  - exists q, s. repeat split; [apply sameButRng_refl | lia | lia].
Qed.

(** The updater of [spawnPiece] always returns: a piece of the spawned type
    in rotation state 0 is active, [hasHeld] is down, one piece more is
    counted, and the queue has lost at most one entry and has at least 7. *)
Lemma spawnUpdater_spec (forcedType : option TetrominoType) (s : State) :
  ∃ s' p,
    spawnUpdater forcedType s = Ok s' ∧
    active s' = Some p ∧ spawnedType forcedType s = Some (ptype p) ∧
    rotation p = 0 ∧
    hasHeld s' = false ∧
    stats s' = withPieces (pieces (stats s) + 1) (stats s) ∧
    (7 ≤ length (queue s'))%nat ∧
    (length (queue s) ≤ S (length (queue s')))%nat ∧
    board s' = board s ∧ hold s' = hold s ∧ status s' = status s ∧
    pendingSpawns s' = pendingSpawns s.
Proof.
  unfold spawnUpdater.
  destruct (nextType_spec forcedType s) as (t & q & s1 & Hnext & Hty & [r1 ->] & Hq).
  destruct (replenish_spec q (setRng r1 s)) as (q' & s2 & Hrep & [r2 ->] & Hq7 & Hqq).
  destruct (spawnAt_spec t) as (p & Hp & Hpt & Hpr).
  rewrite Hnext. simpl. rewrite Hrep, Hp. simpl.
  eexists. exists p. split; [reflexivity|]. simpl.
  rewrite Hpt. repeat split; (assumption || lia).
Qed.

(** ** The score never goes down *)

Lemma specBase_nonneg (k : Z) : 1 ≤ k → 0 ≤ specBase k.
Proof.
  intros Hk. unfold specBase.
  repeat (match goal with |- context [?x =? ?y] => destruct (Z.eqb_spec x y) end); lia.
Qed.

Lemma clearStats_ok (k : Z) (st : GameStats) :
  1 ≤ k → StatsOk st →
  StatsOk (clearStats k st) ∧ score st ≤ score (clearStats k st).
Proof.
  intros Hk (Hs & Hl & Hn). unfold StatsOk, clearStats. simpl.
  rewrite (linePoints_specBase k Hk).
  pose proof (specBase_nonneg k Hk) as Hbase.
  assert (Hbonus : 0 ≤ (if combo st + 1 >? 1 then (combo st + 1 - 1) * COMBO_BONUS else 0)).
  { unfold COMBO_BONUS. destruct (Z.gtb_spec (combo st + 1) 1); lia. }
  assert (Hlevel : 0 ≤ (lines st + k) / LINES_PER_LEVEL).
  { apply Z.div_pos; unfold LINES_PER_LEVEL; lia. }
  repeat split; nia.
Qed.

Lemma Mono_refl (s : State) : Mono s s.
Proof. split; [intros H; split; [exact H | lia] | tauto]. Qed.

Lemma Mono_trans (s1 s2 s3 : State) : Mono s1 s2 → Mono s2 s3 → Mono s1 s3.
Proof.
  intros [H12 F12] [H23 F23]. split; [|tauto].
  intros H1. destruct (H12 H1) as [H2 Hle]. destruct (H23 H2) as [H3 Hle'].
  split; [exact H3 | lia].
Qed.

(** A state that differs from [s] in none of [stats], [queue], [hasHeld],
    [pendingSpawns]. *)
Lemma Mono_same (s s' : State) :
  stats s' = stats s → queue s' = queue s → hasHeld s' = hasHeld s →
  pendingSpawns s' = pendingSpawns s → Mono s s'.
Proof.
  intros Hs Hq Hh Hp. unfold Mono, InvH, FlagOk. rewrite Hs, Hq, Hh, Hp.
  split; [intros H; split; [exact H | lia] | tauto].
Qed.

(** The stats change as [f] says, which keeps [StatsOk] and the score;
    [hasHeld] stays and the waiting updaters stay or get one more. *)
Lemma Mono_stats (s s' : State) (extra : list (option TetrominoType)) :
  (StatsOk (stats s) → StatsOk (stats s') ∧ score (stats s) ≤ score (stats s')) →
  queue s' = queue s → hasHeld s' = hasHeld s →
  pendingSpawns s' = pendingSpawns s ++ extra → Mono s s'.
Proof.
  intros Hst Hq Hh Hp. unfold Mono, InvH, FlagOk. rewrite Hq, Hh, Hp. split.
  - intros [H1 H2]. destruct (Hst H1) as [H3 H4].
    split; [split|]; assumption.
  - intros [H|H]; [left; exact H | right].
    destruct (pendingSpawns s); [contradiction | discriminate].
Qed.

Lemma finalizeLock_Mono (piece : ActivePiece) (s s' : State) :
  finalizeLock piece s = Ok s' → Mono s s'.
Proof.
  intros Hfl. rewrite finalizeLock_eq in Hfl.
  inv_bind Hfl. destruct a as [[b k] over]. injection Hfl as <-.
  apply (Mono_stats _ _ [None]); [|reflexivity|reflexivity|reflexivity].
  intros (Hs & Hl & Hn). unfold StatsOk. simpl. repeat split; (assumption || lia).
Qed.

Lemma cancelLockTimeout_Mono (s : State) : Mono s (cancelLockTimeout s).
Proof.
  unfold cancelLockTimeout. destruct (lockTimeout s);
    [apply Mono_same; reflexivity | apply Mono_refl].
Qed.

Lemma dropPiece_Mono (soft forceLock : bool) (s s' : State) :
  dropPiece soft forceLock s = Ok s' → Mono s s'.
Proof.
  intros Hd. unfold dropPiece in Hd.
  destruct (active s) as [a|]; [|injection Hd as <-; apply Mono_refl].
  destruct (decide (status s = playing)); [|injection Hd as <-; apply Mono_refl].
  inv_bind Hd. destruct a0.
  - injection Hd as <-. destruct soft.
    + apply (Mono_stats _ _ []); [|reflexivity|reflexivity|].
      * intros (Hs & Hl & Hn). unfold StatsOk. simpl. unfold DROP_SCORE.
        repeat split; (assumption || lia).
      * simpl. rewrite app_nil_r. reflexivity.
    + apply Mono_same; reflexivity.
  - assert (Hc : Mono s (match lockTimeout s with
                         | Some id => clearTimeout id s
                         | None => s
                         end)).
    { destruct (lockTimeout s); [apply Mono_same; reflexivity | apply Mono_refl]. }
    destruct forceLock.
    + apply finalizeLock_Mono in Hd. exact (Mono_trans _ _ _ Hc Hd).
    + injection Hd as <-. apply (Mono_trans _ _ _ Hc).
      apply Mono_same; reflexivity.
Qed.

Lemma lockTimerFire_Mono (id : nat) (s s' : State) :
  lockTimerFire id s = Ok s' → Mono s s'.
Proof.
  intros Hf. unfold lockTimerFire in Hf.
  destruct (List.find _ (timers s)) as [[i cb]|];
    [|injection Hf as <-; apply Mono_refl].
  assert (Hc : Mono s (clearTimeout id s)) by (apply Mono_same; reflexivity).
  change (active (clearTimeout id s)) with (active s) in Hf.
  change (status (clearTimeout id s)) with (status s) in Hf.
  destruct (active s) as [a|]; [|injection Hf as <-; exact Hc].
  destruct (decide (status s = playing)); [|injection Hf as <-; exact Hc].
  inv_bind Hf. destruct a0; [injection Hf as <-; exact Hc|].
  apply finalizeLock_Mono in Hf. exact (Mono_trans _ _ _ Hc Hf).
Qed.

Lemma descend_distance (b : Board) (fuel : nat) :
  ∀ (ghost ghost' : ActivePiece) (distance distance' : Z),
    descend fuel b ghost distance = Ok (ghost', distance') →
    distance ≤ distance'.
Proof.
  induction fuel as [|fuel IH]; intros ghost ghost' distance distance' Hd;
    [discriminate|].
  simpl in Hd. inv_bind Hd. destruct a.
  - apply IH in Hd. lia.
  - injection Hd as _ <-. lia.
Qed.

Lemma hardDrop_Mono (fuel : nat) (s s' : State) :
  hardDrop fuel s = Ok s' → Mono s s'.
Proof.
  intros Hh. unfold hardDrop in Hh.
  destruct (active s) as [a|]; [|injection Hh as <-; apply Mono_refl].
  destruct (decide (status s = playing)); [|injection Hh as <-; apply Mono_refl].
  inv_bind Hh. destruct a0 as [ghost d].
  apply descend_distance in Ha.
  assert (Hmid : Mono s (addMessage "Hyper Drop!" (setStats (hardDropStats d) s))).
  { apply (Mono_stats _ _ []); [|reflexivity|reflexivity|].
    - intros (Hs & Hl & Hn). unfold StatsOk. simpl. unfold DROP_SCORE.
      repeat split; (assumption || lia).
    - simpl. rewrite app_nil_r. reflexivity. }
  apply finalizeLock_Mono in Hh. exact (Mono_trans _ _ _ Hmid Hh).
Qed.

Lemma movePiece_Mono (dir : Direction) (s s' : State) :
  movePiece dir s = Ok s' → Mono s s'.
Proof.
  intros Hm. unfold movePiece in Hm.
  destruct (active s) as [a|]; [|injection Hm as <-; apply Mono_refl].
  destruct (decide (status s = playing)); [|injection Hm as <-; apply Mono_refl].
  inv_bind Hm. destruct a0; injection Hm as <-; [|apply Mono_refl].
  eapply Mono_trans; [|apply cancelLockTimeout_Mono].
  apply Mono_same; reflexivity.
Qed.

Lemma tryKicks_Mono (a : ActivePiece) (dir : Direction) (nextRotation : Z)
    (s s' : State) (ks : list Position) :
  tryKicks a dir nextRotation ks s = Ok s' → Mono s s'.
Proof.
  induction ks as [|k ks IH]; simpl; intros Ht.
  - injection Ht as <-. apply Mono_refl.
  - inv_bind Ht. destruct a0; [|exact (IH Ht)].
    injection Ht as <-.
    eapply Mono_trans; [|apply cancelLockTimeout_Mono].
    apply Mono_same; reflexivity.
Qed.

Lemma rotatePiece_Mono (dir : Direction) (s s' : State) :
  rotatePiece dir s = Ok s' → Mono s s'.
Proof.
  intros Hr. unfold rotatePiece in Hr.
  destruct (active s) as [a|]; [|injection Hr as <-; apply Mono_refl].
  destruct (decide (status s = playing)); [|injection Hr as <-; apply Mono_refl].
  eapply tryKicks_Mono; eassumption.
Qed.

(** ** holdPiece and the render *)

Lemma cancelLockTimeout_fields (s : State) :
  stats (cancelLockTimeout s) = stats s ∧
  queue (cancelLockTimeout s) = queue s ∧
  hasHeld (cancelLockTimeout s) = hasHeld s ∧
  pendingSpawns (cancelLockTimeout s) = pendingSpawns s ∧
  rng (cancelLockTimeout s) = rng s ∧
  hold (cancelLockTimeout s) = hold s ∧
  status (cancelLockTimeout s) = status s.
Proof. unfold cancelLockTimeout. destruct (lockTimeout s); repeat split. Qed.

Lemma holdPiece_Mono (s : State) : Mono s (holdPiece s).
Proof.
  unfold holdPiece.
  destruct (active s) as [a|]; [|apply Mono_refl].
  destruct (decide (status s = playing)); [|apply Mono_refl].
  destruct (hasHeld s) eqn:Hheld; [apply Mono_refl|].
  destruct (cancelLockTimeout_fields s) as (Hst & Hq & _ & Hp & _).
  unfold Mono, InvH, FlagOk.
  destruct (hold s); simpl; rewrite Hst, Hq, Hp;
    (split; [intros H; split; [exact H | lia] | intros _; right;
             destruct (pendingSpawns s); discriminate]).
Qed.

Lemma spawnedType_ext (forcedType : option TetrominoType) (s s' : State) :
  queue s' = queue s → rng s' = rng s →
  spawnedType forcedType s' = spawnedType forcedType s.
Proof. intros Hq Hr. unfold spawnedType. rewrite Hq, Hr. reflexivity. Qed.

Lemma runSpawns_spec (forced : list (option TetrominoType)) :
  ∀ s : State,
    ∃ s', runSpawns forced s = Ok s' ∧
          score (stats s') = score (stats s) ∧
          (StatsOk (stats s) → StatsOk (stats s')) ∧
          ((forced = [] ∧ s' = s) ∨
           (forced ≠ [] ∧ hasHeld s' = false ∧ (7 ≤ length (queue s'))%nat)) ∧
          pendingSpawns s' = pendingSpawns s.
Proof.
  induction forced as [|f forced IH]; intros s.
  - exists s. simpl. split; [reflexivity|]. split; [reflexivity|].
    split; [intros H; exact H|]. split; [left; split; reflexivity | reflexivity].
  - destruct (spawnUpdater_spec f s)
      as (s1 & p & Hs1 & _ & _ & _ & Hh & Hstats & Hq & _ & _ & _ & _ & Hp).
    destruct (IH s1) as (s2 & Hs2 & Hsc & Hok & Hcase & Hp2).
    exists s2. simpl. rewrite Hs1. simpl. rewrite Hs2.
    split; [reflexivity|]. split; [rewrite Hsc, Hstats; reflexivity|].
    split; [|split; [|congruence]].
    + intros Hst. apply Hok. rewrite Hstats. exact Hst.
    + right. split; [discriminate|].
      destruct Hcase as [[_ ->]|(_ & Hh2 & Hq2)]; split; assumption.
Qed.

(** The render after a handler gives back a state as between two events,
    with the score the handler left. *)
Lemma render_spec (s : State) :
  InvH s → FlagOk s →
  ∃ s', render s = Ok s' ∧ Inv s' ∧ score (stats s') = score (stats s).
Proof.
  intros [Hst Hq] Hflag. unfold render.
  destruct (runSpawns_spec (pendingSpawns s) (setPendingSpawns [] s))
    as (s1 & Hs1 & Hsc & Hok & Hcase & Hp).
  rewrite Hs1. simpl. eexists. split; [reflexivity|]. split; [|exact Hsc].
  unfold Inv, InvH. simpl. rewrite Hp. simpl.
  split; [split; [exact (Hok Hst)|]|split; [|reflexivity]].
  - destruct Hcase as [[_ ->]|(_ & _ & Hq1)]; [exact Hq | exact Hq1].
  - destruct Hcase as [[Hnil ->]|(_ & Hh1 & _)]; [|exact Hh1].
    simpl. destruct Hflag as [H|H]; [exact H | contradiction].
Qed.

(** ** startGame *)

Lemma resetGame_spec (s : State) :
  ∃ s', resetGame s = Ok s' ∧
        score (stats s') = 0 ∧ InvH s' ∧ hasHeld s' = false ∧
        pendingSpawns s' = pendingSpawns s.
Proof.
  unfold resetGame.
  destruct (drawBag_spec (setBoard createEmptyBoard (cancelLockTimeout s)))
    as (bag1 & r1 & Hb1 & Hl1).
  rewrite Hb1.
  destruct (drawBag_spec (setRng r1 (setBoard createEmptyBoard (cancelLockTimeout s))))
    as (bag2 & r2 & Hb2 & Hl2).
  rewrite Hb2.
  destruct bag1 as [|t bag1]; [discriminate|]. simpl.
  destruct (spawnAt_spec t) as (p & Hp & _). rewrite Hp. simpl.
  eexists. split; [reflexivity|]. split; [reflexivity|].
  unfold InvH, StatsOk. simpl. rewrite length_app. simpl in Hl1.
  destruct (cancelLockTimeout_fields s) as (_ & _ & _ & Hpend & _).
  repeat split; (lia || exact Hpend).
Qed.

(** ** Reachable states *)

Lemma handle_Mono (e : Event) (s s' : State) :
  e ≠ EvStart → handle e s = Ok s' → Mono s s'.
Proof.
  intros He Hh. destruct e; simpl in Hh; try contradiction.
  - injection Hh as <-. apply Mono_same;
      unfold togglePause; destruct (status s); reflexivity.
  - eapply movePiece_Mono; eassumption.
  - eapply rotatePiece_Mono; eassumption.
  - eapply dropPiece_Mono; eassumption.
  - destruct (decide (status s = playing));
      [|injection Hh as <-; apply Mono_refl].
    apply dropPiece_Mono in Hh.
    eapply Mono_trans; [|exact Hh]. apply Mono_same; reflexivity.
  - injection Hh as <-. apply Mono_same; reflexivity.
  - destruct (decide (status s = playing));
      [|injection Hh as <-; apply Mono_refl].
    eapply dropPiece_Mono; eassumption.
  - eapply hardDrop_Mono; eassumption.
  - injection Hh as <-. apply holdPiece_Mono.
  - eapply lockTimerFire_Mono; eassumption.
  - destruct (decide (status s = playing));
      injection Hh as <-; [|apply Mono_refl].
    apply (Mono_stats _ _ []); [|reflexivity|reflexivity|].
    + intros (Hs & Hl & Hn). unfold StatsOk. simpl.
      repeat split; (assumption || lia).
    + simpl. rewrite app_nil_r. reflexivity.
Qed.

Lemma Inv_FlagOk (s : State) : Inv s → FlagOk s.
Proof. intros (_ & H & _). left. exact H. Qed.

(** An event from a state as between two events: the state after its
    render is such a state again, and the score has not gone down unless
    the event is the start of a game, which sets it to 0. *)
Lemma step_spec (e : Event) (s s' : State) :
  Inv s → step e s = Ok s' →
  Inv s' ∧
  (e ≠ EvStart → score (stats s) ≤ score (stats s')) ∧
  (e = EvStart → score (stats s') = 0).
Proof.
  intros Hinv Hs. unfold step in Hs. inv_bind Hs.
  assert (Hcase : e = EvStart ∨ e ≠ EvStart)
    by (destruct e; ((left; reflexivity) || (right; discriminate))).
  destruct Hcase as [->|He].
  - simpl in Ha. unfold startGame in Ha.
    destruct (resetGame_spec (setStatus playing s)) as (s1 & Hs1 & Hsc & Hi & Hh & Hp).
    rewrite Hs1 in Ha. injection Ha as <-.
    destruct (render_spec s1 Hi (or_introl Hh)) as (s2 & Hs2 & Hi2 & Hsc2).
    rewrite Hs2 in Hs. injection Hs as <-.
    split; [exact Hi2|]. split; [intros Hne; contradiction|].
    intros _. rewrite Hsc2. exact Hsc.
  - destruct (handle_Mono e s a He Ha) as [Hm Hf].
    destruct (Hm (proj1 Hinv)) as [Hi Hle].
    destruct (render_spec a Hi (Hf (Inv_FlagOk s Hinv))) as (s2 & Hs2 & Hi2 & Hsc2).
    rewrite Hs2 in Hs. injection Hs as <-.
    split; [exact Hi2|]. split; [intros _; rewrite Hsc2; exact Hle|].
    intros Heq. contradiction.
Qed.

Lemma initialState_queue (stored : Z) (r : Rng) :
  length (queue (initialState stored r)) = 14%nat.
Proof.
  unfold initialState.
  pose proof (generateBag_length r) as H1.
  destruct (generateBag r) as [bag1 r1].
  pose proof (generateBag_length r1) as H2.
  destruct (generateBag r1) as [bag2 r2].
  simpl in *. rewrite length_app. lia.
Qed.

Lemma initialState_fields (stored : Z) (r : Rng) :
  stats (initialState stored r) = createInitialStats ∧
  hasHeld (initialState stored r) = false ∧
  pendingSpawns (initialState stored r) = [].
Proof.
  unfold initialState.
  destruct (generateBag r) as [bag1 r1]. destruct (generateBag r1) as [bag2 r2].
  repeat split.
Qed.

Lemma reachable_Inv (stored : Z) (r : Rng) (s : State) :
  reachable stored r s → Inv s.
Proof.
  induction 1 as [|s e s' _ IH Hstep].
  - destruct (initialState_fields stored r) as (Hst & Hh & Hp).
    unfold Inv, InvH. rewrite initialState_queue, Hst, Hh, Hp.
    unfold StatsOk. simpl. repeat split; lia.
  - exact (proj1 (step_spec e s s' IH Hstep)).
Qed.

(** C9.  The queue starts with 14 entries; the updater of [spawnPiece]
    always returns, takes at most one entry off the queue and leaves at
    least 7; and every reachable state has at least 7 entries in the
    queue. *)
Theorem queue_never_dry (stored : Z) (r : Rng) :
  length (queue (initialState stored r)) = 14%nat ∧
  (∀ (forcedType : option TetrominoType) (s : State),
     ∃ s', spawnUpdater forcedType s = Ok s' ∧
           (7 ≤ length (queue s'))%nat ∧
           (length (queue s) ≤ S (length (queue s')))%nat) ∧
  (∀ s, reachable stored r s → (7 ≤ length (queue s))%nat).
Proof.
  split; [apply initialState_queue|]. split.
  - intros forcedType s.
    destruct (spawnUpdater_spec forcedType s)
      as (s' & p & Hs' & _ & _ & _ & _ & _ & Hq & Hpop & _).
    exists s'. repeat split; assumption.
  - intros s Hr. exact (proj2 (proj1 (reachable_Inv stored r s Hr))).
Qed.

(** C10.  From a reachable state every event but the start of a game
    leaves the score as it is or raises it; the score of a reachable state
    is never negative; the first state has score 0 and the start of a game
    sets the score to 0. *)
Theorem score_monotone (stored : Z) (r : Rng) (s : State) (e : Event) (s' : State) :
  reachable stored r s →
  step e s = Ok s' →
  (e ≠ EvStart → score (stats s) ≤ score (stats s')) ∧
  (e = EvStart → score (stats s') = 0) ∧
  0 ≤ score (stats s) ∧ 0 ≤ score (stats s') ∧
  score (stats (initialState stored r)) = 0.
Proof.
  intros Hr Hstep.
  pose proof (reachable_Inv stored r s Hr) as Hinv.
  destruct (step_spec e s s' Hinv Hstep) as (Hinv' & Hmono & Hstart).
  split; [exact Hmono|]. split; [exact Hstart|].
  split; [exact (proj1 (proj1 (proj1 Hinv)))|].
  split; [exact (proj1 (proj1 (proj1 Hinv')))|].
  rewrite (proj1 (initialState_fields stored r)). reflexivity.
Qed.

(** ** Hold *)

(** A hold from a state as between two events, playing, with an active
    piece: after the render the type of that piece is in the hold slot, a
    piece of the type held before (of the head of the queue when none was
    held) is active, and [hasHeld] is down. *)
Lemma hold_step_spec (s : State) (a : ActivePiece) :
  Inv s → status s = playing → active s = Some a →
  ∃ s1 p,
    step EvHold s = Ok s1 ∧
    hold s1 = Some (ptype a) ∧
    active s1 = Some p ∧
    spawnedType (hold s) s = Some (ptype p) ∧
    hasHeld s1 = false ∧
    status s1 = playing ∧
    stats s1 = withPieces (pieces (stats s) + 1) (stats s).
Proof.
  intros (_ & Hheld & Hpend) Hst Hact.
  destruct (cancelLockTimeout_fields s) as (Hcs & Hcq & _ & Hcp & Hcr & Hch & Hcst).
  unfold step. simpl. unfold holdPiece. rewrite Hact, Hheld.
  destruct (decide (status s = playing)) as [_|Hn]; [|contradiction].
  simpl. unfold render.
  destruct (hold s) as [h|]; simpl; rewrite Hcp, Hpend; simpl.
  - match goal with |- context [spawnUpdater (Some h) ?s0] =>
      destruct (spawnUpdater_spec (Some h) s0)
        as (s1 & p & Hs1 & Ha1 & Hty & _ & Hh1 & Hstats & _ & _ & _ & Hhold & Hst1 & _)
    end.
    rewrite Hs1. simpl. eexists. exists p. split; [reflexivity|]. simpl.
    simpl in Hhold, Hst1, Hstats. rewrite Hhold, Hst1, Hstats, Hcst, Hcs.
    repeat split; assumption.
  - match goal with |- context [spawnUpdater None ?s0] =>
      destruct (spawnUpdater_spec None s0)
        as (s1 & p & Hs1 & Ha1 & Hty & _ & Hh1 & Hstats & _ & _ & _ & Hhold & Hst1 & _);
      rewrite (spawnedType_ext None s s0) in Hty by (simpl; assumption)
    end.
    rewrite Hs1. simpl. eexists. exists p. split; [reflexivity|]. simpl.
    simpl in Hhold, Hst1, Hstats. rewrite Hhold, Hst1, Hstats, Hcst, Hcs.
    repeat split; assumption.
Qed.

(** C6.  In every reachable state [hasHeld] is [false]; a hold from a
    playing state with an active piece puts the type of that piece in the
    hold slot, makes a piece of the type held before (of the head of the
    queue when none was held) the active one and leaves [hasHeld] [false];
    a second hold right after it is accepted as well: it puts the type of
    the new active piece in the hold slot, spawns a piece of the type just
    held and counts one more piece. *)
Theorem hold_flag_never_blocks (stored : Z) (r : Rng) (s : State) (a : ActivePiece) :
  reachable stored r s →
  status s = playing →
  active s = Some a →
  hasHeld s = false ∧
  ∃ s1 p,
    step EvHold s = Ok s1 ∧
    hold s1 = Some (ptype a) ∧
    active s1 = Some p ∧
    spawnedType (hold s) s = Some (ptype p) ∧
    hasHeld s1 = false ∧
    ∃ s2 p2,
      step EvHold s1 = Ok s2 ∧
      hold s2 = Some (ptype p) ∧
      active s2 = Some p2 ∧ ptype p2 = ptype a ∧
      pieces (stats s2) = pieces (stats s1) + 1.
Proof.
  intros Hr Hst Hact.
  pose proof (reachable_Inv stored r s Hr) as Hinv.
  split; [exact (proj1 (proj2 Hinv))|].
  destruct (hold_step_spec s a Hinv Hst Hact)
    as (s1 & p & Hs1 & Hhold1 & Hact1 & Hty1 & Hheld1 & Hst1 & _).
  exists s1, p. repeat (split; [assumption|]).
  assert (Hinv1 : Inv s1) by exact (proj1 (step_spec EvHold s s1 Hinv Hs1)).
  destruct (hold_step_spec s1 p Hinv1 Hst1 Hact1)
    as (s2 & p2 & Hs2 & Hhold2 & Hact2 & Hty2 & _ & _ & Hstats2).
  exists s2, p2. repeat (split; [assumption|]).
  rewrite Hhold1 in Hty2. simpl in Hty2. injection Hty2 as Hty2.
  split; [symmetry; exact Hty2|]. rewrite Hstats2. reflexivity.
Qed.

(** ** The properties at sample inputs *)

Lemma startedState_reachable : reachable 0 zeroRng startedState.
Proof.
  apply (reachable_step 0 zeroRng (initialState 0 zeroRng) EvStart startedState).
  - apply reachable_init.
  - vm_compute. reflexivity.
Defined.

Lemma canPlace_false_iff_blocked_witness :
  ∃ (m : Matrix) (res : bool),
    getRotations (ptype wallT) !!
      Z.to_nat ((rotation wallT + 1)
                `mod` Z.of_nat (length (getRotations (ptype wallT)))) = Some m ∧
    canPlace createEmptyBoard wallT (mkPosition 0 0) 1 = Ok res ∧
    (res = false ↔ blocked createEmptyBoard wallT (mkPosition 0 0) m) ∧
    ((∀ yy xx : nat, shapeCell m yy xx = true →
        let boardX := pos_x (position wallT) + Z.of_nat xx + pos_x (mkPosition 0 0) in
        let boardY := pos_y (position wallT) + Z.of_nat yy + pos_y (mkPosition 0 0) in
        0 ≤ boardX < BOARD_WIDTH ∧
        (boardY < 0 ∨
         (boardY < BOARD_HEIGHT ∧ occupiedAt createEmptyBoard boardY boardX = false))) →
     res = true).
Proof.
  apply (canPlace_false_iff_blocked createEmptyBoard wallT (mkPosition 0 0) 1).
  - vm_compute. lia.
  - vm_compute. discriminate.
Defined.

Lemma finalizeLock_topout_keeps_status_witness :
  (∃ s', finalizeLock uprightI startedState = Ok s' ∧
         board s' = board startedState ∧
         status s' = playing ∧
         pendingSpawns s' = [None]) ∧
  (∃ s', step (EvHardDrop 30) cappedState = Ok s' ∧
         status s' = playing ∧ board s' = cappedBoard ∧
         score (stats s') = 500 ∧ highScore s' = 0 ∧
         (ptype <$> active s') = Some PieceL).
Proof.
  split.
  - destruct (finalizeLock_topout_keeps_status startedState uprightI
                [[0;0;1;0]; [0;0;1;0]; [0;0;1;0]; [0;0;1;0]])
      as (_ & s' & Hfl & Hb & Hst & _ & _ & _ & _ & Hp).
    + reflexivity.
    + exists 0%nat, 2%nat. split; [reflexivity | simpl; lia].
    + exists s'. split; [exact Hfl|]. split; [exact Hb|].
      split; [rewrite Hst; reflexivity | rewrite Hp; reflexivity].
  - vm_compute. eexists. repeat split; reflexivity.
Defined.

Lemma clearLines_compacts_witness :
  let '(next, clearedLines) := clearLines bottomFullBoard in
  clearedLines = Z.of_nat (length (List.filter fullRow bottomFullBoard)) ∧
  next = replicate (length (List.filter fullRow bottomFullBoard)) emptyRow ++
         List.filter (fun row => negb (fullRow row)) bottomFullBoard ∧
  wellFormed next.
Proof.
  apply (clearLines_compacts bottomFullBoard).
  split; [reflexivity|].
  apply (bool_decide_unpack _). vm_compute. exact I.
Defined.

Lemma finalizeLock_clear_awards_nothing_witness :
  (∃ s', finalizeLock flatI gapState = Ok s' ∧
         board s' = createEmptyBoard ∧
         score (stats s') = 0 ∧ lines (stats s') = 0 ∧
         score (stats (updateForClear 1 gapState)) = 100) ∧
  (∃ s', step (EvHardDrop 30) gapDropState = Ok s' ∧
         board s' = createEmptyBoard ∧
         score (stats s') = 114 ∧ lines (stats s') = 0 ∧
         cleared (stats s') = [0; 0; 0; 0] ∧ messages s' = ["Hyper Drop!"]).
Proof.
  split.
  - destruct (finalizeLock_clear_awards_nothing gapState flatI createEmptyBoard 1)
      as (s' & Hfl & Hb & Hsc & Hl & _ & _ & _ & _ & _ & Haward).
    + vm_compute. reflexivity.
    + lia.
    + exists s'. split; [exact Hfl|]. split; [exact Hb|].
      split; [rewrite Hsc; reflexivity|]. split; [rewrite Hl; reflexivity|].
      destruct Haward as [Heq _]; [vm_compute; discriminate | vm_compute; discriminate|].
      rewrite Heq. reflexivity.
  - vm_compute. eexists. repeat split; reflexivity.
Defined.

Lemma rotatePiece_first_kick_witness :
  rotatePiece DirPlus wallState =
  Ok (cancelLockTimeout
        (setActive
           (Some (mkActivePiece PieceT ((3 + 1) `mod` 4) (mkPosition (8 + -1) (5 + 0))))
           wallState)).
Proof.
  destruct (rotatePiece_first_kick wallState wallT DirPlus)
    as (_ & Hfirst & _).
  - reflexivity.
  - reflexivity.
  - simpl. lia.
  - apply (Hfirst [mkPosition 0 0] (mkPosition (-1) 0)
             [mkPosition 1 0; mkPosition 0 (-1); mkPosition 0 1]).
    + reflexivity.
    + constructor; [vm_compute; reflexivity | constructor].
    + vm_compute. reflexivity.
Defined.

Lemma score_monotone_witness :
  score (stats startedState) ≤ score (stats droppedState) ∧
  0 ≤ score (stats droppedState).
Proof.
  destruct (score_monotone 0 zeroRng startedState (EvHardDrop 30) droppedState)
    as (Hmono & _ & _ & Hpos & _).
  - exact startedState_reachable.
  - vm_compute. reflexivity.
  - split; [apply Hmono; discriminate | exact Hpos].
Defined.

Lemma hold_flag_never_blocks_witness :
  ∃ s1 s2 p1 p2,
    step EvHold startedState = Ok s1 ∧
    hold s1 = Some PieceJ ∧ active s1 = Some p1 ∧ ptype p1 = PieceL ∧
    hasHeld s1 = false ∧
    step EvHold s1 = Ok s2 ∧
    hold s2 = Some PieceL ∧ active s2 = Some p2 ∧ ptype p2 = PieceJ.
Proof.
  destruct (hold_flag_never_blocks 0 zeroRng startedState spawnedJ)
    as (_ & s1 & p1 & Hs1 & Hhold1 & Hact1 & Hty1 & Hheld1 &
        s2 & p2 & Hs2 & Hhold2 & Hact2 & Hty2 & _).
  - exact startedState_reachable.
  - reflexivity.
  - reflexivity.
  - assert (Hp1 : ptype p1 = PieceL).
    { assert (Hsp : spawnedType (hold startedState) startedState = Some PieceL)
        by reflexivity.
      rewrite Hsp in Hty1. injection Hty1 as Hty1. symmetry. exact Hty1. }
    exists s1, s2, p1, p2. rewrite Hp1 in Hhold2.
    repeat split; assumption.
Defined.

(** * Further properties *)

(** ** The gravity interval *)

(** X1.  For a level that is not negative the gravity interval lies
    between 90 and 900 milliseconds, does not grow with the level, is 900 at
    level 0 and stays at 90 from level 12 on. *)
Theorem calculateDropInterval_bounds (l l' : Z) :
  0 ≤ l → l ≤ l' →
  90 ≤ calculateDropInterval l ≤ 900 ∧
  calculateDropInterval l' ≤ calculateDropInterval l ∧
  calculateDropInterval 0 = 900 ∧
  (12 ≤ l → calculateDropInterval l = 90) ∧
  (l ≤ 11 → calculateDropInterval l = 900 - l * 70).
Proof.
  intros Hl Hll. unfold calculateDropInterval. repeat split; lia.
Qed.

Lemma calculateDropInterval_bounds_witness :
  90 ≤ calculateDropInterval 3 ≤ 900 ∧
  calculateDropInterval 20 ≤ calculateDropInterval 3.
Proof.
  destruct (calculateDropInterval_bounds 3 20) as (H1 & H2 & _); [lia | lia |].
  split; [exact H1 | exact H2].
Defined.

(** ** Statistics, messages and high score along a game *)

Lemma Evolves_refl (s : State) : Evolves s s.
Proof. unfold Evolves. split; [tauto | split; [tauto | lia]]. Qed.

Lemma Evolves_trans (s1 s2 s3 : State) : Evolves s1 s2 → Evolves s2 s3 → Evolves s1 s3.
Proof.
  intros (A1 & B1 & C1) (A2 & B2 & C2). unfold Evolves.
  split; [tauto | split; [tauto | lia]].
Qed.

(** A state with the stats, the messages and the high score of [s]. *)
Lemma Evolves_same (s s' : State) :
  stats s' = stats s → messages s' = messages s → highScore s' = highScore s →
  Evolves s s'.
Proof.
  intros Hs Hm Hh. unfold Evolves. rewrite Hs, Hm, Hh.
  split; [tauto | split; [tauto | lia]].
Qed.

Lemma addMessage_length (text : string) (s : State) :
  (length (messages (addMessage text s)) ≤ 4)%nat.
Proof. unfold addMessage. simpl. rewrite length_take. lia. Qed.

Lemma addMessage_Evolves (text : string) (s : State) : Evolves s (addMessage text s).
Proof.
  pose proof (addMessage_length text s) as Hlen.
  unfold Evolves. split; [intros H; exact H|]. split; [intros _; exact Hlen|].
  simpl. lia.
Qed.

Lemma setStats_Evolves (f : GameStats → GameStats) (s : State) :
  (StatsInv (stats s) → StatsInv (f (stats s))) → Evolves s (setStats f s).
Proof.
  intros Hf. unfold Evolves. simpl. split; [exact Hf | split; [tauto | lia]].
Qed.

Lemma resetCombo_StatsInv (st : GameStats) : StatsInv st → StatsInv (resetCombo st).
Proof.
  unfold StatsInv, resetCombo. simpl. intros (?&?&?&?&?&?&?&?&?).
  repeat split; (assumption || lia).
Qed.

Lemma clearStats_StatsInv (k : Z) (st : GameStats) :
  1 ≤ k → StatsInv st → StatsInv (clearStats k st).
Proof.
  intros Hk (Hs & Hn & Hl & Hc & Hlen & Ht & Hh & Hp & Hpt).
  assert (Hlev : 0 ≤ level st).
  { rewrite Hl. apply Z.div_pos; unfold LINES_PER_LEVEL; lia. }
  destruct (clearStats_ok k st Hk) as [(Hs' & _ & Hn') _];
    [repeat split; assumption|].
  unfold StatsInv. split; [exact Hs'|]. split; [exact Hn'|].
  simpl. split; [reflexivity|]. split; [lia|].
  split; [rewrite length_imap; exact Hlen|].
  split; [|repeat split; assumption].
  unfold jsIndex in *. change (3 <? 0) with false in *. cbv iota in *.
  change (Z.to_nat 3) with 3%nat in *.
  rewrite list_lookup_imap, Ht. unfold fmap, option_fmap, option_map.
  f_equal.
  destruct (Z.eqb_spec (Z.of_nat 3) (k - 1)); destruct (Z.eqb_spec k 4);
    (reflexivity || lia).
Qed.

Lemma updateForClear_Evolves (k : Z) (s : State) :
  0 ≤ k → Evolves s (updateForClear k s).
Proof.
  intros Hk. unfold updateForClear. destruct (Z.eqb_spec k 0).
  - apply setStats_Evolves, resetCombo_StatsInv.
  - eapply Evolves_trans; [|apply addMessage_Evolves].
    apply setStats_Evolves, clearStats_StatsInv. lia.
Qed.

Lemma finalizeLock_Evolves (piece : ActivePiece) (s s' : State) :
  finalizeLock piece s = Ok s' → Evolves s s'.
Proof.
  intros Hfl. rewrite finalizeLock_eq in Hfl.
  inv_bind Hfl. destruct a as [[b k] over]. injection Hfl as <-.
  unfold Evolves. simpl. split; [apply resetCombo_StatsInv|].
  split; [tauto | lia].
Qed.

Lemma cancelLockTimeout_Evolves (s : State) : Evolves s (cancelLockTimeout s).
Proof.
  unfold cancelLockTimeout. destruct (lockTimeout s);
    [apply Evolves_same; reflexivity | apply Evolves_refl].
Qed.

Lemma dropPiece_Evolves (soft forceLock : bool) (s s' : State) :
  dropPiece soft forceLock s = Ok s' → Evolves s s'.
Proof.
  intros Hd. unfold dropPiece in Hd.
  destruct (active s) as [a|]; [|injection Hd as <-; apply Evolves_refl].
  destruct (decide (status s = playing)); [|injection Hd as <-; apply Evolves_refl].
  inv_bind Hd. destruct a0.
  - injection Hd as <-. destruct soft; [|apply Evolves_same; reflexivity].
    unfold Evolves, StatsInv. simpl. unfold DROP_SCORE.
    split; [intros (?&?&?&?&?&?&?&?&?); repeat split; (assumption || lia)|].
    split; [tauto | lia].
  - assert (Hc : Evolves s (match lockTimeout s with
                            | Some id => clearTimeout id s
                            | None => s
                            end)).
    { destruct (lockTimeout s); [apply Evolves_same; reflexivity | apply Evolves_refl]. }
    destruct forceLock.
    + apply finalizeLock_Evolves in Hd. exact (Evolves_trans _ _ _ Hc Hd).
    + injection Hd as <-. apply (Evolves_trans _ _ _ Hc).
      apply Evolves_same; reflexivity.
Qed.

Lemma lockTimerFire_Evolves (id : nat) (s s' : State) :
  lockTimerFire id s = Ok s' → Evolves s s'.
Proof.
  intros Hf. unfold lockTimerFire in Hf.
  destruct (List.find _ (timers s)) as [[i cb]|];
    [|injection Hf as <-; apply Evolves_refl].
  assert (Hc : Evolves s (clearTimeout id s)) by (apply Evolves_same; reflexivity).
  change (active (clearTimeout id s)) with (active s) in Hf.
  change (status (clearTimeout id s)) with (status s) in Hf.
  destruct (active s) as [a|]; [|injection Hf as <-; exact Hc].
  destruct (decide (status s = playing)); [|injection Hf as <-; exact Hc].
  inv_bind Hf. destruct a0; [injection Hf as <-; exact Hc|].
  apply finalizeLock_Evolves in Hf. exact (Evolves_trans _ _ _ Hc Hf).
Qed.

Lemma hardDrop_Evolves (fuel : nat) (s s' : State) :
  hardDrop fuel s = Ok s' → Evolves s s'.
Proof.
  intros Hh. unfold hardDrop in Hh.
  destruct (active s) as [a|]; [|injection Hh as <-; apply Evolves_refl].
  destruct (decide (status s = playing)); [|injection Hh as <-; apply Evolves_refl].
  inv_bind Hh. destruct a0 as [ghost d].
  apply descend_distance in Ha.
  apply finalizeLock_Evolves in Hh.
  eapply Evolves_trans; [|exact Hh].
  eapply Evolves_trans; [|apply addMessage_Evolves].
  apply setStats_Evolves. unfold StatsInv, hardDropStats. simpl. unfold DROP_SCORE.
  intros (?&?&?&?&?&?&?&?&?). repeat split; (assumption || lia).
Qed.

Lemma movePiece_Evolves (dir : Direction) (s s' : State) :
  movePiece dir s = Ok s' → Evolves s s'.
Proof.
  intros Hm. unfold movePiece in Hm.
  destruct (active s) as [a|]; [|injection Hm as <-; apply Evolves_refl].
  destruct (decide (status s = playing)); [|injection Hm as <-; apply Evolves_refl].
  inv_bind Hm. destruct a0; injection Hm as <-; [|apply Evolves_refl].
  eapply Evolves_trans; [|apply cancelLockTimeout_Evolves].
  apply Evolves_same; reflexivity.
Qed.

Lemma tryKicks_Evolves (a : ActivePiece) (dir : Direction) (nextRotation : Z)
    (s s' : State) (ks : list Position) :
  tryKicks a dir nextRotation ks s = Ok s' → Evolves s s'.
Proof.
  induction ks as [|k ks IH]; simpl; intros Ht.
  - injection Ht as <-. apply Evolves_refl.
  - inv_bind Ht. destruct a0; [|exact (IH Ht)].
    injection Ht as <-.
    eapply Evolves_trans; [|apply cancelLockTimeout_Evolves].
    apply Evolves_same; reflexivity.
Qed.

Lemma holdPiece_Evolves (s : State) : Evolves s (holdPiece s).
Proof.
  unfold holdPiece.
  destruct (active s) as [a|]; [|apply Evolves_refl].
  destruct (decide (status s = playing)); [|apply Evolves_refl].
  destruct (hasHeld s); [apply Evolves_refl|].
  eapply Evolves_trans; [apply cancelLockTimeout_Evolves|].
  eapply Evolves_trans; [|apply addMessage_Evolves].
  destruct (hold s); apply Evolves_same; reflexivity.
Qed.

Lemma resetGame_Evolves (s s' : State) : resetGame s = Ok s' → Evolves s s'.
Proof.
  intros Hr. unfold resetGame in Hr.
  destruct (drawBag_spec (setBoard createEmptyBoard (cancelLockTimeout s)))
    as (bag1 & r1 & Hb1 & _).
  rewrite Hb1 in Hr.
  destruct (drawBag_spec (setRng r1 (setBoard createEmptyBoard (cancelLockTimeout s))))
    as (bag2 & r2 & Hb2 & _).
  rewrite Hb2 in Hr.
  assert (Hstart : StatsInv (withPieces 1 createInitialStats)).
  { unfold StatsInv. simpl. repeat split; (reflexivity || lia). }
  destruct (bag1 ++ bag2) as [|t rest]; inv_bind Hr; injection Hr as <-;
    (eapply Evolves_trans; [apply cancelLockTimeout_Evolves|];
     unfold Evolves; simpl;
     split; [intros _; exact Hstart | split; [intros _; lia | lia]]).
Qed.

Lemma handle_Evolves (e : Event) (s s' : State) : handle e s = Ok s' → Evolves s s'.
Proof.
  intros Hh. destruct e; simpl in Hh.
  - unfold startGame in Hh. apply resetGame_Evolves in Hh.
    eapply Evolves_trans; [|exact Hh]. apply Evolves_same; reflexivity.
  - injection Hh as <-. unfold togglePause.
    eapply Evolves_trans; [|apply addMessage_Evolves].
    destruct (status s); apply Evolves_same; reflexivity.
  - eapply movePiece_Evolves; eassumption.
  - unfold rotatePiece in Hh.
    destruct (active s) as [a|]; [|injection Hh as <-; apply Evolves_refl].
    destruct (decide (status s = playing)); [|injection Hh as <-; apply Evolves_refl].
    eapply tryKicks_Evolves; eassumption.
  - eapply dropPiece_Evolves; eassumption.
  - destruct (decide (status s = playing));
      [|injection Hh as <-; apply Evolves_refl].
    apply dropPiece_Evolves in Hh.
    eapply Evolves_trans; [|exact Hh]. apply Evolves_same; reflexivity.
  - injection Hh as <-. apply Evolves_same; reflexivity.
  - destruct (decide (status s = playing));
      [|injection Hh as <-; apply Evolves_refl].
    eapply dropPiece_Evolves; eassumption.
  - eapply hardDrop_Evolves; eassumption.
  - injection Hh as <-. apply holdPiece_Evolves.
  - eapply lockTimerFire_Evolves; eassumption.
  - destruct (decide (status s = playing));
      injection Hh as <-; [|apply Evolves_refl].
    apply setStats_Evolves. unfold StatsInv. simpl.
    intros (?&?&?&?&?&?&?&?&?). repeat split; (assumption || lia).
Qed.

Lemma spawnUpdater_Evolves (forcedType : option TetrominoType) (s s' : State) :
  spawnUpdater forcedType s = Ok s' → Evolves s s'.
Proof.
  intros Hsp. unfold spawnUpdater in Hsp.
  destruct (nextType_spec forcedType s) as (t & q & s1 & Hnext & _ & [r1 ->] & _).
  destruct (replenish_spec q (setRng r1 s)) as (q' & s2 & Hrep & [r2 ->] & _).
  rewrite Hnext in Hsp. simpl in Hsp. rewrite Hrep in Hsp.
  inv_bind Hsp. injection Hsp as <-.
  unfold Evolves, StatsInv. simpl.
  split; [intros (?&?&?&?&?&?&?&?&?); repeat split; (assumption || lia)|].
  split; [tauto | lia].
Qed.

Lemma runSpawns_Evolves (forced : list (option TetrominoType)) :
  ∀ s s', runSpawns forced s = Ok s' → Evolves s s'.
Proof.
  induction forced as [|f forced IH]; intros s s' Hr; simpl in Hr.
  - injection Hr as <-. apply Evolves_refl.
  - inv_bind Hr. apply spawnUpdater_Evolves in Ha. apply IH in Hr.
    exact (Evolves_trans _ _ _ Ha Hr).
Qed.

Lemma step_Evolves (e : Event) (s s' : State) : step e s = Ok s' → Evolves s s'.
Proof.
  intros Hs. unfold step in Hs. inv_bind Hs.
  apply handle_Evolves in Ha. unfold render in Hs. inv_bind Hs.
  injection Hs as <-. apply runSpawns_Evolves in Ha0.
  eapply Evolves_trans; [exact Ha|].
  eapply Evolves_trans; [|eapply Evolves_trans; [exact Ha0|]];
    apply Evolves_same; reflexivity.
Qed.

Lemma createInitialStats_StatsInv : StatsInv createInitialStats.
Proof. unfold StatsInv. simpl. repeat split; (reflexivity || lia). Qed.

Lemma reachable_Evolved (stored : Z) (r : Rng) (s : State) :
  reachable stored r s →
  StatsInv (stats s) ∧ (length (messages s) ≤ 4)%nat ∧ stored ≤ highScore s.
Proof.
  induction 1 as [|s e s' _ (IH1 & IH2 & IH3) Hstep].
  - unfold initialState.
    destruct (generateBag r) as [bag1 r1]. destruct (generateBag r1) as [bag2 r2].
    simpl. split; [apply createInitialStats_StatsInv|]. split; lia.
  - destruct (step_Evolves e s s' Hstep) as (A & B & C).
    split; [exact (A IH1)|]. split; [exact (B IH2) | lia].
Qed.

(** ** Pieces inside the board *)

Lemma inBounds_rotation (a : ActivePiece) :
  inBounds a → 0 ≤ rotation a < Z.of_nat (length (getRotations (ptype a))).
Proof.
  intros (m & Hm & _). unfold pieceMatrix, jsIndex in Hm.
  destruct (Z.ltb_spec (rotation a) 0); [discriminate|].
  apply lookup_lt_Some in Hm. lia.
Qed.

(** The matrix that [canPlace] looks at, for a shift of one rotation state
    at most. *)
Lemma candidateMatrix_Ok (a : ActivePiece) (shift : Z) :
  0 ≤ rotation a < Z.of_nat (length (getRotations (ptype a))) →
  -1 ≤ shift ≤ 1 →
  ∃ m, candidateMatrix a shift = Ok m ∧
       jsIndex (getRotations (ptype a))
         (Z.rem (rotation a + shift + Z.of_nat (length (getRotations (ptype a))))
                (Z.of_nat (length (getRotations (ptype a))))) = Some m.
Proof.
  intros Hr Hs. unfold candidateMatrix.
  set (len := Z.of_nat (length (getRotations (ptype a)))) in *.
  assert (Hrem : 0 ≤ Z.rem (rotation a + shift + len) len < len).
  { rewrite Z.rem_mod_nonneg by lia. apply Z.mod_pos_bound. lia. }
  destruct (jsIndex (getRotations (ptype a)) (Z.rem (rotation a + shift + len) len))
    as [m|] eqn:Hm; [exists m; split; reflexivity|].
  exfalso. unfold jsIndex in Hm.
  destruct (Z.ltb_spec (Z.rem (rotation a + shift + len) len) 0); [lia|].
  apply lookup_ge_None in Hm. unfold len in *. lia.
Qed.

Lemma candidateMatrix_zero (a : ActivePiece) (m : Matrix) :
  pieceMatrix a = Some m → candidateMatrix a 0 = Ok m.
Proof.
  intros Hm. unfold candidateMatrix.
  assert (Hr : 0 ≤ rotation a < Z.of_nat (length (getRotations (ptype a)))).
  { unfold pieceMatrix, jsIndex in Hm.
    destruct (Z.ltb_spec (rotation a) 0); [discriminate|].
    apply lookup_lt_Some in Hm. lia. }
  rewrite Z.add_0_r, Z.rem_mod_nonneg by lia.
  replace (rotation a + Z.of_nat (length (getRotations (ptype a))))
    with (rotation a + 1 * Z.of_nat (length (getRotations (ptype a)))) by lia.
  rewrite Z_mod_plus_full, Z.mod_small by lia.
  unfold pieceMatrix in Hm. rewrite Hm. reflexivity.
Qed.

(** What [canPlace] returning [true] says of every occupied cell. *)
Lemma canPlace_true_cells (b : Board) (a : ActivePiece) (offset : Position)
    (shift : Z) (m : Matrix) :
  (Z.to_nat BOARD_HEIGHT ≤ length b)%nat →
  candidateMatrix a shift = Ok m →
  canPlace b a offset shift = Ok true →
  ∀ yy xx : nat, shapeCell m yy xx = true →
    0 ≤ pos_x (position a) + Z.of_nat xx + pos_x offset < BOARD_WIDTH ∧
    pos_y (position a) + Z.of_nat yy + pos_y offset < BOARD_HEIGHT ∧
    (0 ≤ pos_y (position a) + Z.of_nat yy + pos_y offset →
     occupiedAt b (pos_y (position a) + Z.of_nat yy + pos_y offset)
                  (pos_x (position a) + Z.of_nat xx + pos_x offset) = false).
Proof.
  intros Hb Hm Hcp yy xx Hs.
  destruct (canPlaceRows_spec b a offset m Hb 0%nat) as (res & Hres & Hiff).
  unfold canPlace in Hcp. rewrite Hm in Hcp. simpl in Hcp.
  change (Z.of_nat 0) with 0 in Hres. rewrite Hres in Hcp. injection Hcp as ->.
  assert (Hnot : ¬ cellBlocked b a offset (Z.of_nat yy) (Z.of_nat xx)).
  { intros Hbad. assert (Hf : true = false); [|discriminate].
    apply Hiff. exists yy, xx. split; [exact Hs | exact Hbad]. }
  unfold cellBlocked in Hnot. simpl in Hnot.
  repeat split; try lia.
  intros Hy. destruct (occupiedAt b _ _) eqn:Hocc; [|reflexivity].
  exfalso. apply Hnot. right; right; right. split; [exact Hy | reflexivity].
Qed.

Lemma canPlace_total (b : Board) (a : ActivePiece) (offset : Position) (shift : Z) :
  (Z.to_nat BOARD_HEIGHT ≤ length b)%nat → inBounds a → -1 ≤ shift ≤ 1 →
  ∃ res, canPlace b a offset shift = Ok res.
Proof.
  intros Hb Ha Hs.
  destruct (candidateMatrix_Ok a shift (inBounds_rotation a Ha) Hs) as (m & Hm & _).
  destruct (canPlaceRows_spec b a offset m Hb 0%nat) as (res & Hres & _).
  exists res. unfold canPlace. rewrite Hm. exact Hres.
Qed.

(** A translation that [canPlace] accepts gives a piece inside the board. *)
Lemma canPlace_translate_inBounds (b : Board) (a : ActivePiece) (dx dy : Z) :
  (Z.to_nat BOARD_HEIGHT ≤ length b)%nat → inBounds a →
  canPlace b a (mkPosition dx dy) 0 = Ok true →
  inBounds (translate dx dy a).
Proof.
  intros Hb (m & Hm & _) Hcp. exists m. split; [exact Hm|].
  intros yy xx Hs.
  destruct (canPlace_true_cells b a (mkPosition dx dy) 0 m Hb
              (candidateMatrix_zero a m Hm) Hcp yy xx Hs) as (Hx & Hy & _).
  simpl in *. lia.
Qed.

(** A rotation with a kick that [canPlace] accepts gives a piece inside the
    board. *)
Lemma canPlace_rotated_inBounds (b : Board) (a : ActivePiece) (kick : Position)
    (dir : Direction) :
  (Z.to_nat BOARD_HEIGHT ≤ length b)%nat → inBounds a →
  canPlace b a kick (dirZ dir) = Ok true →
  inBounds (rotated (Z.rem (rotation a + dirZ dir
                            + Z.of_nat (length (getRotations (ptype a))))
                           (Z.of_nat (length (getRotations (ptype a))))) kick a).
Proof.
  intros Hb Ha Hcp.
  destruct (candidateMatrix_Ok a (dirZ dir) (inBounds_rotation a Ha))
    as (m & Hm & Hidx); [destruct dir; simpl; lia|].
  exists m. split; [exact Hidx|].
  intros yy xx Hs.
  destruct (canPlace_true_cells b a kick (dirZ dir) m Hb Hm Hcp yy xx Hs)
    as (Hx & Hy & _).
  simpl in *. lia.
Qed.

Lemma spawnAt_inBounds (t : TetrominoType) (p : ActivePiece) :
  spawnAt t = Ok p → inBounds p ∧ ¬ aboveBoard p.
Proof.
  intros Hp. destruct t; vm_compute in Hp; injection Hp as <-;
    (split;
     [eexists; split; [reflexivity|];
      intros [|[|[|[|yy]]]] [|[|[|[|xx]]]] Hs; vm_compute in Hs;
      try discriminate Hs;
      simpl; unfold BOARD_WIDTH, BOARD_HEIGHT; lia
     |intros (m & Hm & yy & xx & Hs & Hneg); injection Hm as <-;
      destruct yy as [|[|[|[|yy]]]]; destruct xx as [|[|[|[|xx]]]];
      vm_compute in Hs; try discriminate Hs; simpl in Hneg; lia]).
Qed.

(** ** The cells that a lock writes *)

Lemma boardCellAt_write (next : Board) (n bx : nat) (brow : Row) (cell : Cell)
    (r c : nat) :
  next !! n = Some brow → (bx < length brow)%nat →
  boardCellAt (<[n := <[bx := Some cell]> brow]> next) r c =
  if Nat.eqb r n && Nat.eqb c bx then Some (Some cell) else boardCellAt next r c.
Proof.
  intros Hn Hbx. unfold boardCellAt.
  destruct (Nat.eqb_spec r n) as [->|Hr]; simpl.
  - rewrite list_lookup_insert_eq by (apply lookup_lt_Some in Hn; exact Hn).
    rewrite Hn. simpl.
    destruct (Nat.eqb_spec c bx) as [->|Hc].
    + rewrite list_lookup_insert_eq by exact Hbx. reflexivity.
    + rewrite list_lookup_insert_ne by congruence. reflexivity.
  - rewrite list_lookup_insert_ne by congruence. reflexivity.
Qed.

Lemma wellFormed_write (next : Board) (n bx : nat) (brow : Row) (cell : Cell) :
  wellFormed next → next !! n = Some brow →
  wellFormed (<[n := <[bx := Some cell]> brow]> next).
Proof.
  intros [Hlen Hrows] Hn. split; [rewrite length_insert; exact Hlen|].
  apply Forall_insert; [exact Hrows|].
  rewrite length_insert. exact (Forall_lookup_1 _ _ _ _ Hrows Hn).
Qed.

Lemma rowCovers_nil (a : ActivePiece) (k c : nat) : rowCovers a [] k c = false.
Proof. unfold rowCovers, truthyAt. rewrite lookup_nil. apply andb_false_r. Qed.

Lemma rowCovers_cons (a : ActivePiece) (v : Z) (row : list Z) (k c : nat) :
  rowCovers a (v :: row) k c =
  ((Z.of_nat c =? pos_x (position a) + Z.of_nat k) && truthy v)
  || rowCovers a row (S k) c.
Proof.
  unfold rowCovers, truthyAt.
  destruct (Z.lt_trichotomy (Z.of_nat c) (pos_x (position a) + Z.of_nat k))
    as [Hlt|[Heq|Hgt]].
  - rewrite (proj2 (Z.leb_gt _ _)) by lia.
    rewrite (proj2 (Z.leb_gt (pos_x (position a) + Z.of_nat (S k)) _)) by lia.
    rewrite (proj2 (Z.eqb_neq _ _)) by lia. reflexivity.
  - rewrite (proj2 (Z.leb_le _ _)) by lia.
    rewrite (proj2 (Z.leb_gt (pos_x (position a) + Z.of_nat (S k)) _)) by lia.
    rewrite (proj2 (Z.eqb_eq _ _)) by lia.
    replace (Z.to_nat (Z.of_nat c - pos_x (position a) - Z.of_nat k)) with 0%nat by lia.
    cbn [lookup list_lookup andb orb]. destruct (truthy v); reflexivity.
  - rewrite (proj2 (Z.leb_le _ _)) by lia.
    rewrite (proj2 (Z.leb_le (pos_x (position a) + Z.of_nat (S k)) _)) by lia.
    rewrite (proj2 (Z.eqb_neq _ _)) by lia.
    replace (Z.to_nat (Z.of_nat c - pos_x (position a) - Z.of_nat k))
      with (S (Z.to_nat (Z.of_nat c - pos_x (position a) - Z.of_nat (S k)))) by lia.
    reflexivity.
Qed.

Lemma rowsCover_nil (a : ActivePiece) (y r c : nat) : rowsCover a [] y r c = false.
Proof. unfold rowsCover, shapeCell. rewrite lookup_nil. apply andb_false_r. Qed.

Lemma rowsCover_cons (a : ActivePiece) (row : list Z) (rows : Matrix) (y r c : nat) :
  rowsCover a (row :: rows) y r c =
  ((Z.of_nat r =? pos_y (position a) + Z.of_nat y) && rowCovers a row 0 c)
  || rowsCover a rows (S y) r c.
Proof.
  unfold rowsCover, rowCovers, shapeCell, truthyAt.
  change (Z.of_nat 0) with 0. rewrite Z.add_0_r, Z.sub_0_r.
  destruct (Z.lt_trichotomy (Z.of_nat r) (pos_y (position a) + Z.of_nat y))
    as [Hlt|[Heq|Hgt]].
  - rewrite (proj2 (Z.leb_gt _ (Z.of_nat r))) by lia.
    rewrite (proj2 (Z.leb_gt (pos_y (position a) + Z.of_nat (S y)) _)) by lia.
    rewrite (proj2 (Z.eqb_neq (Z.of_nat r) _)) by lia. reflexivity.
  - rewrite (proj2 (Z.leb_le _ (Z.of_nat r))) by lia.
    rewrite (proj2 (Z.leb_gt (pos_y (position a) + Z.of_nat (S y)) _)) by lia.
    rewrite (proj2 (Z.eqb_eq (Z.of_nat r) _)) by lia.
    replace (Z.to_nat (Z.of_nat r - pos_y (position a) - Z.of_nat y)) with 0%nat by lia.
    cbn [lookup list_lookup andb orb]. rewrite orb_false_r. reflexivity.
  - rewrite (proj2 (Z.leb_le _ (Z.of_nat r))) by lia.
    rewrite (proj2 (Z.leb_le (pos_y (position a) + Z.of_nat (S y)) _)) by lia.
    rewrite (proj2 (Z.eqb_neq (Z.of_nat r) _)) by lia.
    replace (Z.to_nat (Z.of_nat r - pos_y (position a) - Z.of_nat y))
      with (S (Z.to_nat (Z.of_nat r - pos_y (position a) - Z.of_nat (S y)))) by lia.
    reflexivity.
Qed.

Lemma rowsCover_coveredBy (a : ActivePiece) (m : Matrix) (r c : nat) :
  rowsCover a m 0 r c = coveredBy a m r c.
Proof.
  unfold rowsCover, coveredBy. rewrite Z.add_0_r, Z.sub_0_r. reflexivity.
Qed.

(** The inner loop of the lock on a 20 by 10 board, for a matrix row whose
    occupied cells are inside the columns and above the floor. *)
Lemma lockRow_spec (piece : ActivePiece) (y : nat) (row : list Z) :
  pos_y (position piece) + Z.of_nat y < BOARD_HEIGHT →
  ∀ (k : nat) (next : Board),
    wellFormed next →
    (∀ i v, row !! i = Some v → truthy v = true →
            0 ≤ pos_x (position piece) + Z.of_nat (k + i) < BOARD_WIDTH) →
    ∃ res, lockRow piece (Z.of_nat y) row (Z.of_nat k) next = Ok res ∧
      match res with
      | None => pos_y (position piece) + Z.of_nat y < 0
      | Some next' =>
          wellFormed next' ∧
          ∀ r c, boardCellAt next' r c =
                 if (Z.of_nat r =? pos_y (position piece) + Z.of_nat y)
                    && rowCovers piece row k c
                 then Some (Some (mkCell (ptype piece) None None))
                 else boardCellAt next r c
      end.
Proof.
  intros Hfloor. induction row as [|v row IH]; intros k next Hwf Hcols.
  - exists (Some next). split; [reflexivity|]. split; [exact Hwf|].
    intros r c. rewrite rowCovers_nil, andb_false_r. reflexivity.
  - assert (Hcols' : ∀ i v0, row !! i = Some v0 → truthy v0 = true →
              0 ≤ pos_x (position piece) + Z.of_nat (S k + i) < BOARD_WIDTH).
    { intros i v0 Hi Hv0. specialize (Hcols (S i) v0 Hi Hv0).
      replace (S k + i)%nat with (k + S i)%nat by lia. exact Hcols. }
    simpl. replace (Z.of_nat k + 1) with (Z.of_nat (S k)) by lia.
    destruct (truthy v) eqn:Hv.
    + destruct (Z.ltb_spec (pos_y (position piece) + Z.of_nat y) 0) as [Hneg|Hpos].
      { exists None. split; [reflexivity | exact Hneg]. }
      specialize (Hcols 0%nat v eq_refl Hv).
      replace (k + 0)%nat with k in Hcols by lia.
      destruct Hwf as [Hlen Hrows].
      destruct (lookup_lt_is_Some_2 next (Z.to_nat (pos_y (position piece) + Z.of_nat y)))
        as [brow Hbrow]; [unfold BOARD_HEIGHT in *; lia|].
      assert (Hbl : length brow = Z.to_nat BOARD_WIDTH).
      { exact (Forall_lookup_1 _ _ _ _ Hrows Hbrow). }
      rewrite Hbrow.
      assert (Hw : writeCell brow (pos_x (position piece) + Z.of_nat k)
                     (mkCell (ptype piece) None None) =
                   <[Z.to_nat (pos_x (position piece) + Z.of_nat k) :=
                       Some (mkCell (ptype piece) None None)]> brow).
      { unfold writeCell.
        destruct (Z.ltb_spec (pos_x (position piece) + Z.of_nat k) 0); [lia|].
        destruct (Nat.ltb_spec (Z.to_nat (pos_x (position piece) + Z.of_nat k))
                    (length brow)); [reflexivity|].
        unfold BOARD_WIDTH in *. lia. }
      rewrite Hw.
      assert (Hwf1 : wellFormed
                (<[Z.to_nat (pos_y (position piece) + Z.of_nat y) :=
                     <[Z.to_nat (pos_x (position piece) + Z.of_nat k) :=
                         Some (mkCell (ptype piece) None None)]> brow]> next)).
      { apply wellFormed_write; [split; assumption | exact Hbrow]. }
      destruct (IH (S k) _ Hwf1 Hcols') as (res & Hres & Hspec).
      exists res. split; [exact Hres|].
      destruct res as [next'|]; [|exact Hspec].
      destruct Hspec as [Hwf' Hchar]. split; [exact Hwf'|].
      intros r c. rewrite Hchar, rowCovers_cons, Hv, andb_true_r.
      rewrite boardCellAt_write
        by (try exact Hbrow; rewrite Hbl; unfold BOARD_WIDTH in *; lia).
      destruct (Z.eqb_spec (Z.of_nat r) (pos_y (position piece) + Z.of_nat y))
        as [Hr|Hr]; simpl.
      * destruct (rowCovers piece row (S k) c); [rewrite orb_true_r; reflexivity|].
        rewrite orb_false_r.
        destruct (Nat.eqb_spec r (Z.to_nat (pos_y (position piece) + Z.of_nat y)));
          [|lia]. simpl.
        destruct (Z.eqb_spec (Z.of_nat c) (pos_x (position piece) + Z.of_nat k));
          destruct (Nat.eqb_spec c (Z.to_nat (pos_x (position piece) + Z.of_nat k)));
          (reflexivity || lia).
      * destruct (Nat.eqb_spec r (Z.to_nat (pos_y (position piece) + Z.of_nat y)));
          [lia | reflexivity].
    + destruct (IH (S k) next Hwf Hcols') as (res & Hres & Hspec).
      exists res. split; [exact Hres|].
      destruct res as [next'|]; [|exact Hspec].
      destruct Hspec as [Hwf' Hchar]. split; [exact Hwf'|].
      intros r c. rewrite Hchar, rowCovers_cons, Hv, andb_false_r. reflexivity.
Qed.

(** The outer loop of the lock, from matrix row [y]. *)
Lemma lockRows_spec (piece : ActivePiece) (rows : Matrix) :
  ∀ (y : nat) (next : Board),
    wellFormed next →
    (∀ yy xx : nat, shapeCell rows yy xx = true →
       0 ≤ pos_x (position piece) + Z.of_nat xx < BOARD_WIDTH ∧
       pos_y (position piece) + Z.of_nat (y + yy) < BOARD_HEIGHT) →
    ∃ res, lockRows piece rows (Z.of_nat y) next = Ok res ∧
      match res with
      | None => ∃ yy xx : nat, shapeCell rows yy xx = true ∧
                               pos_y (position piece) + Z.of_nat (y + yy) < 0
      | Some next' =>
          wellFormed next' ∧
          ∀ r c, boardCellAt next' r c =
                 if rowsCover piece rows y r c
                 then Some (Some (mkCell (ptype piece) None None))
                 else boardCellAt next r c
      end.
Proof.
  induction rows as [|row rows IH]; intros y next Hwf Hcells.
  - exists (Some next). split; [reflexivity|]. split; [exact Hwf|].
    intros r c. rewrite rowsCover_nil. reflexivity.
  - simpl. replace (Z.of_nat y + 1) with (Z.of_nat (S y)) by lia.
    assert (Hcells' : ∀ yy xx : nat, shapeCell rows yy xx = true →
              0 ≤ pos_x (position piece) + Z.of_nat xx < BOARD_WIDTH ∧
              pos_y (position piece) + Z.of_nat (S y + yy) < BOARD_HEIGHT).
    { intros yy xx Hs. specialize (Hcells (S yy) xx Hs).
      replace (S y + yy)%nat with (y + S yy)%nat by lia. exact Hcells. }
    destruct (existsb truthy row) eqn:Hany.
    + (* the row has an occupied cell *)
      apply existsb_exists in Hany as (v & Hin & Hv).
      apply list_elem_of_In, list_elem_of_lookup_1 in Hin as [i Hi].
      assert (Hs0 : shapeCell (row :: rows) 0 i = true).
      { unfold shapeCell. simpl. rewrite Hi. exact Hv. }
      pose proof (Hcells 0%nat i Hs0) as [_ Hfloor].
      replace (y + 0)%nat with y in Hfloor by lia.
      destruct (lockRow_spec piece y row Hfloor 0%nat next Hwf) as (res0 & Hres0 & Hspec0).
      { intros j w Hj Hw. simpl.
        assert (Hsj : shapeCell (row :: rows) 0 j = true).
        { unfold shapeCell. simpl. rewrite Hj. exact Hw. }
        exact (proj1 (Hcells 0%nat j Hsj)). }
      change (Z.of_nat 0) with 0 in Hres0. rewrite Hres0. simpl.
      destruct res0 as [next1|].
      * destruct Hspec0 as [Hwf1 Hchar1].
        destruct (IH (S y) next1 Hwf1 Hcells') as (res & Hres & Hspec).
        exists res. split; [exact Hres|].
        destruct res as [next'|].
        -- destruct Hspec as [Hwf' Hchar]. split; [exact Hwf'|].
           intros r c. rewrite Hchar, Hchar1, rowsCover_cons.
           destruct (rowsCover piece rows (S y) r c); [rewrite orb_true_r; reflexivity|].
           rewrite orb_false_r. reflexivity.
        -- destruct Hspec as (yy & xx & Hs & Hneg). exists (S yy), xx.
           split; [exact Hs|]. replace (y + S yy)%nat with (S y + yy)%nat by lia.
           exact Hneg.
      * exists None. split; [reflexivity|]. exists 0%nat, i.
        split; [exact Hs0|]. replace (y + 0)%nat with y by lia. exact Hspec0.
    + (* the row is empty: the inner loop writes nothing *)
      assert (Hnone : ∀ c, rowCovers piece row 0 c = false).
      { intros c. unfold rowCovers, truthyAt.
        destruct (row !! _) as [v|] eqn:Hv; [|apply andb_false_r].
        assert (Hf : truthy v = false).
        { destruct (truthy v) eqn:Ht; [|reflexivity].
          assert (Hex : existsb truthy row = true); [|congruence].
          apply existsb_exists. exists v. split; [|exact Ht].
          apply list_elem_of_In. eapply list_elem_of_lookup_2. exact Hv. }
        rewrite Hf. apply andb_false_r. }
      assert (Hrow : ∀ k next0, lockRow piece (Z.of_nat y) row k next0 = Ok (Some next0)).
      { clear - Hany. induction row as [|v row IHr]; intros k next0; [reflexivity|].
        simpl in Hany. apply orb_false_elim in Hany as [Hv Hrest].
        simpl. rewrite Hv. apply IHr. exact Hrest. }
      rewrite Hrow. simpl.
      destruct (IH (S y) next Hwf Hcells') as (res & Hres & Hspec).
      exists res. split; [exact Hres|].
      destruct res as [next'|].
      * destruct Hspec as [Hwf' Hchar]. split; [exact Hwf'|].
        intros r c. rewrite Hchar, rowsCover_cons, Hnone, andb_false_r. reflexivity.
      * destruct Hspec as (yy & xx & Hs & Hneg). exists (S yy), xx.
        split; [exact Hs|]. replace (y + S yy)%nat with (S y + yy)%nat by lia.
        exact Hneg.
Qed.

(** [clearLines] on a 20 by 10 board: the result is 20 by 10 and has no
    full row, and the count is the number of full rows. *)
Lemma clearLines_wf (b : Board) :
  wellFormed b →
  wellFormed (clearLines b).1 ∧ noFullRow (clearLines b).1 ∧
  (clearLines b).2 = Z.of_nat (length (List.filter fullRow b)).
Proof.
  intros [Hlen Hrows]. unfold clearLines.
  rewrite filter_hasEmptyCell.
  pose proof (filter_split_length fullRow b) as Hsplit.
  assert (Hkept : noFullRow (List.filter (fun row => negb (fullRow row)) b)).
  { unfold noFullRow. clear. induction b as [|row b IH]; simpl; [constructor|].
    destruct (fullRow row) eqn:Hf; simpl; [exact IH|].
    constructor; [exact Hf | exact IH]. }
  set (kept := List.filter (fun row => negb (fullRow row)) b) in *.
  set (full := List.filter fullRow b) in *.
  assert (Hk : BOARD_HEIGHT - Z.of_nat (length kept) = Z.of_nat (length full)).
  { unfold BOARD_HEIGHT in *. lia. }
  rewrite Hk.
  destruct (Z.eqb_spec (Z.of_nat (length full)) 0) as [H0|H0]; simpl.
  - assert (Hb : kept = b) by (apply filter_all; fold kept; lia).
    split; [split; assumption|]. split; [rewrite <- Hb; exact Hkept | lia].
  - rewrite Nat2Z.id. split; [split|split; [|reflexivity]].
    + rewrite length_app, length_replicate. lia.
    + apply Forall_app. split.
      * apply Forall_replicate. unfold emptyRow. apply length_replicate.
      * apply Forall_filter_keep. exact Hrows.
    + apply Forall_app. split; [|exact Hkept].
      apply Forall_replicate. reflexivity.
Qed.

(** Rows that satisfy [f] only at indices of a window are no more than the
    window is wide. *)
Lemma filter_window {A : Type} (f : A → bool) (l : list A) :
  ∀ lo hi : Z,
    (∀ (r : nat) (x : A), l !! r = Some x → f x = true → lo ≤ Z.of_nat r < hi) →
    Z.of_nat (length (List.filter f l)) ≤ Z.max 0 (hi - Z.max lo 0).
Proof.
  induction l as [|x l IH]; intros lo hi Hwin; simpl; [lia|].
  destruct (f x) eqn:Hx; simpl.
  - pose proof (Hwin 0%nat x eq_refl Hx) as H0.
    assert (Hl : ∀ (r : nat) (x0 : A), l !! r = Some x0 → f x0 = true →
                   0 ≤ Z.of_nat r < hi - 1).
    { intros r x0 Hr Hf. specialize (Hwin (S r) x0 Hr Hf). lia. }
    specialize (IH 0 (hi - 1) Hl). lia.
  - assert (Hl : ∀ (r : nat) (x0 : A), l !! r = Some x0 → f x0 = true →
                   lo - 1 ≤ Z.of_nat r < hi - 1).
    { intros r x0 Hr Hf. specialize (Hwin (S r) x0 Hr Hf). lia. }
    specialize (IH (lo - 1) (hi - 1) Hl). lia.
Qed.

Lemma table_rows (a : ActivePiece) (m : Matrix) :
  pieceMatrix a = Some m → (length m ≤ 4)%nat.
Proof.
  unfold pieceMatrix, jsIndex. destruct (rotation a <? 0); [discriminate|].
  destruct (ptype a); simpl;
    destruct (Z.to_nat (rotation a)) as [|[|[|[|n]]]]; simpl;
    intros H; try discriminate H; injection H as <-; simpl; lia.
Qed.

Lemma row_eq_of_cells (b b' : Board) (r : nat) (row row' : Row) :
  wellFormed b → wellFormed b' →
  b !! r = Some row → b' !! r = Some row' →
  (∀ c, boardCellAt b' r c = boardCellAt b r c) → row' = row.
Proof.
  intros [_ Hrows] [_ Hrows'] Hr Hr' Hcells.
  apply list_eq. intros c. specialize (Hcells c).
  unfold boardCellAt in Hcells. rewrite Hr, Hr' in Hcells. exact Hcells.
Qed.

(** Only rows that the piece touches can be full after the writes of a
    lock. *)
Lemma lock_full_rows (piece : ActivePiece) (m : Matrix) (prev next : Board) :
  wellFormed prev → noFullRow prev → wellFormed next →
  (∀ r c, boardCellAt next r c =
          if rowsCover piece m 0 r c
          then Some (Some (mkCell (ptype piece) None None))
          else boardCellAt prev r c) →
  Z.of_nat (length (List.filter fullRow next)) ≤ Z.of_nat (length m).
Proof.
  intros Hwf Hnf Hwf' Hchar.
  pose proof (filter_window fullRow next (pos_y (position piece))
                (pos_y (position piece) + Z.of_nat (length m))) as Hwin.
  assert (Hin : ∀ (r : nat) (row' : Row), next !! r = Some row' → fullRow row' = true →
            pos_y (position piece) ≤ Z.of_nat r
            < pos_y (position piece) + Z.of_nat (length m)).
  { intros r row' Hr' Hfull.
    destruct (Z.le_gt_cases (pos_y (position piece)) (Z.of_nat r)) as [Hlo|Hlo];
      [destruct (Z.lt_ge_cases (Z.of_nat r)
                   (pos_y (position piece) + Z.of_nat (length m))) as [Hhi|Hhi];
       [lia|]|];
      exfalso.
    - (* below the shape *)
      destruct (lookup_lt_is_Some_2 prev r) as [row Hr].
      { destruct Hwf as [Hl _], Hwf' as [Hl' _]. apply lookup_lt_Some in Hr'. lia. }
      assert (Heq : row' = row).
      { apply (row_eq_of_cells prev next r row row' Hwf Hwf' Hr Hr').
        intros c. rewrite Hchar. unfold rowsCover, shapeCell.
        rewrite lookup_ge_None_2 by lia. rewrite andb_false_r. reflexivity. }
      subst row'. pose proof (Forall_lookup_1 _ _ _ _ Hnf Hr) as Hnot.
      simpl in Hnot. congruence.
    - (* above the shape *)
      destruct (lookup_lt_is_Some_2 prev r) as [row Hr].
      { destruct Hwf as [Hl _], Hwf' as [Hl' _]. apply lookup_lt_Some in Hr'. lia. }
      assert (Heq : row' = row).
      { apply (row_eq_of_cells prev next r row row' Hwf Hwf' Hr Hr').
        intros c. rewrite Hchar. unfold rowsCover.
        rewrite (proj2 (Z.leb_gt _ _)) by lia. reflexivity. }
      subst row'. pose proof (Forall_lookup_1 _ _ _ _ Hnf Hr) as Hnot.
      simpl in Hnot. congruence. }
  specialize (Hwin Hin). lia.
Qed.

(** The [setBoard] updater of [finalizeLock] on a 20 by 10 board without a
    full row, for a piece inside the board. *)
Lemma lockBoard_spec (piece : ActivePiece) (m : Matrix) (prev : Board) :
  wellFormed prev → noFullRow prev →
  pieceMatrix piece = Some m →
  (∀ yy xx : nat, shapeCell m yy xx = true →
     0 ≤ pos_x (position piece) + Z.of_nat xx < BOARD_WIDTH ∧
     pos_y (position piece) + Z.of_nat yy < BOARD_HEIGHT) →
  ∃ b k over,
    lockBoard piece prev = Ok (b, k, over) ∧
    wellFormed b ∧ noFullRow b ∧ 0 ≤ k ≤ 4 ∧
    (over = true → aboveBoard piece ∧ b = prev ∧ k = 0) ∧
    (over = false →
     ¬ aboveBoard piece ∧
     ∃ next, clearLines next = (b, k) ∧ wellFormed next ∧
             ∀ r c, boardCellAt next r c =
                    if coveredBy piece m r c
                    then Some (Some (mkCell (ptype piece) None None))
                    else boardCellAt prev r c).
Proof.
  intros Hwf Hnf Hm Hcells. unfold lockBoard.
  unfold pieceMatrix in Hm. rewrite Hm.
  destruct (lockRows_spec piece m 0%nat prev Hwf) as (res & Hres & Hspec).
  { intros yy xx Hs. simpl. exact (Hcells yy xx Hs). }
  change (Z.of_nat 0) with 0 in Hres. rewrite Hres. simpl.
  destruct res as [next|].
  - destruct Hspec as [Hwf' Hchar].
    destruct (clearLines_wf next Hwf') as (Hwfc & Hnfc & Hk).
    pose proof (lock_full_rows piece m prev next Hwf Hnf Hwf' Hchar) as Hle.
    pose proof (table_rows piece m Hm) as H4.
    destruct (clearLines next) as [b k] eqn:Hcl. simpl in *.
    exists b, k, false. split; [reflexivity|].
    split; [exact Hwfc|]. split; [exact Hnfc|]. split; [lia|].
    split; [discriminate|]. intros _. split.
    + intros (m' & Hm' & yy & xx & Hs & Hneg).
      unfold pieceMatrix in Hm'. rewrite Hm in Hm'. injection Hm' as <-.
      assert (Hnone : lockRows piece m (Z.of_nat 0) prev = Ok None).
      { apply lockRows_above. exists yy, xx. split; [exact Hs | simpl; lia]. }
      change (Z.of_nat 0) with 0 in Hnone. congruence.
    + exists next. split; [exact Hcl|]. split; [exact Hwf'|].
      intros r c. rewrite Hchar, rowsCover_coveredBy. reflexivity.
  - exists prev, 0, true. split; [reflexivity|].
    split; [exact Hwf|]. split; [exact Hnf|]. split; [lia|].
    split; [|discriminate]. intros _. split; [|split; reflexivity].
    destruct Hspec as (yy & xx & Hs & Hneg).
    exists m. split; [exact Hm|]. exists yy, xx. split; [exact Hs|].
    simpl in Hneg. exact Hneg.
Qed.

(** ** Every handler returns and keeps the state well formed *)

Lemma Good_frame (s s' : State) :
  Good s →
  board s' = board s → timers s' = timers s →
  cleared (stats s') = cleared (stats s) → lines (stats s') = lines (stats s) →
  queue s' = queue s →
  (∀ a, active s' = Some a → inBounds a) →
  Good s'.
Proof.
  intros ((Hwf & Hnf & _ & Ht) & (c1 & c2 & c3 & c4 & Hc & Hrest) & Hq)
    Hb Hts Hcl Hl Hqq Ha.
  unfold Good, Safe, LinesSum. rewrite Hb, Hts, Hcl, Hl, Hqq.
  split; [split; [|split; [|split]]; assumption|]. split; [|exact Hq].
  exists c1, c2, c3, c4. split; [exact Hc | exact Hrest].
Qed.

Lemma Good_active (s : State) (a : ActivePiece) : Good s → active s = Some a → inBounds a.
Proof. intros ((_ & _ & Ha & _) & _) Hact. exact (Ha a Hact). Qed.

Lemma Good_board (s : State) : Good s → (Z.to_nat BOARD_HEIGHT ≤ length (board s))%nat.
Proof. intros (((Hlen & _) & _) & _). lia. Qed.

Lemma clearTimeout_Good (id : nat) (s : State) : Good s → Good (clearTimeout id s).
Proof.
  intros ((Hwf & Hnf & Ha & Ht) & Hl & Hq).
  unfold Good, Safe, clearTimeout. simpl.
  split; [|split; assumption].
  split; [|split; [|split]]; try assumption.
  clear - Ht. induction Ht as [|t ts Hx _ IH]; simpl; [constructor|].
  destruct (negb (fst t =? id)%nat); [constructor; assumption | exact IH].
Qed.

Lemma cancelLockTimeout_Good (s : State) : Good s → Good (cancelLockTimeout s).
Proof.
  intros Hg. unfold cancelLockTimeout. destruct (lockTimeout s) as [id|]; [|exact Hg].
  apply clearTimeout_Good with (id := id) in Hg.
  eapply Good_frame; [exact Hg | reflexivity..|].
  intros a Hact. exact (Good_active _ a Hg Hact).
Qed.

Lemma cancelLockTimeout_active (s : State) : active (cancelLockTimeout s) = active s.
Proof. unfold cancelLockTimeout. destruct (lockTimeout s); reflexivity. Qed.

Lemma cancelLockTimeout_board (s : State) : board (cancelLockTimeout s) = board s.
Proof. unfold cancelLockTimeout. destruct (lockTimeout s); reflexivity. Qed.

Lemma LinesSum_clearStats (k : Z) (st : GameStats) :
  1 ≤ k ≤ 4 → LinesSum st → LinesSum (clearStats k st).
Proof.
  intros Hk (c1 & c2 & c3 & c4 & Hc & H1 & H2 & H3 & H4 & Hl).
  unfold LinesSum, clearStats. simpl. rewrite Hc, Hl.
  assert (Hcases : k = 1 ∨ k = 2 ∨ k = 3 ∨ k = 4) by lia.
  destruct Hcases as [-> | [-> | [-> | ->]]]; simpl;
    eexists _, _, _, _; (split; [reflexivity|]); repeat split; lia.
Qed.

(** [finalizeLock] of a piece inside the board returns; no piece is active
    after it, the status is that of before and a spawn is asked for. *)
Lemma finalizeLock_Good (piece : ActivePiece) (s : State) :
  Good s → inBounds piece →
  ∃ s', finalizeLock piece s = Ok s' ∧ Good s' ∧ active s' = None ∧
        status s' = status s ∧
        pendingSpawns s' = pendingSpawns s ++ [None] ∧
        (aboveBoard piece → board s' = board s).
Proof.
  intros Hg (m & Hm & Hcells).
  pose proof Hg as ((Hwf & Hnf & Ha & Ht) & Hl & Hq).
  destruct (lockBoard_spec piece m (board s) Hwf Hnf Hm Hcells)
    as (b & k & over & Hlock & Hwfb & Hnfb & Hk & Hover & Hnot).
  rewrite finalizeLock_eq, Hlock. simpl.
  eexists. split; [reflexivity|]. split; [|split; [reflexivity|]].
  - destruct Hl as (c1 & c2 & c3 & c4 & Hc & Hrest).
    unfold Good, Safe, LinesSum. simpl.
    split; [split; [|split; [|split]]; (assumption || discriminate)|]. split; [|exact Hq].
    exists c1, c2, c3, c4. split; [exact Hc | exact Hrest].
  - split; [reflexivity|]. split; [reflexivity|].
    intros Habove. simpl. destruct over.
    + destruct (Hover eq_refl) as (_ & Hb & _). exact Hb.
    + destruct (Hnot eq_refl) as (Hn & _). contradiction.
Qed.

Lemma dropPiece_Good (soft : bool) (s : State) :
  Good s → ∃ s', dropPiece soft false s = Ok s' ∧ Good s' ∧
                 pendingSpawns s' = pendingSpawns s.
Proof.
  intros Hg. unfold dropPiece.
  destruct (active s) as [a|] eqn:Hact; [|exists s; split; [reflexivity | split; [assumption | reflexivity]]].
  destruct (decide (status s = playing)); [|exists s; split; [reflexivity | split; [assumption | reflexivity]]].
  pose proof (Good_active s a Hg Hact) as Ha.
  destruct (canPlace_total (board s) a (mkPosition 0 1) 0 (Good_board s Hg) Ha ltac:(lia))
    as (res & Hres).
  rewrite Hres. simpl. destruct res.
  - eexists. split; [reflexivity|]. split; [|destruct soft; reflexivity].
    apply (Good_frame s); [exact Hg | destruct soft; reflexivity..|].
    intros a' Ha'.
    assert (Heq : a' = translate 0 1 a) by (destruct soft; simpl in Ha'; congruence).
    subst a'. exact (canPlace_translate_inBounds (board s) a 0 1 (Good_board s Hg) Ha Hres).
  - eexists. split; [reflexivity|]. split; [|destruct (lockTimeout s); reflexivity].
    assert (Hg1 : Good (match lockTimeout s with
                        | Some id => clearTimeout id s
                        | None => s
                        end)).
    { destruct (lockTimeout s); [apply clearTimeout_Good|]; exact Hg. }
    set (s1 := match lockTimeout s with Some id => clearTimeout id s | None => s end) in *.
    destruct Hg1 as ((Hwf & Hnf & Ha1 & Ht) & Hl & Hq).
    unfold Good, Safe, armLockTimeout. simpl.
    split; [|split; assumption].
    split; [|split; [|split]]; try assumption.
    apply Forall_app. split; [exact Ht|]. constructor; [exact Hwf | constructor].
Qed.

Lemma find_timer_wf (id : nat) (ts : list (nat * Board)) (t : nat * Board) :
  Forall (fun t : nat * Board => wellFormed t.2) ts →
  List.find (fun t : nat * Board => Nat.eqb (fst t) id) ts = Some t →
  wellFormed t.2.
Proof.
  intros Hts Hfind. apply List.find_some in Hfind as [Hin _].
  rewrite Forall_forall in Hts. apply Hts. apply list_elem_of_In. exact Hin.
Qed.

Lemma lockTimerFire_Good (id : nat) (s : State) :
  Good s → ∃ s', lockTimerFire id s = Ok s' ∧ Good s' ∧
                 (pendingSpawns s' = pendingSpawns s ∨ active s' = None).
Proof.
  intros Hg. unfold lockTimerFire.
  destruct (List.find _ (timers s)) as [[i cb]|] eqn:Hfind;
    [|exists s; split; [reflexivity | split; [assumption | left; reflexivity]]].
  assert (Hcb : wellFormed cb).
  { destruct Hg as ((_ & _ & _ & Ht) & _). exact (find_timer_wf id _ _ Ht Hfind). }
  pose proof (clearTimeout_Good id s Hg) as Hg1.
  change (active (clearTimeout id s)) with (active s).
  change (status (clearTimeout id s)) with (status s).
  destruct (active s) as [a|] eqn:Hact;
    [|eexists; split; [reflexivity|]; split; [exact Hg1 | left; reflexivity]].
  destruct (decide (status s = playing));
    [|eexists; split; [reflexivity|]; split; [exact Hg1 | left; reflexivity]].
  pose proof (Good_active s a Hg Hact) as Ha.
  destruct (canPlace_total cb a (mkPosition 0 1) 0) as (res & Hres);
    [destruct Hcb as [Hl _]; lia | exact Ha | lia |].
  rewrite Hres. simpl. destruct res;
    [eexists; split; [reflexivity|]; split; [exact Hg1 | left; reflexivity]|].
  destruct (finalizeLock_Good a (clearTimeout id s) Hg1 Ha)
    as (s' & Hs' & Hg' & Hnone & _).
  exists s'. split; [exact Hs'|]. split; [exact Hg' | right; exact Hnone].
Qed.

(** The loop of [hardDrop] ends within the rows that are left to the
    floor, at a piece that is inside the board. *)
Lemma descend_Good (b : Board) (a : ActivePiece) (fuel : nat) :
  (Z.to_nat BOARD_HEIGHT ≤ length b)%nat → inBounds a →
  (Z.to_nat (BOARD_HEIGHT - pos_y (position a)) < fuel)%nat →
  ∃ d : nat,
    descend fuel b a 0 = Ok (translate 0 (Z.of_nat d) a, Z.of_nat d) ∧
    inBounds (translate 0 (Z.of_nat d) a) ∧
    (∀ k, 1 ≤ k ≤ Z.of_nat d → canPlace b a (mkPosition 0 k) 0 = Ok true) ∧
    canPlace b a (mkPosition 0 (Z.of_nat d + 1)) 0 = Ok false.
Proof.
  intros Hb Ha Hfuel.
  destruct (table_shape a (inBounds_rotation a Ha)) as (m & Hm & _ & Hcell).
  apply hasCell_shapeCell in Hcell as (yy0 & xx0 & Hcell).
  set (n := Z.to_nat (BOARD_HEIGHT - pos_y (position a) - Z.of_nat yy0 - 1)).
  destruct (descend_total b a m yy0 xx0 Hb Hm Hcell n 0%nat)
    as (d & Hd & Hbefore & Hstop & Hrun); [unfold n; lia|].
  exists d. simpl in *.
  specialize (Hrun fuel 0 ltac:(unfold n in *; lia)).
  change (Z.of_nat 0) with 0 in Hrun. rewrite translate_zero in Hrun.
  split; [exact Hrun|]. split; [|split; [intros k Hk; apply Hbefore; lia | exact Hstop]].
  destruct d as [|d]; [change (Z.of_nat 0) with 0; rewrite translate_zero; exact Ha|].
  apply (canPlace_translate_inBounds b a 0 (Z.of_nat (S d)) Hb Ha).
  apply Hbefore. lia.
Qed.

Lemma hardDrop_Good (fuel : nat) (s : State) :
  Good s →
  (∀ a, active s = Some a →
        (Z.to_nat (BOARD_HEIGHT - pos_y (position a)) < fuel)%nat) →
  ∃ s', hardDrop fuel s = Ok s' ∧ Good s' ∧
        (pendingSpawns s' = pendingSpawns s ∨ active s' = None).
Proof.
  intros Hg Hfuel. unfold hardDrop.
  destruct (active s) as [a|] eqn:Hact;
    [|exists s; split; [reflexivity | split; [assumption | left; reflexivity]]].
  destruct (decide (status s = playing));
    [|exists s; split; [reflexivity | split; [assumption | left; reflexivity]]].
  pose proof (Good_active s a Hg Hact) as Ha.
  destruct (descend_Good (board s) a fuel (Good_board s Hg) Ha (Hfuel a eq_refl))
    as (d & Hd & Hin & _).
  rewrite Hd. simpl.
  assert (Hg1 : Good (addMessage "Hyper Drop!"
                        (setStats (hardDropStats (Z.of_nat d)) s))).
  { apply (Good_frame s); [exact Hg | reflexivity..|].
    intros a' Ha'. simpl in Ha'. exact (Good_active s a' Hg Ha'). }
  destruct (finalizeLock_Good _ _ Hg1 Hin) as (s' & Hs' & Hg' & Hnone & _).
  exists s'. split; [exact Hs'|]. split; [exact Hg' | right; exact Hnone].
Qed.

Lemma movePiece_Good (dir : Direction) (s : State) :
  Good s → ∃ s', movePiece dir s = Ok s' ∧ Good s' ∧
                 pendingSpawns s' = pendingSpawns s.
Proof.
  intros Hg. unfold movePiece.
  destruct (active s) as [a|] eqn:Hact; [|exists s; split; [reflexivity | split; [assumption | reflexivity]]].
  destruct (decide (status s = playing)); [|exists s; split; [reflexivity | split; [assumption | reflexivity]]].
  pose proof (Good_active s a Hg Hact) as Ha.
  destruct (canPlace_total (board s) a (mkPosition (dirZ dir) 0) 0
              (Good_board s Hg) Ha ltac:(lia)) as (res & Hres).
  rewrite Hres. simpl. destruct res; [|exists s; split; [reflexivity | split; [assumption | reflexivity]]].
  eexists. split; [reflexivity|].
  split; [|unfold cancelLockTimeout; simpl; destruct (lockTimeout s); reflexivity].
  apply cancelLockTimeout_Good. apply (Good_frame s); [exact Hg | reflexivity..|].
  intros a' Ha'. simpl in Ha'. injection Ha' as <-.
  exact (canPlace_translate_inBounds (board s) a (dirZ dir) 0 (Good_board s Hg) Ha Hres).
Qed.

Lemma tryKicks_Good (a : ActivePiece) (dir : Direction) (s : State)
    (ks : list Position) :
  Good s → active s = Some a →
  ∃ s', tryKicks a dir
          (Z.rem (rotation a + dirZ dir + Z.of_nat (length (getRotations (ptype a))))
                 (Z.of_nat (length (getRotations (ptype a))))) ks s = Ok s' ∧
        Good s' ∧ pendingSpawns s' = pendingSpawns s.
Proof.
  intros Hg Hact. pose proof (Good_active s a Hg Hact) as Ha.
  induction ks as [|kick ks IH]; simpl; [exists s; split; [reflexivity | split; [assumption | reflexivity]]|].
  destruct (canPlace_total (board s) a kick (dirZ dir) (Good_board s Hg) Ha)
    as (res & Hres); [destruct dir; simpl; lia|].
  rewrite Hres. simpl. destruct res; [|exact IH].
  eexists. split; [reflexivity|].
  split; [|unfold cancelLockTimeout; simpl; destruct (lockTimeout s); reflexivity].
  apply cancelLockTimeout_Good. apply (Good_frame s); [exact Hg | reflexivity..|].
  intros a' Ha'. simpl in Ha'. rewrite Hact in Ha'. simpl in Ha'. injection Ha' as <-.
  exact (canPlace_rotated_inBounds (board s) a kick dir (Good_board s Hg) Ha Hres).
Qed.

Lemma rotatePiece_Good (dir : Direction) (s : State) :
  Good s → ∃ s', rotatePiece dir s = Ok s' ∧ Good s' ∧
                 pendingSpawns s' = pendingSpawns s.
Proof.
  intros Hg. unfold rotatePiece.
  destruct (active s) as [a|] eqn:Hact; [|exists s; split; [reflexivity | split; [assumption | reflexivity]]].
  destruct (decide (status s = playing)); [|exists s; split; [reflexivity | split; [assumption | reflexivity]]].
  exact (tryKicks_Good a dir s kicks Hg Hact).
Qed.

Lemma holdPiece_Good (s : State) :
  Good s → Good (holdPiece s) ∧
           (pendingSpawns (holdPiece s) = pendingSpawns s ∨ active (holdPiece s) = None).
Proof.
  intros Hg. unfold holdPiece.
  destruct (active s) as [a|]; [|split; [exact Hg | left; reflexivity]].
  destruct (decide (status s = playing)); [|split; [exact Hg | left; reflexivity]].
  destruct (hasHeld s); [split; [exact Hg | left; reflexivity]|].
  split; [|right; reflexivity].
  apply (Good_frame (cancelLockTimeout s));
    [apply cancelLockTimeout_Good; exact Hg | destruct (hold s); reflexivity..|].
  intros a' Ha'. discriminate Ha'.
Qed.

(** ** The queue is made of bags *)

Lemma BagQueue_nil : BagQueue [].
Proof.
  exists ALL_TETROMINOES, [], []. rewrite app_nil_r.
  split; [reflexivity | split; [reflexivity | constructor]].
Qed.

Lemma BagQueue_tail (t : TetrominoType) (q : list TetrominoType) :
  BagQueue (t :: q) → BagQueue q.
Proof.
  intros (used & rest & bags & Hq & Hperm & Hbags).
  destruct rest as [|t' rest].
  - destruct bags as [|bag bags]; [discriminate|].
    inversion Hbags as [|? ? Hbag Hbags']; subst.
    destruct bag as [|t' bag].
    + apply Permutation_nil_l in Hbag. discriminate.
    + simpl in Hq. injection Hq as -> ->.
      exists [t'], bag, bags. repeat split; assumption.
  - simpl in Hq. injection Hq as -> ->.
    exists (used ++ [t']), rest, bags. split; [reflexivity|]. split; [|exact Hbags].
    rewrite <- Hperm, <- app_assoc. reflexivity.
Qed.

Lemma BagQueue_app_bag (q bag : list TetrominoType) :
  BagQueue q → bag ≡ₚ ALL_TETROMINOES → BagQueue (q ++ bag).
Proof.
  intros (used & rest & bags & -> & Hperm & Hbags) Hbag.
  exists used, rest, (bags ++ [bag]). split; [|split; [exact Hperm|]].
  - rewrite concat_app. simpl. rewrite app_nil_r, app_assoc. reflexivity.
  - apply Forall_app. split; [exact Hbags|]. constructor; [exact Hbag | constructor].
Qed.

Lemma drawBag_perm (s : State) :
  ∃ bag r, drawBag s = (bag, setRng r s) ∧ bag ≡ₚ ALL_TETROMINOES.
Proof.
  unfold drawBag. pose proof (generateBag_perm (rng s)) as Hperm.
  destruct (generateBag (rng s)) as [bag r]. exists bag, r.
  split; [reflexivity | exact Hperm].
Qed.

Lemma setRng_Good (r : Rng) (s : State) : Good s → Good (setRng r s).
Proof.
  intros Hg. apply (Good_frame s); [exact Hg | reflexivity..|].
  intros a Ha. exact (Good_active s a Hg Ha).
Qed.

(** The updater of [spawnPiece] keeps the state well formed. *)
Lemma spawnUpdater_Good (forcedType : option TetrominoType) (s : State) :
  Good s → ∃ s', spawnUpdater forcedType s = Ok s' ∧ Good s'.
Proof.
  intros Hg. unfold spawnUpdater.
  assert (Hnext : ∃ t q r, nextType forcedType (queue s) s = Ok (t, q, setRng r s) ∧
                           BagQueue q).
  { destruct Hg as (_ & _ & Hq). unfold nextType.
    destruct forcedType as [t|].
    - exists t, (queue s), (rng s). split; [destruct s; reflexivity | exact Hq].
    - destruct (queue s) as [|t rest].
      + destruct (drawBag_perm s) as (bag & r & Hbag & Hperm). rewrite Hbag.
        destruct bag as [|t bag]; [apply Permutation_nil_l in Hperm; discriminate|].
        exists t, [], r. split; [reflexivity | apply BagQueue_nil].
      + exists t, rest, (rng s). split; [destruct s; reflexivity|].
        exact (BagQueue_tail t rest Hq). }
  destruct Hnext as (t & q & r1 & Hnext & Hq1). rewrite Hnext. simpl.
  assert (Hrep : ∃ q' r, replenish q (setRng r1 s) = (q', setRng r s) ∧ BagQueue q').
  { unfold replenish. destruct (length q <? 7)%nat.
    - destruct (drawBag_perm (setRng r1 s)) as (bag & r & Hbag & Hperm). rewrite Hbag.
      exists (q ++ bag), r. split; [reflexivity|].
      exact (BagQueue_app_bag q bag Hq1 Hperm).
    - exists q, r1. split; [reflexivity | exact Hq1]. }
  destruct Hrep as (q' & r2 & Hrep & Hq2). rewrite Hrep.
  destruct (spawnAt_spec t) as (p & Hp & _). rewrite Hp. simpl.
  eexists. split; [reflexivity|].
  destruct Hg as ((Hwf & Hnf & _ & Ht) & (c1 & c2 & c3 & c4 & Hc & Hrest) & _).
  unfold Good, Safe, LinesSum. simpl.
  split; [split; [|split; [|split]]; try assumption|].
  - intros a Ha. injection Ha as <-. exact (proj1 (spawnAt_inBounds t p Hp)).
  - split; [|exact Hq2]. exists c1, c2, c3, c4. split; [exact Hc | exact Hrest].
Qed.

Lemma runSpawns_Good (forced : list (option TetrominoType)) :
  ∀ s, Good s → ∃ s', runSpawns forced s = Ok s' ∧ Good s'.
Proof.
  induction forced as [|f forced IH]; intros s Hg; simpl.
  - exists s. split; [reflexivity | exact Hg].
  - destruct (spawnUpdater_Good f s Hg) as (s1 & Hs1 & Hg1).
    rewrite Hs1. simpl. exact (IH s1 Hg1).
Qed.

Lemma render_Good (s : State) : Good s → ∃ s', render s = Ok s' ∧ Good s'.
Proof.
  intros Hg. unfold render.
  assert (Hg0 : Good (setPendingSpawns [] s)).
  { apply (Good_frame s); [exact Hg | reflexivity..|].
    intros a Ha. exact (Good_active s a Hg Ha). }
  destruct (runSpawns_Good (pendingSpawns s) _ Hg0) as (s1 & Hs1 & Hg1).
  rewrite Hs1. simpl. eexists. split; [reflexivity|].
  apply (Good_frame s1); [exact Hg1 | reflexivity..|].
  intros a Ha. exact (Good_active s1 a Hg1 Ha).
Qed.

Lemma createEmptyBoard_Safe : wellFormed createEmptyBoard ∧ noFullRow createEmptyBoard.
Proof.
  split; [split; [reflexivity|]|]; unfold createEmptyBoard;
    apply Forall_replicate; reflexivity.
Qed.

Lemma LinesSum_initial (n : Z) : LinesSum (withPieces n createInitialStats).
Proof. exists 0, 0, 0, 0. simpl. repeat split; lia. Qed.

Lemma resetGame_Good (s : State) : Good s → ∃ s', resetGame s = Ok s' ∧ Good s'.
Proof.
  intros Hg. unfold resetGame.
  pose proof (cancelLockTimeout_Good s Hg) as ((_ & _ & _ & Ht) & _).
  destruct (drawBag_perm (setBoard createEmptyBoard (cancelLockTimeout s)))
    as (bag1 & r1 & Hb1 & Hp1).
  rewrite Hb1.
  destruct (drawBag_perm (setRng r1 (setBoard createEmptyBoard (cancelLockTimeout s))))
    as (bag2 & r2 & Hb2 & Hp2).
  rewrite Hb2.
  destruct bag1 as [|t bag1]; [apply Permutation_nil_l in Hp1; discriminate|]. simpl.
  destruct (spawnAt_spec t) as (p & Hp & _). rewrite Hp. simpl.
  eexists. split; [reflexivity|].
  destruct createEmptyBoard_Safe as [Hwf Hnf].
  unfold Good, Safe. simpl.
  split; [split; [|split; [|split]]; try assumption|].
  - intros a Ha. injection Ha as <-. exact (proj1 (spawnAt_inBounds t p Hp)).
  - split; [apply LinesSum_initial|].
    exists [t], bag1, [bag2]. simpl. rewrite app_nil_r.
    split; [reflexivity|]. split; [exact Hp1|]. constructor; [exact Hp2 | constructor].
Qed.

(** Every handler returns on a well-formed state, given the fuel for the
    loop of [hardDrop]. *)
Lemma handle_Good (e : Event) (s : State) :
  Good s →
  (∀ fuel a, e = EvHardDrop fuel → active s = Some a →
             (Z.to_nat (BOARD_HEIGHT - pos_y (position a)) < fuel)%nat) →
  ∃ s', handle e s = Ok s' ∧ Good s'.
Proof.
  intros Hg Hfuel. destruct e; simpl.
  - unfold startGame. apply resetGame_Good.
    apply (Good_frame s); [exact Hg | reflexivity..|].
    intros a Ha. exact (Good_active s a Hg Ha).
  - eexists. split; [reflexivity|].
    apply (Good_frame s); [exact Hg | unfold togglePause; destruct (status s); reflexivity..|].
    intros a Ha. apply (Good_active s a Hg).
    unfold togglePause in Ha. destruct (status s); exact Ha.
  - destruct (movePiece_Good dir s Hg) as (s' & Hs' & Hg' & _). eauto.
  - destruct (rotatePiece_Good dir s Hg) as (s' & Hs' & Hg' & _). eauto.
  - destruct (dropPiece_Good true s Hg) as (s' & Hs' & Hg' & _). eauto.
  - destruct (decide (status s = playing)); [|eauto].
    assert (Hg1 : Good (setSoftDropping true s)).
    { apply (Good_frame s); [exact Hg | reflexivity..|].
      intros a Ha. exact (Good_active s a Hg Ha). }
    destruct (dropPiece_Good true _ Hg1) as (s' & Hs' & Hg' & _). eauto.
  - eexists. split; [reflexivity|].
    apply (Good_frame s); [exact Hg | reflexivity..|].
    intros a Ha. exact (Good_active s a Hg Ha).
  - destruct (decide (status s = playing)); [|eauto].
    destruct (dropPiece_Good (softDropping s) s Hg) as (s' & Hs' & Hg' & _). eauto.
  - destruct (hardDrop_Good fuel s Hg) as (s' & Hs' & Hg' & _); [|eauto].
    intros a Ha. exact (Hfuel fuel a eq_refl Ha).
  - eexists. split; [reflexivity|]. exact (proj1 (holdPiece_Good s Hg)).
  - destruct (lockTimerFire_Good id s Hg) as (s' & Hs' & Hg' & _). eauto.
  - destruct (decide (status s = playing)); [|eauto].
    eexists. split; [reflexivity|].
    apply (Good_frame s); [exact Hg | reflexivity..|].
    intros a Ha. exact (Good_active s a Hg Ha).
Qed.

Lemma step_Good (e : Event) (s : State) :
  Good s →
  (∀ fuel a, e = EvHardDrop fuel → active s = Some a →
             (Z.to_nat (BOARD_HEIGHT - pos_y (position a)) < fuel)%nat) →
  ∃ s', step e s = Ok s' ∧ Good s'.
Proof.
  intros Hg Hfuel. unfold step.
  destruct (handle_Good e s Hg Hfuel) as (s1 & Hs1 & Hg1).
  rewrite Hs1. simpl. exact (render_Good s1 Hg1).
Qed.

Lemma handle_not_OutOfFuel_Good (e : Event) (s s' : State) :
  Good s → handle e s = Ok s' → Good s'.
Proof.
  intros Hg Hh.
  destruct e;
    try (match type of Hh with
         | handle ?e _ = _ =>
             assert (Hf : ∀ fuel a, e = EvHardDrop fuel → active s = Some a →
                       (Z.to_nat (BOARD_HEIGHT - pos_y (position a)) < fuel)%nat)
               by (intros; discriminate);
             destruct (handle_Good e s Hg Hf) as (s1 & Hs1 & Hg1)
         end; rewrite Hs1 in Hh; injection Hh as <-; exact Hg1).
  simpl in Hh. unfold hardDrop in Hh.
  destruct (active s) as [a|] eqn:Hact; [|injection Hh as <-; exact Hg].
  destruct (decide (status s = playing)); [|injection Hh as <-; exact Hg].
  inv_bind Hh. destruct a0 as [ghost d].
  assert (Hin : inBounds ghost).
  { pose proof (Good_active s a Hg Hact) as Ha0. clear Hh.
    revert Ha Ha0. generalize 0 as dist. generalize a as g. clear Hact.
    induction fuel as [|fuel IH]; intros g dist Hd Hg0; [discriminate|].
    simpl in Hd. apply bind_Ok in Hd. destruct Hd as (ok & Hok & Hd). destruct ok.
    - apply (IH _ _ Hd).
      exact (canPlace_translate_inBounds (board s) g 0 1 (Good_board s Hg) Hg0 Hok).
    - injection Hd as <- _. exact Hg0. }
  assert (Hg1 : Good (addMessage "Hyper Drop!" (setStats (hardDropStats d) s))).
  { apply (Good_frame s); [exact Hg | reflexivity..|].
    intros a' Ha'. simpl in Ha'. exact (Good_active s a' Hg Ha'). }
  destruct (finalizeLock_Good ghost _ Hg1 Hin) as (s1 & Hs1 & Hg' & _).
  rewrite Hs1 in Hh. injection Hh as <-. exact Hg'.
Qed.

Lemma reachable_Good (stored : Z) (r : Rng) (s : State) : reachable stored r s → Good s.
Proof.
  induction 1 as [|s e s' _ IH Hstep].
  - unfold initialState.
    pose proof (generateBag_perm r) as Hp1.
    destruct (generateBag r) as [bag1 r1].
    pose proof (generateBag_perm r1) as Hp2.
    destruct (generateBag r1) as [bag2 r2]. simpl in *.
    destruct createEmptyBoard_Safe as [Hwf Hnf].
    unfold Good, Safe. simpl.
    split; [split; [|split; [|split]]; try assumption; [discriminate | constructor]|].
    split; [exact (LinesSum_initial 0)|].
    exists ALL_TETROMINOES, [], [bag1; bag2]. simpl. rewrite !app_nil_r.
    split; [reflexivity|]. split; [reflexivity|].
    constructor; [exact Hp1 | constructor; [exact Hp2 | constructor]].
  - unfold step in Hstep. inv_bind Hstep.
    pose proof (handle_not_OutOfFuel_Good e s a IH Ha) as Hg1.
    destruct (render_Good a Hg1) as (s2 & Hs2 & Hg2).
    rewrite Hs2 in Hstep. injection Hstep as <-. exact Hg2.
Qed.

(** ** What each handler does to the state *)

Lemma lockBoard_over (piece : ActivePiece) (prev b : Board) (k : Z) :
  lockBoard piece prev = Ok (b, k, true) → b = prev ∧ k = 0.
Proof.
  unfold lockBoard. destruct (jsIndex _ _) as [m|]; [|discriminate].
  intros H. inv_bind H. destruct a as [next|].
  - destruct (clearLines next). discriminate.
  - injection H as <- <-. split; reflexivity.
Qed.

Lemma finalizeLock_cases (piece : ActivePiece) (s s' : State) :
  finalizeLock piece s = Ok s' →
  ∃ b k over,
    lockBoard piece (board s) = Ok (b, k, over) ∧
    s' = spawnPiece None
           (setLockTimeout None
              (setStats resetCombo (setActive None (setBoard b s)))).
Proof.
  intros Hfl. rewrite finalizeLock_eq in Hfl. inv_bind Hfl.
  destruct a as [[b k] over]. injection Hfl as <-.
  exists b, k, over. split; [exact Ha | reflexivity].
Qed.

Lemma dropPiece_cases (soft : bool) (s s' : State) :
  dropPiece soft false s = Ok s' →
  s' = s ∨
  ∃ a, active s = Some a ∧ status s = playing ∧
       ((canPlace (board s) a (mkPosition 0 1) 0 = Ok true ∧
         s' = (if soft
               then setStats (fun prev => withScore (score prev + DROP_SCORE) prev)
               else fun x => x) (setActive (Some (translate 0 1 a)) s)) ∨
        (canPlace (board s) a (mkPosition 0 1) 0 = Ok false ∧
         s' = armLockTimeout (match lockTimeout s with
                              | Some id => clearTimeout id s
                              | None => s
                              end))).
Proof.
  intros Hd. unfold dropPiece in Hd.
  destruct (active s) as [a|] eqn:Hact; [|injection Hd as <-; left; reflexivity].
  destruct (decide (status s = playing)) as [Hst|]; [|injection Hd as <-; left; reflexivity].
  inv_bind Hd. right. exists a. split; [reflexivity|]. split; [exact Hst|].
  destruct a0; injection Hd as <-.
  - left. split; [exact Ha|]. destruct soft; reflexivity.
  - right. split; [exact Ha | reflexivity].
Qed.

Lemma movePiece_cases (dir : Direction) (s s' : State) :
  movePiece dir s = Ok s' →
  s' = s ∨
  ∃ a, active s = Some a ∧ status s = playing ∧
       canPlace (board s) a (mkPosition (dirZ dir) 0) 0 = Ok true ∧
       s' = cancelLockTimeout (setActive (Some (translate (dirZ dir) 0 a)) s).
Proof.
  intros Hm. unfold movePiece in Hm.
  destruct (active s) as [a|] eqn:Hact; [|injection Hm as <-; left; reflexivity].
  destruct (decide (status s = playing)) as [Hst|]; [|injection Hm as <-; left; reflexivity].
  inv_bind Hm. destruct a0; injection Hm as <-; [|left; reflexivity].
  right. exists a. split; [reflexivity|]. split; [exact Hst|]. split; [exact Ha | reflexivity].
Qed.

Lemma tryKicks_cases (a : ActivePiece) (dir : Direction) (nextRotation : Z)
    (s s' : State) (ks : list Position) :
  active s = Some a →
  tryKicks a dir nextRotation ks s = Ok s' →
  s' = s ∨
  ∃ kick, In kick ks ∧ canPlace (board s) a kick (dirZ dir) = Ok true ∧
          s' = cancelLockTimeout (setActive (Some (rotated nextRotation kick a)) s).
Proof.
  intros Hact. induction ks as [|k ks IH]; simpl; intros Ht.
  - injection Ht as <-. left. reflexivity.
  - inv_bind Ht. destruct a0.
    + injection Ht as <-. right. exists k. split; [left; reflexivity|].
      split; [exact Ha|]. rewrite Hact. reflexivity.
    + destruct (IH Ht) as [->|(kick & Hin & Hcp & ->)]; [left; reflexivity|].
      right. exists kick. split; [right; exact Hin|]. split; [exact Hcp | reflexivity].
Qed.

Lemma rotatePiece_cases (dir : Direction) (s s' : State) :
  rotatePiece dir s = Ok s' →
  s' = s ∨
  ∃ a kick, active s = Some a ∧ status s = playing ∧ In kick kicks ∧
            canPlace (board s) a kick (dirZ dir) = Ok true ∧
            s' = cancelLockTimeout
                   (setActive
                      (Some (rotated
                               (Z.rem (rotation a + dirZ dir
                                       + Z.of_nat (length (getRotations (ptype a))))
                                      (Z.of_nat (length (getRotations (ptype a)))))
                               kick a)) s).
Proof.
  intros Hr. unfold rotatePiece in Hr.
  destruct (active s) as [a|] eqn:Hact; [|injection Hr as <-; left; reflexivity].
  destruct (decide (status s = playing)) as [Hst|]; [|injection Hr as <-; left; reflexivity].
  destruct (tryKicks_cases a dir _ s s' kicks Hact Hr) as [->|(kick & Hin & Hcp & ->)];
    [left; reflexivity|].
  right. exists a, kick. split; [reflexivity|]. split; [exact Hst|].
  split; [exact Hin|]. split; [exact Hcp | reflexivity].
Qed.

Lemma hardDrop_cases (fuel : nat) (s s' : State) :
  hardDrop fuel s = Ok s' →
  s' = s ∨
  ∃ a ghost d, active s = Some a ∧ status s = playing ∧
               descend fuel (board s) a 0 = Ok (ghost, d) ∧
               finalizeLock ghost
                 (addMessage "Hyper Drop!" (setStats (hardDropStats d) s)) = Ok s'.
Proof.
  intros Hh. unfold hardDrop in Hh.
  destruct (active s) as [a|] eqn:Hact; [|injection Hh as <-; left; reflexivity].
  destruct (decide (status s = playing)) as [Hst|]; [|injection Hh as <-; left; reflexivity].
  inv_bind Hh. destruct a0 as [ghost d]. right. exists a, ghost, d.
  split; [reflexivity|]. split; [exact Hst|]. split; [exact Ha | exact Hh].
Qed.

Lemma lockTimerFire_cases (id : nat) (s s' : State) :
  lockTimerFire id s = Ok s' →
  s' = s ∨ s' = clearTimeout id s ∨
  ∃ current closureBoard,
    active s = Some current ∧ status s = playing ∧
    canPlace closureBoard current (mkPosition 0 1) 0 = Ok false ∧
    finalizeLock current (clearTimeout id s) = Ok s'.
Proof.
  intros Hf. unfold lockTimerFire in Hf.
  destruct (List.find _ (timers s)) as [[i cb]|]; [|injection Hf as <-; left; reflexivity].
  change (active (clearTimeout id s)) with (active s) in Hf.
  change (status (clearTimeout id s)) with (status s) in Hf.
  destruct (active s) as [a|] eqn:Hact; [|injection Hf as <-; right; left; reflexivity].
  destruct (decide (status s = playing)) as [Hst|];
    [|injection Hf as <-; right; left; reflexivity].
  inv_bind Hf. destruct a0; [injection Hf as <-; right; left; reflexivity|].
  right. right. exists a, cb. split; [reflexivity|]. split; [exact Hst|].
  split; [exact Ha | exact Hf].
Qed.

Lemma holdPiece_cases (s : State) :
  holdPiece s = s ∨
  ∃ a, active s = Some a ∧ status s = playing ∧ hasHeld s = false ∧
       holdPiece s =
       addMessage "Hold Swap"
         (setActive None
            (setHold (Some (ptype a))
               (spawnPiece (hold s) (setHasHeld true (cancelLockTimeout s))))).
Proof.
  unfold holdPiece.
  destruct (active s) as [a|] eqn:Hact; [|left; reflexivity].
  destruct (decide (status s = playing)) as [Hst|]; [|left; reflexivity].
  destruct (hasHeld s) eqn:Hh; [left; reflexivity|].
  right. exists a. split; [reflexivity|]. split; [exact Hst|]. split; [reflexivity|].
  destruct (hold s); reflexivity.
Qed.

Lemma resetGame_cases (s : State) :
  ∃ bag1 bag2 r t rest p,
    bag1 ≡ₚ ALL_TETROMINOES ∧ bag2 ≡ₚ ALL_TETROMINOES ∧
    bag1 ++ bag2 = t :: rest ∧ spawnAt t = Ok p ∧
    resetGame s =
    Ok (setActive (Some p)
          (setGameOverRef false
             (setMessages []
                (setHasHeld false
                   (setHold None
                      (setQueue rest
                         (setStats (fun _ => withPieces 1 createInitialStats)
                            (setRng r
                               (setBoard createEmptyBoard (cancelLockTimeout s)))))))))).
Proof.
  unfold resetGame.
  destruct (drawBag_perm (setBoard createEmptyBoard (cancelLockTimeout s)))
    as (bag1 & r1 & Hb1 & Hp1).
  rewrite Hb1.
  destruct (drawBag_perm (setRng r1 (setBoard createEmptyBoard (cancelLockTimeout s))))
    as (bag2 & r2 & Hb2 & Hp2).
  rewrite Hb2.
  destruct bag1 as [|t bag1]; [apply Permutation_nil_l in Hp1; discriminate|].
  destruct (spawnAt_spec t) as (p & Hp & _).
  exists (t :: bag1), bag2, r2, t, (bag1 ++ bag2), p.
  split; [exact Hp1|]. split; [exact Hp2|]. split; [reflexivity|]. split; [exact Hp|].
  simpl. rewrite Hp. reflexivity.
Qed.

(** ** What the render after an event keeps *)

Lemma spawnUpdater_frame (forcedType : option TetrominoType) (s s' : State) :
  spawnUpdater forcedType s = Ok s' →
  board s' = board s ∧ hold s' = hold s ∧ status s' = status s ∧
  highScore s' = highScore s ∧ messages s' = messages s ∧
  lockTimeout s' = lockTimeout s ∧ timers s' = timers s ∧
  nextTimer s' = nextTimer s ∧ softDropping s' = softDropping s ∧
  statsRef s' = statsRef s ∧ gameOverRef s' = gameOverRef s ∧
  pendingSpawns s' = pendingSpawns s.
Proof.
  unfold spawnUpdater.
  destruct (nextType_spec forcedType s) as (t & q & s1 & Hnext & Hty & [r1 ->] & Hq).
  destruct (replenish_spec q (setRng r1 s)) as (q' & s2 & Hrep & [r2 ->] & Hq7 & Hqq).
  destruct (spawnAt_spec t) as (p & Hp & Hpt & Hpr).
  rewrite Hnext. simpl. rewrite Hrep, Hp. simpl.
  intros H. injection H as <-. simpl. repeat split; reflexivity.
Qed.

Lemma runSpawns_frame (forced : list (option TetrominoType)) :
  ∀ s s', runSpawns forced s = Ok s' →
  board s' = board s ∧ hold s' = hold s ∧ status s' = status s ∧
  highScore s' = highScore s ∧ messages s' = messages s ∧
  lockTimeout s' = lockTimeout s ∧ timers s' = timers s ∧
  nextTimer s' = nextTimer s ∧ softDropping s' = softDropping s ∧
  statsRef s' = statsRef s ∧ gameOverRef s' = gameOverRef s ∧
  pendingSpawns s' = pendingSpawns s.
Proof.
  induction forced as [|f forced IH]; intros s s' Hr; simpl in Hr.
  - injection Hr as <-. repeat split; reflexivity.
  - inv_bind Hr.
    destruct (spawnUpdater_frame f s a Ha)
      as (A1 & A2 & A3 & A4 & A5 & A6 & A7 & A8 & A9 & A10 & A11 & A12).
    destruct (IH a s' Hr)
      as (B1 & B2 & B3 & B4 & B5 & B6 & B7 & B8 & B9 & B10 & B11 & B12).
    repeat split; congruence.
Qed.

Lemma render_frame (s s' : State) :
  render s = Ok s' →
  board s' = board s ∧ hold s' = hold s ∧ status s' = status s ∧
  highScore s' = highScore s ∧ messages s' = messages s ∧
  lockTimeout s' = lockTimeout s ∧ timers s' = timers s ∧
  nextTimer s' = nextTimer s ∧ softDropping s' = softDropping s ∧
  statsRef s' = stats s' ∧ pendingSpawns s' = [] ∧
  (pendingSpawns s = [] →
   active s' = active s ∧ queue s' = queue s ∧ stats s' = stats s ∧
   hasHeld s' = hasHeld s).
Proof.
  intros Hr. unfold render in Hr. inv_bind Hr. injection Hr as <-.
  destruct (runSpawns_frame _ _ _ Ha)
    as (B1 & B2 & B3 & B4 & B5 & B6 & B7 & B8 & B9 & B10 & B11 & B12).
  simpl in *. repeat split; try assumption; try reflexivity;
    rewrite H in Ha; simpl in Ha; injection Ha as <-; reflexivity.
Qed.

Lemma reachable_statsRef (stored : Z) (r : Rng) (s : State) :
  reachable stored r s → statsRef s = stats s.
Proof.
  induction 1 as [|s e s' _ IH Hstep].
  - unfold initialState.
    destruct (generateBag r) as [bag1 r1]. destruct (generateBag r1) as [bag2 r2].
    reflexivity.
  - unfold step in Hstep. inv_bind Hstep.
    destruct (render_frame a s' Hstep) as (_ & _ & _ & _ & _ & _ & _ & _ & _ & Href & _).
    exact Href.
Qed.

(** ** The reachable states *)

(** X2.  In every reachable state the statistics agree with each other:
    the level is the lines cleared divided by ten, the combo lies between 0
    and the largest combo, the counters of hard drops, pieces and seconds
    are not negative, [cleared] has its four counters, the lines cleared are
    the singles plus twice the doubles plus three times the triples plus
    four times the four-line clears, and [tetrisCount] is the last of the
    four counters. *)
Theorem reachable_stats_consistent (stored : Z) (r : Rng) (s : State) :
  reachable stored r s →
  level (stats s) = lines (stats s) / LINES_PER_LEVEL ∧
  0 ≤ combo (stats s) ≤ maxCombo (stats s) ∧
  0 ≤ hardDrops (stats s) ∧ 0 ≤ pieces (stats s) ∧ 0 ≤ playTime (stats s) ∧
  ∃ c1 c2 c3 c4 : Z,
    cleared (stats s) = [c1; c2; c3; c4] ∧
    0 ≤ c1 ∧ 0 ≤ c2 ∧ 0 ≤ c3 ∧ 0 ≤ c4 ∧
    lines (stats s) = c1 + 2 * c2 + 3 * c3 + 4 * c4 ∧
    tetrisCount (stats s) = c4.
Proof.
  intros Hr.
  destruct (reachable_Evolved stored r s Hr)
    as ((_ & _ & Hlev & Hcombo & _ & Htet & Hhd & Hpc & Hpt) & _).
  destruct (reachable_Good stored r s Hr)
    as (_ & (c1 & c2 & c3 & c4 & Hc & H1 & H2 & H3 & H4 & Hlines) & _).
  split; [exact Hlev|]. split; [exact Hcombo|]. split; [exact Hhd|].
  split; [exact Hpc|]. split; [exact Hpt|].
  exists c1, c2, c3, c4.
  split; [exact Hc|]. split; [exact H1|]. split; [exact H2|]. split; [exact H3|].
  split; [exact H4|]. split; [exact Hlines|].
  rewrite Hc in Htet. unfold jsIndex in Htet. simpl in Htet.
  injection Htet as Htet. symmetry. exact Htet.
Qed.

Lemma reachable_stats_consistent_witness :
  level (stats droppedState) = lines (stats droppedState) / LINES_PER_LEVEL.
Proof.
  destruct (reachable_stats_consistent 0 zeroRng droppedState) as (H & _).
  - apply (reachable_step 0 zeroRng startedState (EvHardDrop 30) droppedState).
    + exact startedState_reachable.
    + vm_compute. reflexivity.
  - exact H.
Defined.

(** X3.  The message log of a reachable state holds at most four messages,
    and [addMessage] puts the new message first, before the three newest of
    the old ones. *)
Theorem messages_at_most_four (stored : Z) (r : Rng) (s : State) :
  reachable stored r s →
  (length (messages s) ≤ 4)%nat ∧
  ∀ text, messages (addMessage text s) = text :: take 3 (messages s).
Proof.
  intros Hr. destruct (reachable_Evolved stored r s Hr) as (_ & Hlen & _).
  split; [exact Hlen | reflexivity].
Qed.

Lemma messages_at_most_four_witness :
  (length (messages startedState) ≤ 4)%nat.
Proof.
  exact (proj1 (messages_at_most_four 0 zeroRng startedState startedState_reachable)).
Defined.

(** X4.  On a reachable state no event throws: the indexings of the
    board, of the rotation tables and of the shape matrices all find their
    entry.  With the iterations that the loop of [hardDrop] needs, every
    event returns a state. *)
Theorem step_never_throws (stored : Z) (r : Rng) (s : State) (e : Event) :
  reachable stored r s →
  step e s ≠ TypeError ∧
  ((∀ fuel a, e = EvHardDrop fuel → active s = Some a →
              (Z.to_nat (BOARD_HEIGHT - pos_y (position a)) < fuel)%nat) →
   ∃ s', step e s = Ok s').
Proof.
  intros Hr. pose proof (reachable_Good stored r s Hr) as Hg. split.
  - unfold step. destruct (handle e s) as [s1| |] eqn:Hh; simpl.
    + destruct (render_Good s1 (handle_not_OutOfFuel_Good e s s1 Hg Hh)) as (s2 & -> & _).
      discriminate.
    + exfalso. destruct e;
        try (match type of Hh with
             | handle ?e _ = _ =>
                 assert (Hf : ∀ fuel a, e = EvHardDrop fuel → active s = Some a →
                           (Z.to_nat (BOARD_HEIGHT - pos_y (position a)) < fuel)%nat)
                   by (intros; discriminate);
                 destruct (handle_Good e s Hg Hf) as (s1 & Hs1 & _)
             end; rewrite Hs1 in Hh; discriminate).
      simpl in Hh. unfold hardDrop in Hh.
      destruct (active s) as [a|] eqn:Hact; [|discriminate].
      destruct (decide (status s = playing)); [|discriminate].
      destruct (descend fuel (board s) a 0) as [[ghost d]| |] eqn:Hd; simpl in Hh.
      * assert (Hin : inBounds ghost).
        { pose proof (Good_active s a Hg Hact) as Ha0.
          clear Hh Hact. revert Hd Ha0. generalize 0 as dist. generalize a as g.
          induction fuel as [|fuel IH]; intros g dist Hd Hg0; [discriminate|].
          simpl in Hd. apply bind_Ok in Hd. destruct Hd as (ok & Hok & Hd). destruct ok.
          - apply (IH _ _ Hd).
            exact (canPlace_translate_inBounds (board s) g 0 1 (Good_board s Hg) Hg0 Hok).
          - injection Hd as <- _. exact Hg0. }
        assert (Hg1 : Good (addMessage "Hyper Drop!" (setStats (hardDropStats d) s))).
        { apply (Good_frame s); [exact Hg | reflexivity..|].
          intros a' Ha'. simpl in Ha'. exact (Good_active s a' Hg Ha'). }
        destruct (finalizeLock_Good ghost _ Hg1 Hin) as (s1 & Hs1 & _).
        rewrite Hs1 in Hh. discriminate.
      * pose proof (Good_active s a Hg Hact) as Ha0.
        clear Hh Hact. revert Hd Ha0. generalize 0 as dist. generalize a as g.
        induction fuel as [|fuel IH]; intros g dist Hd Hg0; [discriminate|].
        simpl in Hd.
        destruct (canPlace_total (board s) g (mkPosition 0 1) 0 (Good_board s Hg) Hg0
                    ltac:(lia)) as (ok & Hok).
        rewrite Hok in Hd. simpl in Hd. destruct ok; [|discriminate].
        apply (IH _ _ Hd).
        exact (canPlace_translate_inBounds (board s) g 0 1 (Good_board s Hg) Hg0 Hok).
      * discriminate.
    + discriminate.
  - intros Hfuel. destruct (step_Good e s Hg Hfuel) as (s' & Hs' & _).
    exists s'. exact Hs'.
Qed.

Lemma step_never_throws_witness :
  ∃ s', step (EvHardDrop 30) startedState = Ok s'.
Proof.
  destruct (step_never_throws 0 zeroRng startedState (EvHardDrop 30)
              startedState_reachable) as (_ & H).
  apply H. intros fuel a Hf Ha. injection Hf as <-.
  vm_compute in Ha. injection Ha as <-. vm_compute. lia.
Defined.

(** X5.  In every reachable state the board has its 20 rows of 10 cells,
    none of its rows is full, and every occupied cell of the active piece
    lies inside the columns and above the floor, in a rotation state of the
    table. *)
Theorem reachable_board_shape (stored : Z) (r : Rng) (s : State) :
  reachable stored r s →
  wellFormed (board s) ∧ noFullRow (board s) ∧
  ∀ a, active s = Some a → inBounds a.
Proof.
  intros Hr. destruct (reachable_Good stored r s Hr) as ((Hwf & Hnf & Hact & _) & _).
  split; [exact Hwf | split; [exact Hnf | exact Hact]].
Qed.

Lemma reachable_board_shape_witness :
  wellFormed (board droppedState) ∧ noFullRow (board droppedState).
Proof.
  destruct (reachable_board_shape 0 zeroRng droppedState) as (H1 & H2 & _).
  - apply (reachable_step 0 zeroRng startedState (EvHardDrop 30) droppedState).
    + exact startedState_reachable.
    + vm_compute. reflexivity.
  - split; [exact H1 | exact H2].
Defined.

(** X6.  The queue of a reachable state is what is left of one bag of
    the seven types, followed by whole bags: up to the bag boundaries, no
    type comes a second time before every type has come. *)
Theorem reachable_queue_bags (stored : Z) (r : Rng) (s : State) :
  reachable stored r s →
  ∃ (used rest : list TetrominoType) (bags : list (list TetrominoType)),
    queue s = rest ++ concat bags ∧
    used ++ rest ≡ₚ ALL_TETROMINOES ∧
    Forall (fun bag => bag ≡ₚ ALL_TETROMINOES) bags ∧
    NoDup rest.
Proof.
  intros Hr.
  destruct (reachable_Good stored r s Hr) as (_ & _ & used & rest & bags & Hq & Hp & Hb).
  exists used, rest, bags. split; [exact Hq|]. split; [exact Hp|]. split; [exact Hb|].
  assert (Hnd : NoDup (used ++ rest)).
  { rewrite Hp. apply (bool_decide_unpack _). vm_compute. exact I. }
  apply NoDup_app in Hnd. exact (proj2 (proj2 Hnd)).
Qed.

Lemma reachable_queue_bags_witness :
  ∃ (used rest : list TetrominoType) (bags : list (list TetrominoType)),
    queue startedState = rest ++ concat bags ∧
    used ++ rest ≡ₚ ALL_TETROMINOES ∧
    Forall (fun bag => bag ≡ₚ ALL_TETROMINOES) bags ∧
    NoDup rest.
Proof.
  exact (reachable_queue_bags 0 zeroRng startedState startedState_reachable).
Defined.

(** X7.  The preview of a reachable state shows five pieces, the first
    five of the queue. *)
Theorem queuePreview_five (stored : Z) (r : Rng) (s : State) :
  reachable stored r s →
  length (queuePreview s) = 5%nat ∧
  ∃ rest, queue s = queuePreview s ++ rest.
Proof.
  intros Hr. destruct (reachable_Inv stored r s Hr) as ((_ & Hq) & _).
  unfold queuePreview, settingsQueueSize. split.
  - rewrite length_take. lia.
  - exists (drop 5 (queue s)). symmetry. apply take_drop.
Qed.

Lemma queuePreview_five_witness : length (queuePreview startedState) = 5%nat.
Proof.
  exact (proj1 (queuePreview_five 0 zeroRng startedState startedState_reachable)).
Defined.

(** ** Locking a piece *)

(** X8.  On the board of a reachable state, the lock of a piece that lies
    inside the board returns, clears between 0 and 4 lines, so that the
    table [lineScores] has the points and the fallback of 200 per line is
    not taken, and leaves a board of 20 rows of 10 cells with no full
    row. *)
Theorem lock_clears_at_most_four (stored : Z) (r : Rng) (s : State)
    (piece : ActivePiece) :
  reachable stored r s → inBounds piece →
  ∃ b k over,
    lockBoard piece (board s) = Ok (b, k, over) ∧
    0 ≤ k ≤ 4 ∧ is_Some (jsIndex lineScores k) ∧
    wellFormed b ∧ noFullRow b.
Proof.
  intros Hr (m & Hm & Hcells).
  destruct (reachable_Good stored r s Hr) as ((Hwf & Hnf & _) & _).
  destruct (lockBoard_spec piece m (board s) Hwf Hnf Hm Hcells)
    as (b & k & over & Hlock & Hwfb & Hnfb & Hk & _).
  exists b, k, over. split; [exact Hlock|]. split; [exact Hk|].
  split; [|split; [exact Hwfb | exact Hnfb]].
  assert (Hcases : k = 0 ∨ k = 1 ∨ k = 2 ∨ k = 3 ∨ k = 4) by lia.
  destruct Hcases as [-> | [-> | [-> | [-> | ->]]]]; eexists; reflexivity.
Qed.

Lemma lock_clears_at_most_four_witness :
  ∃ b k over,
    lockBoard spawnedJ (board startedState) = Ok (b, k, over) ∧
    0 ≤ k ≤ 4 ∧ is_Some (jsIndex lineScores k) ∧
    wellFormed b ∧ noFullRow b.
Proof.
  apply (lock_clears_at_most_four 0 zeroRng startedState spawnedJ).
  - exact startedState_reachable.
  - apply (Good_active startedState spawnedJ).
    + exact (reachable_Good 0 zeroRng startedState startedState_reachable).
    + reflexivity.
Defined.

(** X9.  The loops of the lock, on a board of 20 rows of 10 cells and a
    piece inside the board with no cell above row 0, write the cell
    [{ type }] at every board cell that the piece covers and leave every
    other cell as it was. *)
Theorem lock_writes_piece_cells (piece : ActivePiece) (m : Matrix) (prev : Board) :
  wellFormed prev →
  pieceMatrix piece = Some m →
  (∀ yy xx : nat, shapeCell m yy xx = true →
     0 ≤ pos_x (position piece) + Z.of_nat xx < BOARD_WIDTH ∧
     pos_y (position piece) + Z.of_nat yy < BOARD_HEIGHT) →
  ¬ aboveBoard piece →
  ∃ next,
    lockRows piece m 0 prev = Ok (Some next) ∧
    wellFormed next ∧
    ∀ r c : nat,
      boardCellAt next r c =
      if coveredBy piece m r c
      then Some (Some (mkCell (ptype piece) None None))
      else boardCellAt prev r c.
Proof.
  intros Hwf Hm Hcells Habove.
  destruct (lockRows_spec piece m 0 prev Hwf) as (res & Hres & Hspec).
  { intros yy xx Hs. destruct (Hcells yy xx Hs) as [Hx Hy].
    split; [exact Hx | simpl; exact Hy]. }
  destruct res as [next|].
  - destruct Hspec as [Hwf' Hcell]. exists next.
    split; [exact Hres|]. split; [exact Hwf'|].
    intros r0 c. rewrite Hcell, rowsCover_coveredBy. reflexivity.
  - exfalso. apply Habove. exists m. split; [exact Hm|].
    destruct Hspec as (yy & xx & Hs & Hy). exists yy, xx.
    split; [exact Hs | simpl in Hy; exact Hy].
Qed.

Lemma lock_writes_piece_cells_witness :
  ∃ next,
    lockRows spawnedJ [[1;0;0]; [1;1;1]; [0;0;0]] 0 createEmptyBoard = Ok (Some next) ∧
    wellFormed next ∧
    ∀ r c : nat,
      boardCellAt next r c =
      if coveredBy spawnedJ [[1;0;0]; [1;1;1]; [0;0;0]] r c
      then Some (Some (mkCell (ptype spawnedJ) None None))
      else boardCellAt createEmptyBoard r c.
Proof.
  apply (lock_writes_piece_cells spawnedJ [[1;0;0]; [1;1;1]; [0;0;0]] createEmptyBoard).
  - exact (proj1 createEmptyBoard_Safe).
  - reflexivity.
  - intros yy xx Hs.
    destruct yy as [|[|[|yy]]]; destruct xx as [|[|[|xx]]];
      try discriminate Hs; vm_compute; repeat split; discriminate.
  - intros (m & Hm & yy & xx & Hs & Hy).
    vm_compute in Hm. injection Hm as <-.
    destruct yy as [|[|[|yy]]]; destruct xx as [|[|[|xx]]];
      try discriminate Hs; vm_compute in Hy; discriminate Hy.
Defined.

(** ** Status and high score *)

Lemma updateForClear_fields (k : Z) (s : State) :
  status (updateForClear k s) = status s ∧
  highScore (updateForClear k s) = highScore s ∧
  board (updateForClear k s) = board s ∧
  active (updateForClear k s) = active s ∧
  queue (updateForClear k s) = queue s ∧
  hold (updateForClear k s) = hold s ∧
  timers (updateForClear k s) = timers s ∧
  lockTimeout (updateForClear k s) = lockTimeout s ∧
  pendingSpawns (updateForClear k s) = pendingSpawns s.
Proof. unfold updateForClear. destruct (k =? 0); repeat split; reflexivity. Qed.

Lemma cancelLockTimeout_status (s : State) :
  status (cancelLockTimeout s) = status s ∧
  highScore (cancelLockTimeout s) = highScore s ∧
  stats (cancelLockTimeout s) = stats s ∧
  queue (cancelLockTimeout s) = queue s ∧
  hold (cancelLockTimeout s) = hold s ∧
  messages (cancelLockTimeout s) = messages s ∧
  pendingSpawns (cancelLockTimeout s) = pendingSpawns s ∧
  statsRef (cancelLockTimeout s) = statsRef s.
Proof. unfold cancelLockTimeout. destruct (lockTimeout s); repeat split; reflexivity. Qed.

(** What no handler does: end the game, touch the high score, count a
    line. *)
Lemma handle_outcome (e : Event) (s s' : State) :
  handle e s = Ok s' →
  highScore s' = highScore s ∧
  (status s' = gameover → status s = gameover) ∧
  (NoClears (stats s) → NoClears (stats s')).
Proof.
  intros Hh.
  assert (Hfl : ∀ piece s0, highScore s0 = highScore s → status s0 = status s →
                  (NoClears (stats s) → NoClears (stats s0)) →
                  finalizeLock piece s0 = Ok s' →
                  highScore s' = highScore s ∧
                  (status s' = gameover → status s = gameover) ∧
                  (NoClears (stats s) → NoClears (stats s'))).
  { intros piece s0 Hhs Hst Hnc Hfl.
    destruct (finalizeLock_cases piece s0 s' Hfl) as (b & k & over & _ & ->).
    simpl. split; [exact Hhs|]. split; [congruence|].
    intros H. destruct (Hnc H) as (A & B & C & D & E & F).
    unfold NoClears. simpl. repeat split; (assumption || reflexivity). }
  assert (Hdrop : ∀ soft s0, highScore s0 = highScore s → status s0 = status s →
                    stats s0 = stats s →
                    dropPiece soft false s0 = Ok s' →
                    highScore s' = highScore s ∧
                    (status s' = gameover → status s = gameover) ∧
                    (NoClears (stats s) → NoClears (stats s'))).
  { intros soft s0 Hhs Hst Hstats Hd.
    destruct (dropPiece_cases soft s0 s' Hd)
      as [-> | (a & _ & _ & [[_ ->] | [_ ->]])].
    - split; [exact Hhs|]. split; [congruence | rewrite Hstats; tauto].
    - destruct soft; simpl; (split; [exact Hhs|]); (split; [congruence|]);
        rewrite Hstats; [|tauto].
      intros (A & B & C & D & E & F). unfold NoClears. simpl.
      repeat split; assumption.
    - destruct (lockTimeout s0); simpl; (split; [exact Hhs|]);
        (split; [congruence | rewrite Hstats; tauto]). }
  destruct e; simpl in Hh.
  - unfold startGame in Hh.
    destruct (resetGame_cases (setStatus playing s))
      as (bag1 & bag2 & r & t & rest & p & _ & _ & _ & _ & Heq).
    rewrite Heq in Hh. injection Hh as <-. simpl.
    destruct (cancelLockTimeout_status (setStatus playing s)) as (A & B & _).
    rewrite A, B. simpl. split; [reflexivity|]. split; [discriminate|].
    intros _. unfold NoClears. simpl. repeat split; reflexivity.
  - injection Hh as <-. unfold togglePause.
    destruct (status s) eqn:Hst; simpl; rewrite ?Hst;
      (split; [reflexivity|]); (split; [try discriminate; tauto | tauto]).
  - destruct (movePiece_cases dir s s' Hh) as [-> | (a & _ & _ & _ & ->)];
      [split; [reflexivity | tauto]|].
    destruct (cancelLockTimeout_status
                (setActive (Some (translate (dirZ dir) 0 a)) s)) as (A & B & C & _).
    rewrite A, B, C. split; [reflexivity | tauto].
  - destruct (rotatePiece_cases dir s s' Hh) as [-> | (a & kick & _ & _ & _ & _ & ->)];
      [split; [reflexivity | tauto]|].
    match goal with
    | |- context [cancelLockTimeout ?x] =>
        destruct (cancelLockTimeout_status x) as (A & B & C & _)
    end.
    rewrite A, B, C. split; [reflexivity | tauto].
  - exact (Hdrop true s eq_refl eq_refl eq_refl Hh).
  - destruct (decide (status s = playing));
      [exact (Hdrop true (setSoftDropping true s) eq_refl eq_refl eq_refl Hh)|].
    injection Hh as <-. split; [reflexivity | tauto].
  - injection Hh as <-. split; [reflexivity | tauto].
  - destruct (decide (status s = playing));
      [exact (Hdrop _ s eq_refl eq_refl eq_refl Hh)|].
    injection Hh as <-. split; [reflexivity | tauto].
  - destruct (hardDrop_cases fuel s s' Hh) as [-> | (a & ghost & d & _ & _ & _ & Hlock)];
      [split; [reflexivity | tauto]|].
    apply (Hfl ghost (addMessage "Hyper Drop!" (setStats (hardDropStats d) s))
             eq_refl eq_refl); [|exact Hlock].
    intros (A & B & C & D & E & F). unfold NoClears. simpl.
    repeat split; assumption.
  - injection Hh as <-.
    destruct (holdPiece_cases s) as [-> | (a & _ & _ & _ & ->)];
      [split; [reflexivity | tauto]|].
    simpl. destruct (cancelLockTimeout_status s) as (A & B & C & _).
    rewrite A, B, C. split; [reflexivity | tauto].
  - destruct (lockTimerFire_cases id s s' Hh)
      as [-> | [-> | (current & cb & _ & _ & _ & Hlock)]];
      [split; [reflexivity | tauto] | split; [reflexivity | tauto] |].
    apply (Hfl current (clearTimeout id s) eq_refl eq_refl); [tauto | exact Hlock].
  - destruct (decide (status s = playing)); injection Hh as <-;
      [|split; [reflexivity | tauto]].
    simpl. split; [reflexivity|]. split; [tauto|].
    intros (A & B & C & D & E & F). unfold NoClears. simpl.
    repeat split; assumption.
Qed.

Lemma runSpawns_NoClears (forced : list (option TetrominoType)) :
  ∀ s s', runSpawns forced s = Ok s' →
          NoClears (stats s) → NoClears (stats s').
Proof.
  induction forced as [|f forced IH]; intros s s' Hr Hnc; simpl in Hr.
  - injection Hr as <-. exact Hnc.
  - inv_bind Hr. apply (IH a s' Hr).
    destruct (spawnUpdater_spec f s)
      as (s1 & p & Hs1 & _ & _ & _ & _ & Hstats & _).
    assert (s1 = a) as -> by congruence. rewrite Hstats.
    destruct Hnc as (A & B & C & D & E & F). unfold NoClears. simpl.
    repeat split; assumption.
Qed.

Lemma step_outcome (e : Event) (s s' : State) :
  step e s = Ok s' →
  highScore s' = highScore s ∧
  (status s' = gameover → status s = gameover) ∧
  (NoClears (stats s) → NoClears (stats s')).
Proof.
  intros Hstep. unfold step in Hstep. inv_bind Hstep.
  destruct (handle_outcome e s a Ha) as (A & B & C).
  destruct (render_frame a s' Hstep) as (_ & _ & Hst & Hhs & _).
  rewrite Hst, Hhs. split; [exact A|]. split; [exact B|].
  intros Hnc. unfold render in Hstep. inv_bind Hstep. injection Hstep as <-.
  simpl. exact (runSpawns_NoClears _ _ _ Ha0 (C Hnc)).
Qed.

Lemma initialState_outcome (stored : Z) (r : Rng) :
  highScore (initialState stored r) = stored ∧
  status (initialState stored r) = ready ∧
  stats (initialState stored r) = createInitialStats.
Proof.
  unfold initialState.
  destruct (generateBag r) as [bag1 r1]. destruct (generateBag r1) as [bag2 r2].
  repeat split; reflexivity.
Qed.

(** X10.  The game never ends: no reachable state has the status
    [gameover].  No key, button or timer sets it, for the only place that
    does is the branch of [finalizeLock] that is taken when
    [triggeredGameOver] is set, and [finalizeLock] reads it before the
    updater that sets it has run.  A hard drop keeps the status whatever
    piece it locks. *)
Theorem game_never_ends (stored : Z) (r : Rng) (s : State) :
  (reachable stored r s → status s ≠ gameover) ∧
  ∀ fuel s', step (EvHardDrop fuel) s = Ok s' → status s' = status s.
Proof.
  split.
  - intros Hr. induction Hr as [|s e s' _ IH Hstep].
    + destruct (initialState_outcome stored r) as (_ & -> & _). discriminate.
    + destruct (step_outcome e s s' Hstep) as (_ & B & _). tauto.
  - intros fuel s' Hstep. unfold step in Hstep. inv_bind Hstep.
    destruct (render_frame a s' Hstep) as (_ & _ & -> & _).
    simpl in Ha.
    destruct (hardDrop_cases fuel s a Ha) as [-> | (p & g & d & _ & _ & _ & Hlock)];
      [reflexivity|].
    destruct (finalizeLock_cases g _ a Hlock) as (b & k & over & _ & ->).
    reflexivity.
Qed.

Lemma game_never_ends_witness :
  (∃ s', step (EvHardDrop 30) cappedState = Ok s' ∧
         status s' = playing ∧ board s' = cappedBoard) ∧
  status droppedState ≠ gameover.
Proof.
  split.
  - assert (Hstep : ∃ s', step (EvHardDrop 30) cappedState = Ok s' ∧
                          board s' = cappedBoard).
    { vm_compute. eexists. split; reflexivity. }
    destruct Hstep as (s' & Hstep & Hb). exists s'. split; [exact Hstep|].
    split; [|exact Hb].
    destruct (game_never_ends 0 zeroRng cappedState) as (_ & Hkeep).
    rewrite (Hkeep 30%nat s' Hstep). reflexivity.
  - destruct (game_never_ends 0 zeroRng droppedState) as (Hnever & _).
    apply Hnever.
    apply (reachable_step 0 zeroRng startedState (EvHardDrop 30) droppedState).
    + exact startedState_reachable.
    + vm_compute. reflexivity.
Defined.

(** X11.  The high score is never updated: in every reachable state it is
    the value read from the local storage at the first render, whatever
    score the games have reached.  [setHighScore] is called only in the
    branch of [finalizeLock] that is never taken. *)
Theorem highScore_never_updated (stored : Z) (r : Rng) (s : State) :
  reachable stored r s →
  highScore s = stored ∧
  ∀ e s', step e s = Ok s' → highScore s' = stored.
Proof.
  intros Hr.
  assert (Hhs : highScore s = stored).
  { induction Hr as [|s e s' _ IH Hstep].
    - exact (proj1 (initialState_outcome stored r)).
    - destruct (step_outcome e s s' Hstep) as (A & _). congruence. }
  split; [exact Hhs|].
  intros e s' Hstep. destruct (step_outcome e s s' Hstep) as (A & _). congruence.
Qed.

Lemma highScore_never_updated_witness :
  highScore droppedState = 0 ∧ 0 < score (stats droppedState).
Proof.
  destruct (highScore_never_updated 0 zeroRng droppedState) as (H & _).
  - apply (reachable_step 0 zeroRng startedState (EvHardDrop 30) droppedState).
    + exact startedState_reachable.
    + vm_compute. reflexivity.
  - split; [exact H | vm_compute; reflexivity].
Defined.

(** X25.  No line clear is ever counted: in every reachable state the
    lines, the level, the combo, the largest combo, the four counters of
    [cleared] and the tetris counter are 0, so that the gravity interval
    stays at that of level 0.  [updateForClear] is called only when
    [finalizeLock] has read a [linesCleared] above 0, and it reads 0. *)
Theorem lines_never_counted (stored : Z) (r : Rng) (s : State) :
  reachable stored r s →
  lines (stats s) = 0 ∧ level (stats s) = 0 ∧
  combo (stats s) = 0 ∧ maxCombo (stats s) = 0 ∧
  cleared (stats s) = [0; 0; 0; 0] ∧ tetrisCount (stats s) = 0 ∧
  calculateDropInterval (level (stats s)) = 900.
Proof.
  intros Hr.
  assert (Hnc : NoClears (stats s)).
  { induction Hr as [|s e s' _ IH Hstep].
    - destruct (initialState_outcome stored r) as (_ & _ & ->).
      unfold NoClears. simpl. repeat split; reflexivity.
    - destruct (step_outcome e s s' Hstep) as (_ & _ & C). exact (C IH). }
  destruct Hnc as (A & B & C & D & E & F).
  do 6 (split; [assumption|]). rewrite B. reflexivity.
Qed.

Lemma lines_never_counted_witness :
  lines (stats droppedState) = 0 ∧ level (stats droppedState) = 0.
Proof.
  destruct (lines_never_counted 0 zeroRng droppedState) as (H1 & H2 & _).
  - apply (reachable_step 0 zeroRng startedState (EvHardDrop 30) droppedState).
    + exact startedState_reachable.
    + vm_compute. reflexivity.
  - split; [exact H1 | exact H2].
Defined.

(** X12.  While the game is not being played (before the start, paused,
    or over) every event but the start of a game and the pause toggle leaves
    the board, the active piece, the queue, the hold slot, the status, the
    statistics, the high score and the messages as they are; a lock timer
    that fires then is spent without locking the piece. *)
Theorem not_playing_frozen (stored : Z) (r : Rng) (s s' : State) (e : Event) :
  reachable stored r s → status s ≠ playing →
  e ≠ EvStart → e ≠ EvTogglePause →
  step e s = Ok s' →
  board s' = board s ∧ active s' = active s ∧ queue s' = queue s ∧
  hold s' = hold s ∧ status s' = status s ∧ stats s' = stats s ∧
  highScore s' = highScore s ∧ messages s' = messages s.
Proof.
  intros Hr Hst He1 He2 Hstep.
  destruct (reachable_Inv stored r s Hr) as (_ & _ & Hps).
  unfold step in Hstep. inv_bind Hstep.
  assert (Hsame : a = s ∨ a = setSoftDropping false s ∨ ∃ id, a = clearTimeout id s).
  { destruct e; simpl in Ha; try contradiction.
    - destruct (movePiece_cases dir s a Ha) as [-> | (p & _ & Hp & _)];
        [left; reflexivity | contradiction].
    - destruct (rotatePiece_cases dir s a Ha) as [-> | (p & k & _ & Hp & _)];
        [left; reflexivity | contradiction].
    - destruct (dropPiece_cases true s a Ha) as [-> | (p & _ & Hp & _)];
        [left; reflexivity | contradiction].
    - destruct (decide (status s = playing)); [contradiction|].
      injection Ha as <-. left. reflexivity.
    - injection Ha as <-. right. left. reflexivity.
    - destruct (decide (status s = playing)); [contradiction|].
      injection Ha as <-. left. reflexivity.
    - destruct (hardDrop_cases fuel s a Ha) as [-> | (p & g & d & _ & Hp & _)];
        [left; reflexivity | contradiction].
    - injection Ha as <-.
      destruct (holdPiece_cases s) as [-> | (p & _ & Hp & _)];
        [left; reflexivity | contradiction].
    - destruct (lockTimerFire_cases id s a Ha)
        as [-> | [-> | (p & cb & _ & Hp & _)]];
        [left; reflexivity | right; right; exists id; reflexivity | contradiction].
    - destruct (decide (status s = playing)); [contradiction|].
      injection Ha as <-. left. reflexivity. }
  destruct (render_frame a s' Hstep)
    as (B1 & B2 & B3 & B4 & B5 & _ & _ & _ & _ & _ & _ & Hrest).
  destruct Hrest as (C1 & C2 & C3 & _).
  { destruct Hsame as [-> | [-> | [id ->]]]; exact Hps. }
  rewrite B1, B2, B3, B4, B5, C1, C2, C3.
  destruct Hsame as [-> | [-> | [id ->]]]; repeat split; reflexivity.
Qed.

Lemma not_playing_frozen_witness :
  ∃ s', step (EvHardDrop 30) (initialState 0 zeroRng) = Ok s' ∧
        board s' = board (initialState 0 zeroRng) ∧
        stats s' = stats (initialState 0 zeroRng).
Proof.
  exists (initialState 0 zeroRng).
  assert (Hstep : step (EvHardDrop 30) (initialState 0 zeroRng)
                  = Ok (initialState 0 zeroRng)) by (vm_compute; reflexivity).
  split; [exact Hstep|].
  destruct (not_playing_frozen 0 zeroRng (initialState 0 zeroRng)
              (initialState 0 zeroRng) (EvHardDrop 30))
    as (H1 & _ & _ & _ & _ & H6 & _).
  - apply reachable_init.
  - vm_compute. discriminate.
  - discriminate.
  - discriminate.
  - exact Hstep.
  - split; [exact H1 | exact H6].
Defined.

(** X13.  The pause toggle takes a game that is being played to paused
    and back, leaves the status alone before the start and after the end,
    never touches the board, the piece, the queue or the statistics, and
    logs its message in every case. *)
Theorem togglePause_round_trip (s : State) :
  status (togglePause (togglePause s)) = status s ∧
  (status s = playing → status (togglePause s) = paused) ∧
  (status s = paused → status (togglePause s) = playing) ∧
  (status s = ready ∨ status s = gameover → status (togglePause s) = status s) ∧
  board (togglePause s) = board s ∧ active (togglePause s) = active s ∧
  queue (togglePause s) = queue s ∧ stats (togglePause s) = stats s ∧
  lockTimeout (togglePause s) = lockTimeout s ∧ timers (togglePause s) = timers s ∧
  messages (togglePause s) = "Pause Toggled" :: take 3 (messages s).
Proof.
  unfold togglePause.
  destruct (status s) eqn:Hst; simpl; rewrite ?Hst; simpl; rewrite ?Hst;
    repeat split; try reflexivity; try discriminate;
    intros [H | H]; discriminate.
Qed.

(** X14.  From any state the start of a game gives a game that is being
    played, on the empty board, with the statistics of a new game and one
    piece counted, an empty hold slot and message log, and no lock timer
    armed; the high score is kept.  The first piece and the 13 pieces of the
    queue are two bags, and the piece stands where a spawn puts it. *)
Theorem startGame_fresh (s : State) :
  ∃ s' p bag1 bag2,
    startGame s = Ok s' ∧
    status s' = playing ∧ board s' = createEmptyBoard ∧
    stats s' = withPieces 1 createInitialStats ∧
    hold s' = None ∧ hasHeld s' = false ∧ messages s' = [] ∧
    lockTimeout s' = None ∧ highScore s' = highScore s ∧
    active s' = Some p ∧ spawnAt (ptype p) = Ok p ∧
    ptype p :: queue s' = bag1 ++ bag2 ∧ length (queue s') = 13%nat ∧
    bag1 ≡ₚ ALL_TETROMINOES ∧ bag2 ≡ₚ ALL_TETROMINOES.
Proof.
  unfold startGame.
  destruct (resetGame_cases (setStatus playing s))
    as (bag1 & bag2 & r & t & rest & p & Hp1 & Hp2 & Hbag & Hp & Heq).
  destruct (spawnAt_spec t) as (p' & Hp' & Hpt & _).
  assert (p' = p) as -> by congruence.
  eexists. exists p, bag1, bag2. split; [exact Heq|]. simpl.
  destruct (cancelLockTimeout_status (setStatus playing s)) as (A & B & _).
  rewrite A, B, Hpt. simpl.
  do 6 (split; [reflexivity|]).
  split; [unfold cancelLockTimeout; simpl;
          destruct (lockTimeout s) eqn:E; [reflexivity | exact E]|].
  do 2 (split; [reflexivity|]). split; [exact Hp|].
  split; [symmetry; exact Hbag|]. split; [|split; [exact Hp1 | exact Hp2]].
  apply (f_equal length) in Hbag. rewrite length_app in Hbag.
  rewrite (Permutation_length Hp1), (Permutation_length Hp2) in Hbag.
  simpl in Hbag. lia.
Qed.

(** ** Drops, moves and the lock timer *)

(** X15.  A gravity tick or a soft drop never locks the piece: the
    board, the status, the queue and the hold slot stay, and no spawn is
    asked for.  A piece that can fall goes down one row, for 2 points when
    the drop is soft; for a piece that cannot fall the lock timer is armed
    anew, with the board of that moment, and piece and statistics stay. *)
Theorem dropPiece_never_locks (soft : bool) (s s' : State) :
  dropPiece soft false s = Ok s' →
  board s' = board s ∧ status s' = status s ∧ queue s' = queue s ∧
  hold s' = hold s ∧ pendingSpawns s' = pendingSpawns s ∧
  (s' = s ∨
   ∃ a, active s = Some a ∧ status s = playing ∧
        ((canPlace (board s) a (mkPosition 0 1) 0 = Ok true ∧
          active s' = Some (translate 0 1 a) ∧
          stats s' = (if soft then withScore (score (stats s) + 2) (stats s)
                      else stats s) ∧
          lockTimeout s' = lockTimeout s ∧ timers s' = timers s) ∨
         (canPlace (board s) a (mkPosition 0 1) 0 = Ok false ∧
          active s' = Some a ∧ stats s' = stats s ∧
          lockTimeout s' = Some (nextTimer s) ∧
          timers s' = timers (cancelLockTimeout s) ++ [(nextTimer s, board s)]))).
Proof.
  intros Hd.
  destruct (dropPiece_cases soft s s' Hd) as [-> | (a & Hact & Hst & [[Hcp ->] | [Hcp ->]])].
  - do 5 (split; [reflexivity|]). left. reflexivity.
  - split; [destruct soft; reflexivity|]. split; [destruct soft; reflexivity|].
    split; [destruct soft; reflexivity|]. split; [destruct soft; reflexivity|].
    split; [destruct soft; reflexivity|].
    right. exists a. split; [exact Hact|]. split; [exact Hst|]. left.
    split; [exact Hcp|]. destruct soft; repeat split; reflexivity.
  - unfold armLockTimeout, cancelLockTimeout.
    destruct (lockTimeout s) as [id|]; simpl;
      (do 5 (split; [reflexivity|]));
      right; exists a; (split; [exact Hact|]); (split; [exact Hst|]); right;
      (split; [exact Hcp|]); (split; [exact Hact|]); repeat split; reflexivity.
Qed.

Lemma dropPiece_never_locks_witness :
  ∃ s', dropPiece true false restingState = Ok s' ∧
        board s' = board restingState ∧ status s' = status restingState.
Proof.
  assert (Hd : ∃ s', dropPiece true false restingState = Ok s').
  { vm_compute. eexists. reflexivity. }
  destruct Hd as (s' & Hd). exists s'. split; [exact Hd|].
  destruct (dropPiece_never_locks true restingState s' Hd) as (H1 & H2 & _).
  split; [exact H1 | exact H2].
Defined.

Lemma find_filter_none (id : nat) (ts : list (nat * Board)) :
  List.find (fun t : nat * Board => Nat.eqb (fst t) id)
    (List.filter (fun t : nat * Board => negb (Nat.eqb (fst t) id)) ts) = None.
Proof.
  induction ts as [|t ts IH]; simpl; [reflexivity|].
  destruct (Nat.eqb (fst t) id) eqn:E; simpl; [exact IH|].
  rewrite E. exact IH.
Qed.

Lemma lockTimerFire_cancelled (id : nat) (s : State) :
  lockTimeout s = Some id →
  lockTimeout (cancelLockTimeout s) = None ∧
  lockTimerFire id (cancelLockTimeout s) = Ok (cancelLockTimeout s).
Proof.
  intros Hid. unfold cancelLockTimeout. rewrite Hid. split; [reflexivity|].
  unfold lockTimerFire. simpl. rewrite find_filter_none. reflexivity.
Qed.

(** X16.  A move or a rotation that changes the state cancels the lock
    timer that was armed: the reference is cleared, and when the cancelled
    timer is delivered all the same, nothing happens.  Board and status are
    those of before. *)
Theorem move_cancels_lock_timer (dir : Direction) (s s' : State) (id : nat) :
  lockTimeout s = Some id →
  movePiece dir s = Ok s' ∨ rotatePiece dir s = Ok s' →
  s' ≠ s →
  lockTimeout s' = None ∧ lockTimerFire id s' = Ok s' ∧
  board s' = board s ∧ status s' = status s.
Proof.
  intros Hid Hmove Hneq.
  assert (Hform : ∃ p, s' = cancelLockTimeout (setActive (Some p) s)).
  { destruct Hmove as [Hm | Hr].
    - destruct (movePiece_cases dir s s' Hm) as [-> | (a & _ & _ & _ & ->)];
        [contradiction | eexists; reflexivity].
    - destruct (rotatePiece_cases dir s s' Hr) as [-> | (a & k & _ & _ & _ & _ & ->)];
        [contradiction | eexists; reflexivity]. }
  destruct Hform as (p & ->).
  destruct (lockTimerFire_cancelled id (setActive (Some p) s) Hid) as [A B].
  split; [exact A|]. split; [exact B|].
  rewrite cancelLockTimeout_board.
  destruct (cancelLockTimeout_status (setActive (Some p) s)) as (C & _).
  rewrite C. split; reflexivity.
Qed.

Lemma move_cancels_lock_timer_witness :
  ∃ s', movePiece DirMinus restingState = Ok s' ∧
        lockTimeout s' = None ∧ lockTimerFire 0 s' = Ok s'.
Proof.
  assert (Hm : ∃ s', movePiece DirMinus restingState = Ok s' ∧
                     active s' ≠ active restingState).
  { vm_compute. eexists. split; [reflexivity | discriminate]. }
  destruct Hm as (s' & Hm & Hact). exists s'. split; [exact Hm|].
  destruct (move_cancels_lock_timer DirMinus restingState s' 0%nat) as (H1 & H2 & _).
  - vm_compute. reflexivity.
  - left. exact Hm.
  - intros ->. apply Hact. reflexivity.
  - split; [exact H1 | exact H2].
Defined.

(** ** The ghost piece *)

Lemma descend_ghostLoop (fuel : nat) (b : Board) :
  ∀ (g : ActivePiece) (d : Z),
    descend fuel b g d =
    (ghost ← ghostLoop fuel b g;
     Ok (ghost, d + (pos_y (position ghost) - pos_y (position g)))).
Proof.
  induction fuel as [|fuel IH]; intros g d; simpl; [reflexivity|].
  destruct (canPlace b g (mkPosition 0 1) 0) as [[|]| |]; simpl; try reflexivity.
  - rewrite IH. destruct (ghostLoop fuel b (translate 0 1 g)) as [gh| |]; simpl;
      try reflexivity.
    f_equal. f_equal. lia.
  - f_equal. f_equal. lia.
Qed.

Lemma ghostLoop_spec (fuel : nat) (b : Board) :
  ∀ g gh : ActivePiece,
    ghostLoop fuel b g = Ok gh →
    ptype gh = ptype g ∧ rotation gh = rotation g ∧
    pos_x (position gh) = pos_x (position g) ∧
    pos_y (position g) ≤ pos_y (position gh) ∧
    canPlace b gh (mkPosition 0 1) 0 = Ok false.
Proof.
  induction fuel as [|fuel IH]; intros g gh Hg; simpl in Hg; [discriminate|].
  destruct (canPlace b g (mkPosition 0 1) 0) as [[|]| |] eqn:Hcp; simpl in Hg;
    try discriminate.
  - destruct (IH _ _ Hg) as (A & B & C & D & E). simpl in *.
    repeat split; (assumption || lia).
  - injection Hg as <-. repeat split; (assumption || lia).
Qed.

(** Every row on the way of the ghost loop was accepted. *)
Lemma ghostLoop_path (fuel : nat) (b : Board) :
  ∀ g gh : ActivePiece,
    ghostLoop fuel b g = Ok gh →
    gh = translate 0 (pos_y (position gh) - pos_y (position g)) g ∧
    ∀ k, 0 ≤ k < pos_y (position gh) - pos_y (position g) →
         canPlace b (translate 0 k g) (mkPosition 0 1) 0 = Ok true.
Proof.
  induction fuel as [|fuel IH]; intros g gh Hg; simpl in Hg; [discriminate|].
  destruct (canPlace b g (mkPosition 0 1) 0) as [[|]| |] eqn:Hcp; simpl in Hg;
    try discriminate.
  - destruct (IH _ _ Hg) as (A & B). simpl in *. split.
    + rewrite A at 1. unfold translate. simpl. destruct g as [t rot [x y]]. simpl.
      f_equal. f_equal; lia.
    + intros k Hk. destruct (Z.eq_dec k 0) as [->|Hk0].
      * rewrite translate_zero. exact Hcp.
      * specialize (B (k - 1) ltac:(lia)).
        replace (translate 0 k g) with (translate 0 (k - 1) (translate 0 1 g));
          [exact B|].
        unfold translate. simpl. f_equal. f_equal; lia.
  - injection Hg as <-. split.
    + rewrite Z.sub_diag, translate_zero. reflexivity.
    + intros k Hk. lia.
Qed.

(** X17.  The ghost piece is shown exactly when a piece is active and the
    game is not over.  During play it is the active piece moved straight
    down: every row on the way accepts the piece, and at the ghost a further
    row does not.  It is the piece at which the loop of [hardDrop] stops,
    with the difference of the rows as the distance. *)
Theorem ghostPiece_is_hardDrop_landing (fuel : nat) (s : State) :
  (ghostPiece fuel s = Ok None ↔ active s = None ∨ status s = gameover) ∧
  ∀ a g, active s = Some a → status s = playing →
         ghostPiece fuel s = Ok (Some g) →
         g = translate 0 (pos_y (position g) - pos_y (position a)) a ∧
         0 ≤ pos_y (position g) - pos_y (position a) ∧
         (∀ k, 0 ≤ k < pos_y (position g) - pos_y (position a) →
               canPlace (board s) (translate 0 k a) (mkPosition 0 1) 0 = Ok true) ∧
         canPlace (board s) g (mkPosition 0 1) 0 = Ok false ∧
         descend fuel (board s) a 0 =
           Ok (g, pos_y (position g) - pos_y (position a)).
Proof.
  split.
  - unfold ghostPiece. destruct (active s) as [a|].
    + simpl. destruct (bool_decide_reflect (status s = gameover)) as [Hgo|Hgo].
      * split; [intros _; right; exact Hgo | reflexivity].
      * destruct (ghostLoop fuel (board s) a); simpl;
          (split; [discriminate | intros [H | H]; [discriminate | contradiction]]).
    + split; [intros _; left; reflexivity | reflexivity].
  - intros a g Hact Hst Hg. unfold ghostPiece in Hg. rewrite Hact in Hg.
    simpl in Hg. rewrite bool_decide_eq_false_2 in Hg by (rewrite Hst; discriminate).
    destruct (ghostLoop fuel (board s) a) as [gh| |] eqn:Hloop; simpl in Hg;
      try discriminate.
    injection Hg as ->.
    destruct (ghostLoop_spec fuel (board s) a g Hloop) as (_ & _ & _ & D & E).
    destruct (ghostLoop_path fuel (board s) a g Hloop) as (F & G).
    split; [exact F|]. split; [lia|]. split; [exact G|]. split; [exact E|].
    rewrite descend_ghostLoop, Hloop. simpl. reflexivity.
Qed.

Lemma ghostPiece_is_hardDrop_landing_witness :
  ∃ g, ghostPiece 30 startedState = Ok (Some g) ∧
       canPlace (board startedState) g (mkPosition 0 1) 0 = Ok false ∧
       descend 30 (board startedState) spawnedJ 0 =
         Ok (g, pos_y (position g) - pos_y (position spawnedJ)).
Proof.
  assert (Hg : ∃ g, ghostPiece 30 startedState = Ok (Some g)).
  { vm_compute. eexists. reflexivity. }
  destruct Hg as (g & Hg). exists g. split; [exact Hg|].
  destruct (ghostPiece_is_hardDrop_landing 30 startedState) as (_ & H).
  destruct (H spawnedJ g) as (_ & _ & _ & H4 & H5).
  - reflexivity.
  - reflexivity.
  - exact Hg.
  - split; [exact H4 | exact H5].
Defined.

(** ** A piece that has moved lies on free cells *)

Lemma cells_free_canPlace (b : Board) (a : ActivePiece) (m : Matrix) :
  (Z.to_nat BOARD_HEIGHT ≤ length b)%nat →
  pieceMatrix a = Some m →
  (∀ yy xx : nat, shapeCell m yy xx = true →
     0 ≤ pos_x (position a) + Z.of_nat xx < BOARD_WIDTH ∧
     pos_y (position a) + Z.of_nat yy < BOARD_HEIGHT ∧
     (0 ≤ pos_y (position a) + Z.of_nat yy →
      occupiedAt b (pos_y (position a) + Z.of_nat yy)
                   (pos_x (position a) + Z.of_nat xx) = false)) →
  canPlace b a (mkPosition 0 0) 0 = Ok true.
Proof.
  intros Hb Hm Hfree. unfold canPlace. rewrite (candidateMatrix_zero a m Hm). simpl.
  destruct (canPlaceRows_spec b a (mkPosition 0 0) m Hb 0) as (res & Hres & Hiff).
  change (Z.of_nat 0) with 0 in Hres. rewrite Hres. destruct res; [reflexivity|].
  exfalso. destruct (proj1 Hiff eq_refl) as (yy & xx & Hs & Hblk).
  destruct (Hfree yy xx Hs) as (Hx & Hy & Hocc).
  unfold cellBlocked in Hblk. simpl in Hblk. rewrite !Z.add_0_r in Hblk.
  destruct Hblk as [H | [H | [H | [H1 H2]]]]; try lia.
  rewrite (Hocc H1) in H2. discriminate.
Qed.

Lemma canPlace_translate_fits (b : Board) (a : ActivePiece) (dx dy : Z) :
  (Z.to_nat BOARD_HEIGHT ≤ length b)%nat → inBounds a →
  canPlace b a (mkPosition dx dy) 0 = Ok true →
  canPlace b (translate dx dy a) (mkPosition 0 0) 0 = Ok true.
Proof.
  intros Hb (m & Hm & _) Hcp.
  apply (cells_free_canPlace b (translate dx dy a) m Hb); [exact Hm|].
  intros yy xx Hs.
  destruct (canPlace_true_cells b a (mkPosition dx dy) 0 m Hb
              (candidateMatrix_zero a m Hm) Hcp yy xx Hs) as (Hx & Hy & Hocc).
  simpl in *.
  replace (pos_x (position a) + dx + Z.of_nat xx)
    with (pos_x (position a) + Z.of_nat xx + dx) by lia.
  replace (pos_y (position a) + dy + Z.of_nat yy)
    with (pos_y (position a) + Z.of_nat yy + dy) by lia.
  split; [exact Hx | split; [exact Hy | exact Hocc]].
Qed.

Lemma canPlace_rotated_fits (b : Board) (a : ActivePiece) (kick : Position)
    (dir : Direction) :
  (Z.to_nat BOARD_HEIGHT ≤ length b)%nat → inBounds a →
  canPlace b a kick (dirZ dir) = Ok true →
  canPlace b
    (rotated (Z.rem (rotation a + dirZ dir + Z.of_nat (length (getRotations (ptype a))))
                    (Z.of_nat (length (getRotations (ptype a))))) kick a)
    (mkPosition 0 0) 0 = Ok true.
Proof.
  intros Hb Hin Hcp.
  destruct (candidateMatrix_Ok a (dirZ dir) (inBounds_rotation a Hin)) as (m & Hm & Hidx).
  { destruct dir; simpl; lia. }
  apply (cells_free_canPlace b _ m Hb); [exact Hidx|].
  intros yy xx Hs.
  destruct (canPlace_true_cells b a kick (dirZ dir) m Hb Hm Hcp yy xx Hs)
    as (Hx & Hy & Hocc).
  simpl in *.
  replace (pos_x (position a) + pos_x kick + Z.of_nat xx)
    with (pos_x (position a) + Z.of_nat xx + pos_x kick) by lia.
  replace (pos_y (position a) + pos_y kick + Z.of_nat yy)
    with (pos_y (position a) + Z.of_nat yy + pos_y kick) by lia.
  split; [exact Hx | split; [exact Hy | exact Hocc]].
Qed.

(** X18.  When a move, a rotation, a soft drop or a gravity tick on a
    reachable state changes the active piece, the piece stands afterwards
    where [canPlace] accepts it: inside the columns, above the floor and on
    no locked cell. *)
Theorem moved_piece_fits (stored : Z) (r : Rng) (s s' : State) (e : Event)
    (a' : ActivePiece) :
  reachable stored r s →
  e = EvSoftDrop ∨ e = EvSoftDropKeyDown ∨ e = EvGravity ∨
  (∃ dir, e = EvMove dir) ∨ (∃ dir, e = EvRotate dir) →
  step e s = Ok s' →
  active s' = Some a' → active s' ≠ active s →
  canPlace (board s') a' (mkPosition 0 0) 0 = Ok true ∧ board s' = board s.
Proof.
  intros Hr He Hstep Hact' Hneq.
  pose proof (reachable_Good stored r s Hr) as Hg.
  destruct (reachable_Inv stored r s Hr) as (_ & _ & Hps).
  pose proof (Good_board s Hg) as Hb.
  unfold step in Hstep. inv_bind Hstep.
  assert (Hmid : (active a = active s ∨
                  ∃ p, active a = Some p ∧
                       canPlace (board s) p (mkPosition 0 0) 0 = Ok true) ∧
                 board a = board s ∧ pendingSpawns a = []).
  { assert (Hdrop : ∀ soft s0, board s0 = board s → active s0 = active s →
                      pendingSpawns s0 = [] →
                      dropPiece soft false s0 = Ok a →
                      (active a = active s ∨
                       ∃ p, active a = Some p ∧
                            canPlace (board s) p (mkPosition 0 0) 0 = Ok true) ∧
                      board a = board s ∧ pendingSpawns a = []).
    { intros soft s0 Hb0 Ha0 Hp0 Hd.
      destruct (dropPiece_cases soft s0 a Hd)
        as [-> | (p & Hp & _ & [[Hcp ->] | [Hcp ->]])].
      - split; [left; exact Ha0 | split; [exact Hb0 | exact Hp0]].
      - split; [|split; [destruct soft; exact Hb0 | destruct soft; exact Hp0]].
        right. exists (translate 0 1 p). split; [destruct soft; reflexivity|].
        rewrite Hb0 in Hcp. apply canPlace_translate_fits; [exact Hb | | exact Hcp].
        apply (Good_active s p Hg). rewrite <- Ha0. exact Hp.
      - split; [left; destruct (lockTimeout s0); exact Ha0|].
        split; destruct (lockTimeout s0); assumption. }
    destruct He as [-> | [-> | [-> | [[dir ->] | [dir ->]]]]]; simpl in Ha.
    - exact (Hdrop true s eq_refl eq_refl Hps Ha).
    - destruct (decide (status s = playing));
        [exact (Hdrop true (setSoftDropping true s) eq_refl eq_refl Hps Ha)|].
      injection Ha as <-. split; [left; reflexivity | split; [reflexivity | exact Hps]].
    - destruct (decide (status s = playing));
        [exact (Hdrop _ s eq_refl eq_refl Hps Ha)|].
      injection Ha as <-. split; [left; reflexivity | split; [reflexivity | exact Hps]].
    - destruct (movePiece_cases dir s a Ha) as [-> | (p & Hp & _ & Hcp & ->)];
        [split; [left; reflexivity | split; [reflexivity | exact Hps]]|].
      rewrite cancelLockTimeout_active, cancelLockTimeout_board.
      destruct (cancelLockTimeout_status
                  (setActive (Some (translate (dirZ dir) 0 p)) s))
        as (_ & _ & _ & _ & _ & _ & C & _).
      rewrite C. split; [|split; [reflexivity | exact Hps]].
      right. eexists. split; [reflexivity|].
      apply canPlace_translate_fits; [exact Hb | exact (Good_active s p Hg Hp) | exact Hcp].
    - destruct (rotatePiece_cases dir s a Ha) as [-> | (p & k & Hp & _ & _ & Hcp & ->)];
        [split; [left; reflexivity | split; [reflexivity | exact Hps]]|].
      rewrite cancelLockTimeout_active, cancelLockTimeout_board.
      match goal with
      | |- context [pendingSpawns (cancelLockTimeout ?x)] =>
          destruct (cancelLockTimeout_status x) as (_ & _ & _ & _ & _ & _ & C & _)
      end.
      rewrite C. split; [|split; [reflexivity | exact Hps]].
      right. eexists. split; [reflexivity|].
      apply canPlace_rotated_fits; [exact Hb | exact (Good_active s p Hg Hp) | exact Hcp]. }
  destruct Hmid as (Hcase & Hba & Hpa).
  destruct (render_frame a s' Hstep) as (B1 & _ & _ & _ & _ & _ & _ & _ & _ & _ & _ & Hrest).
  destruct (Hrest Hpa) as (C1 & _).
  rewrite B1, Hba. split; [|reflexivity].
  destruct Hcase as [Hsame | (p & Hp & Hcp)].
  - exfalso. apply Hneq. rewrite C1. exact Hsame.
  - assert (a' = p) as -> by congruence. exact Hcp.
Qed.

Lemma moved_piece_fits_witness :
  ∃ s' a', step (EvMove DirMinus) startedState = Ok s' ∧ active s' = Some a' ∧
           canPlace (board s') a' (mkPosition 0 0) 0 = Ok true.
Proof.
  assert (Hm : ∃ s' a', step (EvMove DirMinus) startedState = Ok s' ∧
                        active s' = Some a' ∧ active s' ≠ active startedState).
  { vm_compute. eexists. eexists. split; [reflexivity|].
    split; [reflexivity | discriminate]. }
  destruct Hm as (s' & a' & Hstep & Hact & Hneq). exists s', a'.
  split; [exact Hstep|]. split; [exact Hact|].
  destruct (moved_piece_fits 0 zeroRng startedState s' (EvMove DirMinus) a') as (H & _).
  - exact startedState_reachable.
  - right. right. right. left. exists DirMinus. reflexivity.
  - exact Hstep.
  - exact Hact.
  - exact Hneq.
  - exact H.
Defined.

(** ** Spawning *)

Lemma spawnAt_unrotated (t : TetrominoType) (p : ActivePiece) :
  spawnAt t = Ok p →
  ptype p = t ∧ rotation p = 0 ∧ pos_y (position p) = spawnRow t ∧
  pos_x (position p) = 3.
Proof.
  intros Hp. destruct t; vm_compute in Hp; injection Hp as <-;
    repeat split; reflexivity.
Qed.

(** X19.  A piece of every type spawns in its first rotation state, with
    its matrix at column 3, at row 0, or at row -1 for the I piece, whose
    first shape row is empty.  There it has no cell above row 0, lies inside
    the board, and is accepted by [canPlace] on the empty board. *)
Theorem spawnAt_centred (t : TetrominoType) :
  ∃ p, spawnAt t = Ok p ∧
       ptype p = t ∧ rotation p = 0 ∧
       pos_x (position p) = 3 ∧
       pos_y (position p) = spawnRow t ∧
       inBounds p ∧ ¬ aboveBoard p ∧
       canPlace createEmptyBoard p (mkPosition 0 0) 0 = Ok true.
Proof.
  destruct (spawnAt_spec t) as (p & Hp & _).
  destruct (spawnAt_unrotated t p Hp) as (A & B & C & D).
  destruct (spawnAt_inBounds t p Hp) as (E & F).
  exists p. split; [exact Hp|]. split; [exact A|]. split; [exact B|].
  split; [exact D|]. split; [exact C|]. split; [exact E|]. split; [exact F|].
  destruct t; vm_compute in Hp; injection Hp as <-; vm_compute; reflexivity.
Qed.

(** ** clearLines, again *)

Lemma clearLines_noFullRow (b : Board) :
  wellFormed b → noFullRow b → clearLines b = (b, 0).
Proof.
  intros [Hlen _] Hnf. unfold clearLines.
  assert (Hfilter : List.filter hasEmptyCell b = b).
  { clear Hlen. induction Hnf as [|row b Hrow _ IH]; simpl; [reflexivity|].
    rewrite hasEmptyCell_fullRow, Hrow. simpl. rewrite IH. reflexivity. }
  rewrite Hfilter, Hlen.
  rewrite (proj2 (Z.eqb_eq _ _)); [reflexivity|]. unfold BOARD_HEIGHT. lia.
Qed.

(** X20.  Clearing lines twice is clearing them once: on a board of 20
    rows of 10 cells the result of [clearLines] has no full row, and
    [clearLines] returns it as it is, with 0 lines cleared. *)
Theorem clearLines_idempotent (b : Board) :
  wellFormed b →
  noFullRow (clearLines b).1 ∧
  clearLines (clearLines b).1 = ((clearLines b).1, 0).
Proof.
  intros Hwf. destruct (clearLines_wf b Hwf) as (Hwf' & Hnf' & _).
  split; [exact Hnf'|]. exact (clearLines_noFullRow _ Hwf' Hnf').
Qed.

Lemma clearLines_idempotent_witness :
  clearLines (clearLines bottomFullBoard).1 = ((clearLines bottomFullBoard).1, 0).
Proof.
  apply (clearLines_idempotent bottomFullBoard).
  split; [reflexivity|]. apply (bool_decide_unpack _). vm_compute. exact I.
Defined.

(** ** A game without rotations *)

Lemma Unrotated_notAbove (a : ActivePiece) :
  rotation a = 0 → spawnRow (ptype a) ≤ pos_y (position a) → ¬ aboveBoard a.
Proof.
  intros Hrot Hy (m & Hm & yy & xx & Hs & Hneg).
  unfold pieceMatrix in Hm. rewrite Hrot in Hm.
  destruct a as [t rot [x y]]. simpl in *.
  destruct t; vm_compute in Hm; injection Hm as <-;
    (match type of Hy with
     | ?l ≤ _ => let v := eval vm_compute in l in change l with v in Hy
     end);
    destruct yy as [|[|[|[|yy]]]]; destruct xx as [|[|[|[|xx]]]];
    try discriminate Hs; lia.
Qed.

Lemma descend_inBounds (b : Board) (fuel : nat) :
  (Z.to_nat BOARD_HEIGHT ≤ length b)%nat →
  ∀ (g ghost : ActivePiece) (d d' : Z),
    inBounds g → descend fuel b g d = Ok (ghost, d') → inBounds ghost.
Proof.
  intros Hb. induction fuel as [|fuel IH]; intros g ghost d d' Hg Hd; [discriminate|].
  simpl in Hd. apply bind_Ok in Hd. destruct Hd as (ok & Hok & Hd). destruct ok.
  - apply (IH _ _ _ _ (canPlace_translate_inBounds b g 0 1 Hb Hg Hok) Hd).
  - injection Hd as <- _. exact Hg.
Qed.

Lemma descend_keeps (b : Board) (fuel : nat) (g ghost : ActivePiece) (d d' : Z) :
  descend fuel b g d = Ok (ghost, d') →
  ptype ghost = ptype g ∧ rotation ghost = rotation g ∧
  pos_y (position g) ≤ pos_y (position ghost).
Proof.
  rewrite descend_ghostLoop. intros Hd.
  destruct (ghostLoop fuel b g) as [gh| |] eqn:Hloop; simpl in Hd; try discriminate.
  injection Hd as -> _.
  destruct (ghostLoop_spec fuel b g ghost Hloop) as (A & B & _ & D & _).
  split; [exact A | split; [exact B | exact D]].
Qed.

Lemma finalizeLock_unrotated (piece : ActivePiece) (s s' : State) :
  Good s → inBounds piece →
  rotation piece = 0 → spawnRow (ptype piece) ≤ pos_y (position piece) →
  finalizeLock piece s = Ok s' →
  status s' = status s ∧ active s' = None.
Proof.
  intros Hg Hin Hrot Hy Hfl.
  destruct (finalizeLock_Good piece s Hg Hin) as (s1 & Hs1 & _ & Hact & Hst & _).
  assert (s1 = s') as -> by congruence.
  split; [exact Hst | exact Hact].
Qed.

Lemma Unrotated_none (s : State) : active s = None → Unrotated s.
Proof. intros Hn a Ha. congruence. Qed.

Lemma handle_unrotated (e : Event) (s s' : State) :
  Good s → Unrotated s → isRotate e = false →
  handle e s = Ok s' →
  Unrotated s' ∧ (status s ≠ gameover → status s' ≠ gameover).
Proof.
  intros Hg Hun He Hh.
  assert (Hdrop : ∀ soft s0, active s0 = active s → status s0 = status s →
                    dropPiece soft false s0 = Ok s' →
                    Unrotated s' ∧ (status s ≠ gameover → status s' ≠ gameover)).
  { intros soft s0 Ha0 Hst0 Hd.
    destruct (dropPiece_cases soft s0 s' Hd)
      as [-> | (p & Hp & _ & [[_ ->] | [_ ->]])].
    - split; [intros a Ha; apply Hun; congruence | congruence].
    - split; [|destruct soft; simpl; congruence].
      intros a Ha. assert (a = translate 0 1 p) as ->
        by (destruct soft; simpl in Ha; congruence).
      destruct (Hun p) as [A B]; [congruence|]. simpl. split; [exact A | lia].
    - split.
      + intros a Ha. apply Hun. rewrite <- Ha0.
        destruct (lockTimeout s0); exact Ha.
      + destruct (lockTimeout s0); simpl; congruence. }
  destruct e; simpl in Hh; try discriminate He.
  - unfold startGame in Hh.
    destruct (resetGame_cases (setStatus playing s))
      as (bag1 & bag2 & r & t & rest & p & _ & _ & _ & Hp & Heq).
    rewrite Heq in Hh. injection Hh as <-. split.
    + intros a Ha. simpl in Ha. injection Ha as <-.
      destruct (spawnAt_unrotated t p Hp) as (A & B & C & _).
      rewrite A, B, C. split; [reflexivity | lia].
    + intros _. simpl.
      destruct (cancelLockTimeout_status (setStatus playing s)) as (A & _).
      rewrite A. discriminate.
  - injection Hh as <-. unfold togglePause. split.
    + intros a Ha. apply Hun. destruct (status s); exact Ha.
    + destruct (status s) eqn:Hst; simpl; rewrite ?Hst; try discriminate; tauto.
  - destruct (movePiece_cases dir s s' Hh) as [-> | (p & Hp & _ & _ & ->)];
      [split; [exact Hun | tauto]|].
    split.
    + intros a Ha. rewrite cancelLockTimeout_active in Ha. simpl in Ha.
      injection Ha as <-. destruct (Hun p Hp) as [A B]. simpl.
      split; [exact A | lia].
    + destruct (cancelLockTimeout_status
                  (setActive (Some (translate (dirZ dir) 0 p)) s)) as (A & _).
      rewrite A. tauto.
  - exact (Hdrop true s eq_refl eq_refl Hh).
  - destruct (decide (status s = playing));
      [exact (Hdrop true (setSoftDropping true s) eq_refl eq_refl Hh)|].
    injection Hh as <-. split; [exact Hun | tauto].
  - injection Hh as <-. split; [exact Hun | tauto].
  - destruct (decide (status s = playing));
      [exact (Hdrop _ s eq_refl eq_refl Hh)|].
    injection Hh as <-. split; [exact Hun | tauto].
  - destruct (hardDrop_cases fuel s s' Hh) as [-> | (p & g & d & Hp & _ & Hd & Hfl)];
      [split; [exact Hun | tauto]|].
    destruct (descend_keeps _ _ _ _ _ _ Hd) as (A & B & C).
    destruct (Hun p Hp) as [D E].
    assert (Hg1 : Good (addMessage "Hyper Drop!" (setStats (hardDropStats d) s))).
    { apply (Good_frame s); [exact Hg | reflexivity..|].
      intros a' Ha'. simpl in Ha'. exact (Good_active s a' Hg Ha'). }
    destruct (finalizeLock_unrotated g _ s' Hg1) as [F G]; try assumption.
    + exact (descend_inBounds (board s) fuel (Good_board s Hg) p g 0 d
               (Good_active s p Hg Hp) Hd).
    + congruence.
    + rewrite A. lia.
    + split; [apply Unrotated_none; exact G | simpl in F; congruence].
  - injection Hh as <-.
    destruct (holdPiece_cases s) as [-> | (p & _ & _ & _ & ->)];
      [split; [exact Hun | tauto]|].
    split; [apply Unrotated_none; reflexivity|]. simpl.
    destruct (cancelLockTimeout_status s) as (A & _). rewrite A. tauto.
  - destruct (lockTimerFire_cases id s s' Hh)
      as [-> | [-> | (p & cb & Hp & _ & _ & Hfl)]];
      [split; [exact Hun | tauto] | split; [exact Hun | tauto] |].
    destruct (Hun p Hp) as [D E].
    destruct (finalizeLock_unrotated p _ s' (clearTimeout_Good id s Hg)) as [F G];
      try assumption.
    + exact (Good_active s p Hg Hp).
    + split; [apply Unrotated_none; exact G | simpl in F; congruence].
  - destruct (decide (status s = playing)); injection Hh as <-;
      (split; [exact Hun | tauto]).
Qed.

Lemma spawnUpdater_unrotated (forcedType : option TetrominoType) (s s' : State) :
  spawnUpdater forcedType s = Ok s' → Unrotated s'.
Proof.
  unfold spawnUpdater.
  destruct (nextType_spec forcedType s) as (t & q & s1 & Hnext & Hty & [r1 ->] & Hq).
  destruct (replenish_spec q (setRng r1 s)) as (q' & s2 & Hrep & [r2 ->] & Hq7 & Hqq).
  destruct (spawnAt_spec t) as (p & Hp & Hpt & Hpr).
  rewrite Hnext. simpl. rewrite Hrep, Hp. simpl.
  intros H. injection H as <-. intros a Ha. simpl in Ha. injection Ha as <-.
  destruct (spawnAt_unrotated t p Hp) as (A & B & C & _).
  rewrite A, B, C. split; [reflexivity | lia].
Qed.

Lemma runSpawns_unrotated (forced : list (option TetrominoType)) :
  ∀ s s', Unrotated s → runSpawns forced s = Ok s' → Unrotated s'.
Proof.
  induction forced as [|f forced IH]; intros s s' Hun Hr; simpl in Hr.
  - injection Hr as <-. exact Hun.
  - inv_bind Hr. exact (IH a s' (spawnUpdater_unrotated f s a Ha) Hr).
Qed.

Lemma step_unrotated (e : Event) (s s' : State) :
  Good s → Unrotated s → isRotate e = false →
  step e s = Ok s' →
  Good s' ∧ Unrotated s' ∧ (status s ≠ gameover → status s' ≠ gameover).
Proof.
  intros Hg Hun He Hstep. unfold step in Hstep. inv_bind Hstep.
  destruct (handle_unrotated e s a Hg Hun He Ha) as [Hun1 Hst1].
  pose proof (handle_not_OutOfFuel_Good e s a Hg Ha) as Hg1.
  destruct (render_Good a Hg1) as (s2 & Hs2 & Hg2).
  assert (s2 = s') as -> by congruence.
  destruct (render_frame a s' Hstep) as (_ & _ & Hst & _).
  split; [exact Hg2|]. split; [|rewrite Hst; exact Hst1].
  unfold render in Hstep. inv_bind Hstep. injection Hstep as <-.
  intros p Hp. simpl in Hp.
  apply (runSpawns_unrotated (pendingSpawns a) (setPendingSpawns [] a) a0
           (fun p' Hp' => Hun1 p' Hp') Ha0 p Hp).
Qed.

Lemma run_unrotated (es : list Event) :
  ∀ s s', Good s → Unrotated s → status s ≠ gameover →
          Forall (fun e => isRotate e = false) es →
          run es s = Ok s' →
          status s' ≠ gameover ∧ Unrotated s'.
Proof.
  induction es as [|e es IH]; intros s s' Hg Hun Hst Hes Hrun; simpl in Hrun.
  - injection Hrun as <-. split; [exact Hst | exact Hun].
  - inv_bind Hrun. inversion Hes as [|? ? He Hes']; subst.
    destruct (step_unrotated e s a Hg Hun He Ha) as (Hg1 & Hun1 & Hst1).
    exact (IH a s' Hg1 Hun1 (Hst1 Hst) Hes' Hrun).
Qed.

(** X21.  A game in which no piece is ever rotated never ends.  In a run
    of events from the first render that has no rotation, the active piece
    stays in its first rotation state at or below its spawn row, so that no
    lock finds a cell above row 0; a piece that spawns on locked cells does
    not end the game either, for the spawn does not look at the board. *)
Theorem no_rotation_no_gameover (stored : Z) (r : Rng) (es : list Event) (s : State) :
  Forall (fun e => isRotate e = false) es →
  run es (initialState stored r) = Ok s →
  status s ≠ gameover ∧
  ∀ a, active s = Some a → rotation a = 0 ∧ ¬ aboveBoard a.
Proof.
  intros Hes Hrun.
  destruct (run_unrotated es (initialState stored r) s) as [Hst Hun].
  - exact (reachable_Good stored r _ (reachable_init stored r)).
  - apply Unrotated_none. unfold initialState.
    destruct (generateBag r) as [bag1 r1]. destruct (generateBag r1) as [bag2 r2].
    reflexivity.
  - unfold initialState.
    destruct (generateBag r) as [bag1 r1]. destruct (generateBag r1) as [bag2 r2].
    discriminate.
  - exact Hes.
  - exact Hrun.
  - split; [exact Hst|]. intros a Ha. destruct (Hun a Ha) as [A B].
    split; [exact A | exact (Unrotated_notAbove a A B)].
Qed.

Lemma no_rotation_no_gameover_witness : status droppedState ≠ gameover.
Proof.
  destruct (no_rotation_no_gameover 0 zeroRng [EvStart; EvHardDrop 30] droppedState)
    as [H _].
  - repeat constructor.
  - vm_compute. reflexivity.
  - exact H.
Defined.

(** ** Every order of the bag can be drawn *)

(** X22.  The shuffle of [generateBag] can give every order of the seven
    types: for each permutation of them there are draws of [Math.random]
    under which the bag comes out in that order. *)
Theorem generateBag_every_order (bag : list TetrominoType) :
  bag ≡ₚ ALL_TETROMINOES →
  (generateBag (listRng (drawsFor 6 ALL_TETROMINOES bag))).1 = bag.
Proof.
  intros Hperm.
  assert (Hall : Forall (fun p : list TetrominoType =>
                   (generateBag (listRng (drawsFor 6 ALL_TETROMINOES p))).1 = p)
                   (permutations ALL_TETROMINOES)).
  { apply (bool_decide_unpack _). vm_compute. exact I. }
  apply (proj1 (Forall_forall _ _) Hall).
  apply permutations_Permutation. symmetry. exact Hperm.
Qed.

Lemma generateBag_every_order_witness :
  (generateBag (listRng (drawsFor 6 ALL_TETROMINOES
     [PieceZ; PieceT; PieceS; PieceO; PieceL; PieceJ; PieceI]))).1 =
  [PieceZ; PieceT; PieceS; PieceO; PieceL; PieceJ; PieceI].
Proof.
  apply (generateBag_every_order [PieceZ; PieceT; PieceS; PieceO; PieceL; PieceJ; PieceI]).
  apply (proj1 (permutations_Permutation _ _)).
  apply (bool_decide_unpack _). vm_compute. exact I.
Defined.

(** ** The rendered board *)

Lemma overlayRow_spec (piece : ActivePiece) (cell : Cell) (y : nat) (row : list Z) :
  pos_y (position piece) + Z.of_nat y < BOARD_HEIGHT →
  ∀ (k : nat) (comp : Board),
    wellFormed comp →
    (∀ i v, row !! i = Some v → truthy v = true →
            0 ≤ pos_x (position piece) + Z.of_nat (k + i) < BOARD_WIDTH) →
    ∃ comp', overlayRow piece cell (Z.of_nat y) row (Z.of_nat k) comp = Ok comp' ∧
      wellFormed comp' ∧
      ∀ r c, boardCellAt comp' r c =
             if (Z.of_nat r =? pos_y (position piece) + Z.of_nat y)
                && rowCovers piece row k c
             then Some (Some cell)
             else boardCellAt comp r c.
Proof.
  intros Hfloor. induction row as [|v row IH]; intros k comp Hwf Hcols.
  - exists comp. split; [reflexivity|]. split; [exact Hwf|].
    intros r c. rewrite rowCovers_nil, andb_false_r. reflexivity.
  - assert (Hcols' : ∀ i v0, row !! i = Some v0 → truthy v0 = true →
              0 ≤ pos_x (position piece) + Z.of_nat (S k + i) < BOARD_WIDTH).
    { intros i v0 Hi Hv0. specialize (Hcols (S i) v0 Hi Hv0).
      replace (S k + i)%nat with (k + S i)%nat by lia. exact Hcols. }
    simpl. replace (Z.of_nat k + 1) with (Z.of_nat (S k)) by lia.
    destruct (truthy v) eqn:Hv.
    + rewrite (proj2 (Z.ltb_lt _ _) Hfloor), andb_true_r.
      destruct (Z.geb_spec (pos_y (position piece) + Z.of_nat y) 0) as [Hpos|Hneg].
      * specialize (Hcols 0%nat v eq_refl Hv).
        replace (k + 0)%nat with k in Hcols by lia.
        destruct Hwf as [Hlen Hrows].
        destruct (lookup_lt_is_Some_2 comp (Z.to_nat (pos_y (position piece) + Z.of_nat y)))
          as [brow Hbrow]; [unfold BOARD_HEIGHT in *; lia|].
        assert (Hbl : length brow = Z.to_nat BOARD_WIDTH).
        { exact (Forall_lookup_1 _ _ _ _ Hrows Hbrow). }
        rewrite Hbrow.
        assert (Hw : writeCell brow (pos_x (position piece) + Z.of_nat k) cell =
                     <[Z.to_nat (pos_x (position piece) + Z.of_nat k) := Some cell]> brow).
        { unfold writeCell.
          destruct (Z.ltb_spec (pos_x (position piece) + Z.of_nat k) 0); [lia|].
          destruct (Nat.ltb_spec (Z.to_nat (pos_x (position piece) + Z.of_nat k))
                      (length brow)); [reflexivity|].
          unfold BOARD_WIDTH in *. lia. }
        rewrite Hw.
        assert (Hwf1 : wellFormed
                  (<[Z.to_nat (pos_y (position piece) + Z.of_nat y) :=
                       <[Z.to_nat (pos_x (position piece) + Z.of_nat k) :=
                           Some cell]> brow]> comp)).
        { apply wellFormed_write; [split; assumption | exact Hbrow]. }
        destruct (IH (S k) _ Hwf1 Hcols') as (comp' & Hres & Hwf' & Hchar).
        exists comp'. split; [exact Hres|]. split; [exact Hwf'|].
        intros r c. rewrite Hchar, rowCovers_cons, Hv, andb_true_r.
        rewrite boardCellAt_write
          by (try exact Hbrow; rewrite Hbl; unfold BOARD_WIDTH in *; lia).
        destruct (Z.eqb_spec (Z.of_nat r) (pos_y (position piece) + Z.of_nat y))
          as [Hr|Hr]; simpl.
        -- destruct (rowCovers piece row (S k) c); [rewrite orb_true_r; reflexivity|].
           rewrite orb_false_r.
           destruct (Nat.eqb_spec r (Z.to_nat (pos_y (position piece) + Z.of_nat y)));
             [|lia]. simpl.
           destruct (Z.eqb_spec (Z.of_nat c) (pos_x (position piece) + Z.of_nat k));
             destruct (Nat.eqb_spec c (Z.to_nat (pos_x (position piece) + Z.of_nat k)));
             (reflexivity || lia).
        -- destruct (Nat.eqb_spec r (Z.to_nat (pos_y (position piece) + Z.of_nat y)));
             [lia | reflexivity].
      * destruct (IH (S k) comp Hwf Hcols') as (comp' & Hres & Hwf' & Hchar).
        exists comp'. split; [exact Hres|]. split; [exact Hwf'|].
        intros r c. rewrite Hchar.
        rewrite (proj2 (Z.eqb_neq (Z.of_nat r) _)) by lia. reflexivity.
    + destruct (IH (S k) comp Hwf Hcols') as (comp' & Hres & Hwf' & Hchar).
      exists comp'. split; [exact Hres|]. split; [exact Hwf'|].
      intros r c. rewrite Hchar, rowCovers_cons, Hv, andb_false_r. reflexivity.
Qed.

Lemma overlayRows_spec (piece : ActivePiece) (cell : Cell) (rows : Matrix) :
  ∀ (y : nat) (comp : Board),
    wellFormed comp →
    (∀ yy xx : nat, shapeCell rows yy xx = true →
       0 ≤ pos_x (position piece) + Z.of_nat xx < BOARD_WIDTH ∧
       pos_y (position piece) + Z.of_nat (y + yy) < BOARD_HEIGHT) →
    ∃ comp', overlayRows piece cell rows (Z.of_nat y) comp = Ok comp' ∧
      wellFormed comp' ∧
      ∀ r c, boardCellAt comp' r c =
             if rowsCover piece rows y r c then Some (Some cell)
             else boardCellAt comp r c.
Proof.
  induction rows as [|row rows IH]; intros y comp Hwf Hcells.
  - exists comp. split; [reflexivity|]. split; [exact Hwf|].
    intros r c. rewrite rowsCover_nil. reflexivity.
  - simpl. replace (Z.of_nat y + 1) with (Z.of_nat (S y)) by lia.
    assert (Hcells' : ∀ yy xx : nat, shapeCell rows yy xx = true →
              0 ≤ pos_x (position piece) + Z.of_nat xx < BOARD_WIDTH ∧
              pos_y (position piece) + Z.of_nat (S y + yy) < BOARD_HEIGHT).
    { intros yy xx Hs. specialize (Hcells (S yy) xx Hs).
      replace (S y + yy)%nat with (y + S yy)%nat by lia. exact Hcells. }
    destruct (existsb truthy row) eqn:Hany.
    + apply existsb_exists in Hany as (v & Hin & Hv).
      apply list_elem_of_In, list_elem_of_lookup_1 in Hin as [i Hi].
      assert (Hs0 : shapeCell (row :: rows) 0 i = true).
      { unfold shapeCell. simpl. rewrite Hi. exact Hv. }
      pose proof (Hcells 0%nat i Hs0) as [_ Hfloor].
      replace (y + 0)%nat with y in Hfloor by lia.
      destruct (overlayRow_spec piece cell y row Hfloor 0%nat comp Hwf)
        as (comp1 & Hres1 & Hwf1 & Hchar1).
      { intros j w Hj Hw. simpl.
        assert (Hsj : shapeCell (row :: rows) 0 j = true).
        { unfold shapeCell. simpl. rewrite Hj. exact Hw. }
        exact (proj1 (Hcells 0%nat j Hsj)). }
      change (Z.of_nat 0) with 0 in Hres1. rewrite Hres1. simpl.
      destruct (IH (S y) comp1 Hwf1 Hcells') as (comp' & Hres & Hwf' & Hchar).
      exists comp'. split; [exact Hres|]. split; [exact Hwf'|].
      intros r c. rewrite Hchar, Hchar1, rowsCover_cons.
      destruct (rowsCover piece rows (S y) r c); [rewrite orb_true_r; reflexivity|].
      rewrite orb_false_r. reflexivity.
    + assert (Hnone : ∀ c, rowCovers piece row 0 c = false).
      { intros c. unfold rowCovers, truthyAt.
        destruct (row !! _) as [v|] eqn:Hv; [|apply andb_false_r].
        assert (Hf : truthy v = false).
        { destruct (truthy v) eqn:Ht; [|reflexivity].
          assert (Hex : existsb truthy row = true); [|congruence].
          apply existsb_exists. exists v. split; [|exact Ht].
          apply list_elem_of_In. eapply list_elem_of_lookup_2. exact Hv. }
        rewrite Hf. apply andb_false_r. }
      assert (Hrow : ∀ k comp0,
                overlayRow piece cell (Z.of_nat y) row k comp0 = Ok comp0).
      { clear - Hany. induction row as [|v row IHr]; intros k comp0; [reflexivity|].
        simpl in Hany. apply orb_false_elim in Hany as [Hv Hrest].
        simpl. rewrite Hv. apply IHr. exact Hrest. }
      rewrite Hrow. simpl.
      destruct (IH (S y) comp Hwf Hcells') as (comp' & Hres & Hwf' & Hchar).
      exists comp'. split; [exact Hres|]. split; [exact Hwf'|].
      intros r c. rewrite Hchar, rowsCover_cons, Hnone, andb_false_r. reflexivity.
Qed.

Lemma overlay_spec (piece : ActivePiece) (flag : option bool) (comp : Board) :
  wellFormed comp → inBounds piece →
  ∃ comp', overlay piece (mkCell (ptype piece) flag None) comp = Ok comp' ∧
    wellFormed comp' ∧
    ∀ r c, boardCellAt comp' r c =
           drawnCell (Some piece) flag r c (boardCellAt comp r c).
Proof.
  intros Hwf (m & Hm & Hcells). unfold overlay, drawnCell.
  unfold pieceMatrix in Hm. unfold pieceMatrix. rewrite Hm.
  destruct (overlayRows_spec piece (mkCell (ptype piece) flag None) m 0%nat comp Hwf)
    as (comp' & Hres & Hwf' & Hchar).
  { intros yy xx Hs. destruct (Hcells yy xx Hs) as [Hx Hy].
    split; [exact Hx | simpl; exact Hy]. }
  exists comp'. split; [exact Hres|]. split; [exact Hwf'|].
  intros r c. rewrite Hchar, rowsCover_coveredBy. reflexivity.
Qed.

Lemma ghostLoop_inBounds (b : Board) (fuel : nat) :
  (Z.to_nat BOARD_HEIGHT ≤ length b)%nat →
  ∀ g gh : ActivePiece, inBounds g → ghostLoop fuel b g = Ok gh → inBounds gh.
Proof.
  intros Hb g gh Hg Hloop.
  apply (descend_inBounds b fuel Hb g gh 0 (0 + (pos_y (position gh) - pos_y (position g))) Hg).
  rewrite descend_ghostLoop, Hloop. reflexivity.
Qed.

(** X23.  On a reachable state, once the loop of the ghost piece has
    returned, [renderedBoard] returns a board of 20 rows of 10 cells.  A
    cell that the active piece covers shows [{ type }] of that piece;
    otherwise a cell that the ghost piece covers shows its
    [{ type, ghost: true }]; every other cell shows the locked board.  The
    cells of a piece above row 0 are not drawn. *)
Theorem renderedBoard_layers (stored : Z) (r : Rng) (s : State) (fuel : nat)
    (g : option ActivePiece) :
  reachable stored r s →
  ghostPiece fuel s = Ok g →
  ∃ composite,
    renderedBoard fuel s = Ok composite ∧
    wellFormed composite ∧
    ∀ row col : nat,
      boardCellAt composite row col =
      drawnCell (active s) None row col
        (drawnCell g (Some true) row col (boardCellAt (board s) row col)).
Proof.
  intros Hr Hg.
  destruct (reachable_Good stored r s Hr) as ((Hwf & _ & Hact & _) & _).
  assert (Hgin : ∀ gp, g = Some gp → inBounds gp).
  { intros gp ->. unfold ghostPiece in Hg.
    destruct (active s) as [a|] eqn:Ha; [|discriminate].
    destruct (negb settingsGhostPiece || bool_decide (status s = gameover));
      [discriminate|].
    destruct (ghostLoop fuel (board s) a) as [gh| |] eqn:Hloop; simpl in Hg;
      try discriminate.
    injection Hg as ->.
    apply (ghostLoop_inBounds (board s) fuel) with (g := a); [|exact (Hact a eq_refl)|exact Hloop].
    destruct Hwf as [Hlen _]. lia. }
  unfold renderedBoard. rewrite Hg. simpl.
  assert (Hmid : ∃ comp1,
            match g with
            | Some gp => overlay gp (mkCell (ptype gp) (Some true) None) (board s)
            | None => Ok (board s)
            end = Ok comp1 ∧ wellFormed comp1 ∧
            ∀ row col, boardCellAt comp1 row col =
                       drawnCell g (Some true) row col (boardCellAt (board s) row col)).
  { destruct g as [gp|].
    - exact (overlay_spec gp (Some true) (board s) Hwf (Hgin gp eq_refl)).
    - exists (board s). split; [reflexivity|]. split; [exact Hwf|]. reflexivity. }
  destruct Hmid as (comp1 & Hres1 & Hwf1 & Hchar1). rewrite Hres1. simpl.
  destruct (active s) as [a|] eqn:Ha.
  - destruct (overlay_spec a None comp1 Hwf1 (Hact a eq_refl))
      as (comp2 & Hres2 & Hwf2 & Hchar2).
    exists comp2. split; [exact Hres2|]. split; [exact Hwf2|].
    intros row col. rewrite Hchar2, Hchar1. reflexivity.
  - exists comp1. split; [reflexivity|]. split; [exact Hwf1|].
    intros row col. rewrite Hchar1. reflexivity.
Qed.

Lemma renderedBoard_layers_witness :
  ∃ composite,
    renderedBoard 30 startedState = Ok composite ∧
    wellFormed composite ∧
    boardCellAt composite 0 3 = Some (Some (mkCell PieceJ None None)) ∧
    boardCellAt composite 18 3 = Some (Some (mkCell PieceJ (Some true) None)).
Proof.
  assert (Hg : ∃ g, ghostPiece 30 startedState = Ok g).
  { vm_compute. eexists. reflexivity. }
  destruct Hg as (g & Hg).
  destruct (renderedBoard_layers 0 zeroRng startedState 30 g startedState_reachable Hg)
    as (composite & H1 & H2 & H3).
  exists composite. split; [exact H1|]. split; [exact H2|].
  vm_compute in Hg. injection Hg as <-.
  split; rewrite H3; vm_compute; reflexivity.
Defined.

(** ** Keys *)

Lemma find_fresh (ts : list (nat * Board)) :
  ∃ n : nat, ∀ id, (n ≤ id)%nat →
    List.find (fun t : nat * Board => Nat.eqb (fst t) id) ts = None.
Proof.
  induction ts as [|t ts [n IH]].
  - exists 0%nat. reflexivity.
  - exists (Nat.max (S (fst t)) n). intros id Hid. simpl.
    destruct (Nat.eqb_spec (fst t) id); [lia|]. apply IH. lia.
Qed.

(** Some event leaves the state as it is. *)
Lemma handle_idle (s : State) : ∃ e, handle e s = Ok s.
Proof.
  destruct (find_fresh (timers s)) as [n Hn].
  exists (EvLockTimer n). simpl. unfold lockTimerFire. rewrite (Hn n); [reflexivity | lia].
Qed.

Lemma handleKeyDown_event (fuel : nat) (code : string) (s : State) :
  ∃ e, handleKeyDown fuel code s = handle e s.
Proof.
  unfold handleKeyDown.
  destruct (bool_decide (status s = ready) && codeIn code ["Space"; "Enter"]);
    [exists EvStart; reflexivity|].
  destruct (bool_decide (status s = gameover) && codeIn code ["Space"]);
    [exists EvStart; reflexivity|].
  destruct (bool_decide (status s = paused) && codeIn code ["Escape"]);
    [exists EvTogglePause; reflexivity|].
  destruct (bool_decide_reflect (status s = playing)) as [Hst|Hst]; simpl.
  - destruct (codeIn code ["ArrowLeft"; "KeyA"]); [exists (EvMove DirMinus); reflexivity|].
    destruct (codeIn code ["ArrowRight"; "KeyD"]); [exists (EvMove DirPlus); reflexivity|].
    destruct (codeIn code ["ArrowDown"; "KeyS"]).
    { exists EvSoftDropKeyDown. simpl.
      destruct (decide (status s = playing)); [reflexivity | contradiction]. }
    destruct (codeIn code ["ArrowUp"; "KeyW"; "KeyX"]);
      [exists (EvRotate DirPlus); reflexivity|].
    destruct (codeIn code ["KeyZ"; "ShiftLeft"]);
      [exists (EvRotate DirMinus); reflexivity|].
    destruct (codeIn code ["Space"]); [exists (EvHardDrop fuel); reflexivity|].
    destruct (codeIn code ["KeyC"; "ShiftRight"]); [exists EvHold; reflexivity|].
    destruct (codeIn code ["Escape"]); [exists EvTogglePause; reflexivity|].
    destruct (handle_idle s) as [e He]. exists e. symmetry. exact He.
  - destruct (handle_idle s) as [e He]. exists e. symmetry. exact He.
Qed.

Lemma startGame_spec_status (s x : State) : startGame s = Ok x → status x = playing.
Proof.
  unfold startGame. intros Hx.
  destruct (resetGame_cases (setStatus playing s))
    as (bag1 & bag2 & r & t & rest & p & _ & _ & _ & _ & Heq).
  rewrite Heq in Hx. injection Hx as <-. simpl.
  destruct (cancelLockTimeout_status (setStatus playing s)) as (A & _).
  rewrite A. reflexivity.
Qed.

(** X24.  Every key press acts as one of the events, or not at all, and so
    does every key release: a game played from the keyboard stays within
    the reachable states, for which the results above hold.  Outside of
    play a key press starts a game (Space or Enter before the first game,
    Space after the end), resumes it (Escape while paused), or changes
    nothing. *)
Theorem keyboard_stays_reachable (stored : Z) (r : Rng) (fuel : nat) (code : string)
    (s s' : State) :
  reachable stored r s →
  keyStep fuel code s = Ok s' ∨ render (handleKeyUp code s) = Ok s' →
  reachable stored r s' ∧
  (status s ≠ playing →
   keyStep fuel code s = Ok s' →
   status s' = playing ∨
   (status s' = status s ∧ board s' = board s ∧ active s' = active s ∧
    stats s' = stats s)).
Proof.
  intros Hr Hkey. split.
  - destruct Hkey as [Hdown | Hup].
    + unfold keyStep in Hdown.
      destruct (handleKeyDown_event fuel code s) as [e He].
      rewrite He in Hdown.
      exact (reachable_step stored r s e s' Hr Hdown).
    + unfold handleKeyUp in Hup.
      destruct (codeIn code ["ArrowDown"; "KeyS"]).
      * exact (reachable_step stored r s EvSoftDropKeyUp s' Hr Hup).
      * destruct (handle_idle s) as [e He].
        apply (reachable_step stored r s e s' Hr). unfold step. rewrite He. exact Hup.
  - intros Hst Hdown. unfold keyStep in Hdown. inv_bind Hdown.
    destruct (reachable_Inv stored r s Hr) as (_ & _ & Hps).
    destruct (render_frame a s' Hdown)
      as (B1 & _ & B3 & _ & _ & _ & _ & _ & _ & _ & _ & Hrest).
    unfold handleKeyDown in Ha.
    assert (Hstart : ∀ x, startGame s = Ok x → status x = playing).
    { intros x Hx. exact (startGame_spec_status s x Hx). }
    destruct (bool_decide (status s = ready) && codeIn code ["Space"; "Enter"]);
      [left; rewrite B3; exact (Hstart a Ha)|].
    destruct (bool_decide (status s = gameover) && codeIn code ["Space"]);
      [left; rewrite B3; exact (Hstart a Ha)|].
    destruct (bool_decide (status s = paused) && codeIn code ["Escape"]) eqn:Hp.
    + injection Ha as <-. left. rewrite B3.
      apply andb_true_iff in Hp as [Hp _]. apply bool_decide_eq_true in Hp.
      unfold togglePause. rewrite Hp. reflexivity.
    + rewrite (bool_decide_eq_false_2 _ Hst) in Ha. simpl in Ha. injection Ha as <-.
      destruct (Hrest Hps) as (C1 & _ & C3 & _).
      right. rewrite B1, B3, C1, C3. repeat split; reflexivity.
Qed.

Lemma keyboard_stays_reachable_witness :
  reachable 0 zeroRng startedState.
Proof.
  apply (keyboard_stays_reachable 0 zeroRng 30 "Space" (initialState 0 zeroRng)
           startedState).
  - apply reachable_init.
  - left. vm_compute. reflexivity.
Defined.

(** ** hardDrop *)

(** C7.  In a playing state, on a board of 20 rows of 10 cells and for an
    active piece inside the board, [hardDrop] moves the piece down by the
    distance [d >= 0] for which [canPlace] holds at every descent of 1 to
    [d] rows and fails at [d + 1]; the loop ends (enough fuel gives the
    result).  The score gets [d * 2 * 3] and the hard-drop counter 1.  The
    piece is locked where it rests, in the same event and with no regard to
    the lock-delay timers, which stay as they are: no piece is active after
    the drop, the next one is asked for, and the board is the one before
    with [{ type }] written at the cells that the resting piece covers and
    the full rows cleared.  When the resting piece has a cell above row 0
    the board is left as it was. *)
Theorem hardDrop_drops_and_locks (s : State) (a : ActivePiece) (m : Matrix) :
  status s = playing →
  active s = Some a →
  wellFormed (board s) →
  pieceMatrix a = Some m →
  (∀ yy xx : nat, shapeCell m yy xx = true →
     0 ≤ pos_x (position a) + Z.of_nat xx < BOARD_WIDTH ∧
     pos_y (position a) + Z.of_nat yy < BOARD_HEIGHT) →
  ∃ d : Z,
    0 ≤ d ∧
    (∀ k, 1 ≤ k ≤ d → canPlace (board s) a (mkPosition 0 k) 0 = Ok true) ∧
    canPlace (board s) a (mkPosition 0 (d + 1)) 0 = Ok false ∧
    ∃ fuel0 : nat, ∀ fuel : nat, (fuel0 ≤ fuel)%nat →
      ∃ s', hardDrop fuel s = Ok s' ∧
        score (stats s') = score (stats s) + d * 2 * 3 ∧
        hardDrops (stats s') = hardDrops (stats s) + 1 ∧
        active s' = None ∧
        pendingSpawns s' = pendingSpawns s ++ [None] ∧
        lockTimeout s' = None ∧ timers s' = timers s ∧
        status s' = playing ∧
        ((aboveBoard (translate 0 d a) ∧ board s' = board s) ∨
         (¬ aboveBoard (translate 0 d a) ∧
          ∃ next,
            wellFormed next ∧
            (∀ r c : nat,
               boardCellAt next r c =
               if coveredBy (translate 0 d a) m r c
               then Some (Some (mkCell (ptype a) None None))
               else boardCellAt (board s) r c) ∧
            board s' = (clearLines next).1)).
Proof.
  intros Hst Hact Hwf Hm Hcells.
  assert (Hin : inBounds a) by (exists m; split; [exact Hm | exact Hcells]).
  assert (Hb : (Z.to_nat BOARD_HEIGHT ≤ length (board s))%nat)
    by (destruct Hwf as [Hlen _]; lia).
  destruct (table_shape a (inBounds_rotation a Hin)) as (m0 & Hm0 & _ & Hcell).
  apply hasCell_shapeCell in Hcell as (yy0 & xx0 & Hcell).
  set (n := Z.to_nat (BOARD_HEIGHT - pos_y (position a) - Z.of_nat yy0 - 1)).
  destruct (descend_total (board s) a m0 yy0 xx0 Hb Hm0 Hcell n 0%nat)
    as (d & _ & Hbefore & Hstop & Hrun); [unfold n; lia|].
  exists (Z.of_nat d). split; [lia|].
  split; [intros k Hk; apply Hbefore; lia|]. split; [exact Hstop|].
  exists (S d). intros fuel Hfuel.
  specialize (Hrun fuel 0 ltac:(lia)).
  change (Z.of_nat 0) with 0 in Hrun. rewrite translate_zero in Hrun.
  simpl in Hrun.
  (* the resting piece is inside the board *)
  assert (Hgin : ∀ yy xx : nat, shapeCell m yy xx = true →
            0 ≤ pos_x (position (translate 0 (Z.of_nat d) a)) + Z.of_nat xx < BOARD_WIDTH ∧
            pos_y (position (translate 0 (Z.of_nat d) a)) + Z.of_nat (0 + yy)
              < BOARD_HEIGHT).
  { assert (Hg : inBounds (translate 0 (Z.of_nat d) a)).
    { destruct d as [|d]; [change (Z.of_nat 0) with 0; rewrite translate_zero; exact Hin|].
      apply (canPlace_translate_inBounds (board s) a 0 (Z.of_nat (S d)) Hb Hin).
      apply Hbefore. lia. }
    destruct Hg as (m1 & Hm1 & Hc1).
    assert (m1 = m) as -> by (unfold pieceMatrix in *; simpl in Hm1; congruence).
    intros yy xx Hs. exact (Hc1 yy xx Hs). }
  destruct (lockRows_spec (translate 0 (Z.of_nat d) a) m 0%nat (board s) Hwf Hgin)
    as (res & Hres & Hspec).
  change (Z.of_nat 0) with 0 in Hres.
  assert (Hlock : lockBoard (translate 0 (Z.of_nat d) a) (board s) =
                  match res with
                  | None => Ok (board s, 0, true)
                  | Some next => Ok ((clearLines next).1, (clearLines next).2, false)
                  end).
  { unfold lockBoard. unfold pieceMatrix in Hm. simpl. rewrite Hm, Hres. simpl.
    destruct res as [next|]; [|reflexivity]. destruct (clearLines next); reflexivity. }
  unfold hardDrop. rewrite Hact.
  destruct (decide (status s = playing)) as [_|Hn]; [|contradiction].
  rewrite Hrun. simpl. rewrite finalizeLock_eq. simpl. rewrite Hlock.
  destruct res as [next|]; simpl.
  - eexists. split; [reflexivity|]. simpl. unfold DROP_SCORE.
    split; [lia|]. split; [reflexivity|]. split; [reflexivity|].
    split; [reflexivity|]. split; [reflexivity|]. split; [reflexivity|].
    split; [exact Hst|]. right.
    destruct Hspec as [Hwf' Hchar]. split.
    + intros (m1 & Hm1 & yy & xx & Hs & Hneg).
      assert (m1 = m) as -> by (unfold pieceMatrix in *; simpl in Hm1; congruence).
      (* a cell above row 0 would have stopped the loops *)
      assert (Hnone : lockRows (translate 0 (Z.of_nat d) a) m 0 (board s) = Ok None).
      { apply (lockRows_above (translate 0 (Z.of_nat d) a) m (board s) 0%nat).
        exists yy, xx. split; [exact Hs | simpl; simpl in Hneg; lia]. }
      rewrite Hnone in Hres. discriminate.
    + exists next. split; [exact Hwf'|]. split; [|reflexivity].
      intros r c. rewrite Hchar, rowsCover_coveredBy. reflexivity.
  - eexists. split; [reflexivity|]. simpl. unfold DROP_SCORE.
    split; [lia|]. split; [reflexivity|]. split; [reflexivity|].
    split; [reflexivity|]. split; [reflexivity|]. split; [reflexivity|].
    split; [exact Hst|]. left. split; [|reflexivity].
    destruct Hspec as (yy & xx & Hs & Hneg).
    exists m. split; [exact Hm|]. exists yy, xx.
    split; [exact Hs | simpl in *; lia].
Qed.

Lemma hardDrop_drops_and_locks_witness :
  ∃ d : Z,
    0 ≤ d ∧
    (∀ k, 1 ≤ k ≤ d →
          canPlace (board startedState) spawnedJ (mkPosition 0 k) 0 = Ok true) ∧
    canPlace (board startedState) spawnedJ (mkPosition 0 (d + 1)) 0 = Ok false ∧
    ∃ fuel0 : nat, ∀ fuel : nat, (fuel0 ≤ fuel)%nat →
      ∃ s', hardDrop fuel startedState = Ok s' ∧
        score (stats s') = score (stats startedState) + d * 2 * 3 ∧
        hardDrops (stats s') = hardDrops (stats startedState) + 1 ∧
        active s' = None ∧
        pendingSpawns s' = pendingSpawns startedState ++ [None] ∧
        lockTimeout s' = None ∧ timers s' = timers startedState ∧
        status s' = playing ∧
        ((aboveBoard (translate 0 d spawnedJ) ∧ board s' = board startedState) ∨
         (¬ aboveBoard (translate 0 d spawnedJ) ∧
          ∃ next,
            wellFormed next ∧
            (∀ r c : nat,
               boardCellAt next r c =
               if coveredBy (translate 0 d spawnedJ) [[1;0;0]; [1;1;1]; [0;0;0]] r c
               then Some (Some (mkCell (ptype spawnedJ) None None))
               else boardCellAt (board startedState) r c) ∧
            board s' = (clearLines next).1)).
Proof.
  apply (hardDrop_drops_and_locks startedState spawnedJ [[1;0;0]; [1;1;1]; [0;0;0]]).
  - reflexivity.
  - reflexivity.
  - split; [reflexivity|]. apply (bool_decide_unpack _). vm_compute. exact I.
  - reflexivity.
  - intros yy xx Hs.
    destruct yy as [|[|[|yy]]]; destruct xx as [|[|[|xx]]];
      try discriminate Hs; vm_compute; repeat split; discriminate.
Defined.
